(** * google-dino-neural-network: the network, the genetic algorithm and the
    simulation tick, embedded from the TypeScript sources.

    - [src/ai/NeuralNetwork.ts]      -> Module [Network]
    - [src/components/TRexGame.tsx]  -> Module [TRexGame]
    - [src/types/*.ts]               -> the constants of Module [Config]

    Numbers.  A JavaScript number is a binary64 float.  Here a finite number
    is an exact rational ([Num q], [q : Q]); [Infinity], [-Infinity] and
    [NaN] are separate values, and so is [undefined], which an array of
    declared type [number[]] yields when it is read out of range.  Rounding
    and the sign of zero are not modelled.  [Math.exp], [Math.log],
    [Math.sqrt] and [Math.cos] are taken from a [MathLib] the development is
    parametric in.

    Randomness.  Each call of [Math.random()] takes the next element of a
    list of draws; a computation that needs a draw when none is left ends
    in [OutOfDraws].  Draws are independent, so the draws made by code that
    is not modelled (clouds, horizon bumps, the comparator of the shuffling
    sort) are simply not part of the list.

    Exceptions.  [throw] and the TypeError of a property access on
    [undefined] are [Raise]/[Throw]. *)

From Stdlib Require Import QArith Qround ZArith List Bool Lia Lqa Arith Permutation.
Import ListNotations.
Close Scope Q_scope.

Set Implicit Arguments.

(* ------------------------------------------------------------------------- *)
(** * JavaScript numbers *)

Inductive number : Type :=
| Num (q : Q)
| PosInf
| NegInf
| NaN
| Undefined.

Module JS.

Definition ofZ (z : Z) : number := Num (inject_Z z).
Definition ofNat (n : nat) : number := Num (inject_Z (Z.of_nat n)).

Definition neg (a : number) : number :=
  match a with
  | Num q => Num (- q)
  | PosInf => NegInf
  | NegInf => PosInf
  | NaN | Undefined => NaN
  end.

(** [a + b] *)
Definition add (a b : number) : number :=
  match a, b with
  | Num x, Num y => Num (x + y)
  | Num _, PosInf | PosInf, Num _ | PosInf, PosInf => PosInf
  | Num _, NegInf | NegInf, Num _ | NegInf, NegInf => NegInf
  | _, _ => NaN
  end.

(** [a - b] *)
Definition sub (a b : number) : number := add a (neg b).

(** The sign an infinite operand is multiplied by. *)
Definition scaleInf (inf : number) (q : Q) : number :=
  match Qcompare q 0 with
  | Gt => inf
  | Lt => neg inf
  | Eq => NaN
  end.

(** [a * b] *)
Definition mul (a b : number) : number :=
  match a, b with
  | Num x, Num y => Num (x * y)
  | Num x, PosInf | PosInf, Num x => scaleInf PosInf x
  | Num x, NegInf | NegInf, Num x => scaleInf NegInf x
  | PosInf, PosInf | NegInf, NegInf => PosInf
  | PosInf, NegInf | NegInf, PosInf => NegInf
  | _, _ => NaN
  end.

(** [a / b]; a zero divisor counts as [+0]. *)
Definition div (a b : number) : number :=
  match a, b with
  | Num x, Num y =>
      if Qeq_bool y 0 then scaleInf PosInf x else Num (x / y)
  | Num _, PosInf | Num _, NegInf => Num 0
  | PosInf, Num y => if Qle_bool 0 y then PosInf else NegInf
  | NegInf, Num y => if Qle_bool 0 y then NegInf else PosInf
  | _, _ => NaN
  end.

(** [a < b] *)
Definition lt (a b : number) : bool :=
  match a, b with
  | Num x, Num y => negb (Qle_bool y x)
  | Num _, PosInf | NegInf, Num _ | NegInf, PosInf => true
  | _, _ => false
  end.

(** [a > b] *)
Definition gt (a b : number) : bool := lt b a.

(** [a <= b] *)
Definition le (a b : number) : bool :=
  match a, b with
  | Num x, Num y => Qle_bool x y
  | Num _, PosInf | NegInf, Num _ | NegInf, PosInf
  | PosInf, PosInf | NegInf, NegInf => true
  | _, _ => false
  end.

(** [a >= b] *)
Definition ge (a b : number) : bool := le b a.

(** [a === b] *)
Definition eq (a b : number) : bool :=
  match a, b with
  | Num x, Num y => Qeq_bool x y
  | PosInf, PosInf | NegInf, NegInf | Undefined, Undefined => true
  | _, _ => false
  end.

Definition isNaN (a : number) : bool :=
  match a with NaN | Undefined => true | _ => false end.

(** [Math.min(a, b)] and [Math.max(a, b)] *)
Definition min (a b : number) : number :=
  if isNaN a || isNaN b then NaN else if lt b a then b else a.
Definition max (a b : number) : number :=
  if isNaN a || isNaN b then NaN else if lt a b then b else a.

(** [Math.floor(a)] and [Math.round(a)] *)
Definition floor (a : number) : number :=
  match a with
  | Num q => ofZ (Qfloor q)
  | Undefined => NaN
  | _ => a
  end.
Definition round (a : number) : number :=
  match a with
  | Num q => ofZ (Qfloor (q + (1 # 2)))
  | Undefined => NaN
  | _ => a
  end.

(** [a % b] *)
Definition remainder (a b : number) : number :=
  match a, b with
  | Num x, Num y =>
      if Qeq_bool y 0 then NaN
      else
        let q := (x / y)%Q in
        let n := if Qle_bool 0 q then Qfloor q else Qceiling q in
        Num (x - y * inject_Z n)%Q
  | Num _, PosInf | Num _, NegInf => a
  | _, _ => NaN
  end.

(** [Number.isFinite(a)] and [typeof a === 'number'] *)
Definition isFinite (a : number) : bool :=
  match a with Num _ => true | _ => false end.
Definition isNumber (a : number) : bool :=
  match a with Undefined => false | _ => true end.

(** Truthiness: what [a && ...], [a || ...] and [!a] test. *)
Definition truthy (a : number) : bool :=
  match a with
  | Num q => negb (Qeq_bool q 0)
  | PosInf | NegInf => true
  | NaN | Undefined => false
  end.

(** [a || b] on numbers *)
Definition or (a b : number) : number := if truthy a then a else b.

(** The array index a number denotes, if it is a non-negative integer. *)
Definition toIndex (a : number) : option nat :=
  match a with
  | Num q =>
      if Qeq_bool q (inject_Z (Qfloor q)) && (0 <=? Qfloor q)%Z
      then Some (Z.to_nat (Qfloor q)) else None
  | _ => None
  end.

(** [a[i]]: [undefined] out of range. *)
Definition get (a : list number) (i : nat) : number := nth i a Undefined.

(** [a[i] = v]: the array grows when [i] is past its end, and the cells
    in between are holes. *)
Fixpoint set {A : Type} (hole : A) (a : list A) (i : nat) (v : A) : list A :=
  match a, i with
  | [], O => [v]
  | [], S i' => hole :: set hole [] i' v
  | _ :: a', O => v :: a'
  | x :: a', S i' => x :: set hole a' i' v
  end.

End JS.

(** The transcendental functions of the runtime, on finite arguments. *)
Class MathLib : Type := {
  Math_exp : Q -> Q;
  Math_log : Q -> Q;
  Math_sqrt : Q -> Q;
  Math_cos : Q -> Q;
  Math_PI : Q
}.

Module JSMath.
Section WithMath.
Context {ML : MathLib}.

Definition exp (a : number) : number :=
  match a with
  | Num q => Num (Math_exp q)
  | PosInf => PosInf
  | NegInf => Num 0
  | NaN | Undefined => NaN
  end.

Definition log (a : number) : number :=
  match a with
  | Num q =>
      match Qcompare q 0 with
      | Gt => Num (Math_log q)
      | Eq => NegInf
      | Lt => NaN
      end
  | PosInf => PosInf
  | _ => NaN
  end.

Definition sqrt (a : number) : number :=
  match a with
  | Num q => if Qle_bool 0 q then Num (Math_sqrt q) else NaN
  | PosInf => PosInf
  | _ => NaN
  end.

Definition cos (a : number) : number :=
  match a with
  | Num q => Num (Math_cos q)
  | _ => NaN
  end.
End WithMath.
End JSMath.

(* ------------------------------------------------------------------------- *)
(** * Exceptions and the stream of random draws *)

Inductive error : Type :=
| ShapeMismatch (expected got : nat)   (* predict: `expected n inputs, got m` *)
| TypeError.                           (* property access on undefined *)

(** Code that may throw and draws nothing. *)
Inductive result (A : Type) : Type :=
| Return (a : A)
| Raise (e : error).
Arguments Return {A} a.
Arguments Raise {A} e.

Module Res.
Definition bind {A B} (m : result A) (k : A -> result B) : result B :=
  match m with
  | Return a => k a
  | Raise e => Raise e
  end.

(** [for (x of xs) acc = body(acc, x)] *)
Fixpoint foldM {A S} (body : S -> A -> result S) (xs : list A) (s : S)
  : result S :=
  match xs with
  | [] => Return s
  | x :: xs' => bind (body s x) (foldM body xs')
  end.

(** [xs.map(f)] for an [f] that may throw *)
Fixpoint mapM {A B} (f : A -> result B) (xs : list A) : result (list B) :=
  match xs with
  | [] => Return []
  | x :: xs' => bind (f x) (fun y => bind (mapM f xs') (fun ys => Return (y :: ys)))
  end.
End Res.

Declare Scope res_scope.
Delimit Scope res_scope with res.
Notation "x <- m ;; k" := (Res.bind m (fun x => k))
  (at level 61, m at next level, right associativity) : res_scope.
Notation "' p <- m ;; k" := (Res.bind m (fun p => k))
  (at level 61, p pattern, m at next level, right associativity) : res_scope.

(** Code that calls [Math.random()]: it consumes draws from the front. *)
Inductive outcome (A : Type) : Type :=
| Ok (a : A) (rest : list Q)
| Throw (e : error)
| OutOfDraws.
Arguments Ok {A} a rest.
Arguments Throw {A} e.
Arguments OutOfDraws {A}.

Definition Rand (A : Type) : Type := list Q -> outcome A.

Module Rnd.
Definition ret {A} (a : A) : Rand A := fun ds => Ok a ds.

Definition bind {A B} (m : Rand A) (k : A -> Rand B) : Rand B :=
  fun ds =>
    match m ds with
    | Ok a rest => k a rest
    | Throw e => Throw e
    | OutOfDraws => OutOfDraws
    end.

Definition lift {A} (r : result A) : Rand A :=
  fun ds => match r with Return a => Ok a ds | Raise e => Throw e end.

(** [Math.random()] *)
Definition random : Rand number :=
  fun ds => match ds with [] => OutOfDraws | d :: rest => Ok (Num d) rest end.

Fixpoint foldM {A S} (body : S -> A -> Rand S) (xs : list A) (s : S) : Rand S :=
  match xs with
  | [] => ret s
  | x :: xs' => bind (body s x) (foldM body xs')
  end.

Fixpoint mapM {A B} (f : A -> Rand B) (xs : list A) : Rand (list B) :=
  match xs with
  | [] => ret []
  | x :: xs' => bind (f x) (fun y => bind (mapM f xs') (fun ys => ret (y :: ys)))
  end.
End Rnd.

Declare Scope rand_scope.
Delimit Scope rand_scope with rand.
Notation "x <- m ;; k" := (Rnd.bind m (fun x => k))
  (at level 61, m at next level, right associativity) : rand_scope.
Notation "' p <- m ;; k" := (Rnd.bind m (fun p => k))
  (at level 61, p pattern, m at next level, right associativity) : rand_scope.

(* ------------------------------------------------------------------------- *)
(** * The feedforward network ([src/ai/NeuralNetwork.ts]) *)

Record NetworkArchitecture : Type := {
  inputSize : nat;
  hidden1Size : nat;
  hidden2Size : nat;
  outputSize : nat
}.

Definition DEFAULT_ARCHITECTURE : NetworkArchitecture :=
  {| inputSize := 12; hidden1Size := 8; hidden2Size := 6; outputSize := 3 |}.

Abbreviation matrix := (list (list number)).

Record NeuralNetwork : Type := {
  architecture : NetworkArchitecture;
  weightsIH1 : matrix;
  weightsH1H2 : matrix;
  weightsH2O : matrix;
  biasH1 : list number;
  biasH2 : list number;
  biasO : list number;
  lastInputs : list number;
  lastHidden1 : list number;
  lastHidden2 : list number;
  lastOutputs : list number
}.

Module Network.

(** [m[i][j]]: a TypeError when row [i] is missing, [undefined] when only
    the cell is. *)
Definition cell (m : matrix) (i j : nat) : result number :=
  match nth_error m i with
  | Some row => Return (JS.get row j)
  | None => Raise TypeError
  end.

(** [m[i][j] = v] *)
Definition setCell (m : matrix) (i j : nat) (v : number) : result matrix :=
  match nth_error m i with
  | Some row => Return (JS.set [] m i (JS.set Undefined row j v))
  | None => Raise TypeError
  end.

(** [Math.random() * 2 - 1] *)
Definition randomWeight : Rand number :=
  (r <- Rnd.random ;; Rnd.ret (JS.sub (JS.mul r (JS.ofZ 2)) (JS.ofZ 1)))%rand.

(** One row of a block of [initializeWeights]:
    [m[i] = []; for j < cols { m[i][j] = randomWeight() }] *)
Definition randomRow (cols : nat) (i : nat) : Rand (list number) :=
  Rnd.mapM (fun _ => randomWeight) (seq 0 cols).

(** One block of [initializeWeights]: [m = []; for i < rows { ... }] *)
Definition randomMatrix (rows cols : nat) : Rand matrix :=
  Rnd.mapM (randomRow cols) (seq 0 rows).

(** [Array(n).fill(0).map(() => this.randomWeight())] *)
Definition randomBias (n : nat) : Rand (list number) :=
  Rnd.mapM (fun _ => randomWeight) (repeat (JS.ofZ 0) n).

(** [new NeuralNetwork(architecture)]: the constructor, which runs
    [initializeWeights]. *)
Definition create (arch : NetworkArchitecture) : Rand NeuralNetwork :=
  (ih1 <- randomMatrix (inputSize arch) (hidden1Size arch) ;;
   h1h2 <- randomMatrix (hidden1Size arch) (hidden2Size arch) ;;
   h2o <- randomMatrix (hidden2Size arch) (outputSize arch) ;;
   b1 <- randomBias (hidden1Size arch) ;;
   b2 <- randomBias (hidden2Size arch) ;;
   bo <- randomBias (outputSize arch) ;;
   Rnd.ret {| architecture := arch;
              weightsIH1 := ih1; weightsH1H2 := h1h2; weightsH2O := h2o;
              biasH1 := b1; biasH2 := b2; biasO := bo;
              lastInputs := []; lastHidden1 := []; lastHidden2 := [];
              lastOutputs := [] |})%rand.

Section WithMath.
Context {ML : MathLib}.

(** [1 / (1 + Math.exp(-x))] *)
Definition sigmoid (x : number) : number :=
  JS.div (JS.ofZ 1) (JS.add (JS.ofZ 1) (JSMath.exp (JS.neg x))).

(** [sum += inputs[i] * w[i][j]] *)
Definition accumulate (inputs : list number) (w : matrix) (j : nat)
    (sum : number) (i : nat) : result number :=
  (wij <- cell w i j ;;
   Return (JS.add sum (JS.mul (JS.get inputs i) wij)))%res.

(** One neuron of a layer:
    [let sum = bias[j]; for i < inSize { sum += inputs[i] * w[i][j] };
     sigmoid(sum)] *)
Definition neuron (inputs : list number) (w : matrix) (bias : list number)
    (inSize j : nat) : result number :=
  (sum <- Res.foldM (accumulate inputs w j) (seq 0 inSize) (JS.get bias j) ;;
   Return (sigmoid sum))%res.

(** [for j < outSize { out[j] = neuron j }] *)
Definition layer (inputs : list number) (w : matrix) (bias : list number)
    (inSize outSize : nat) : result (list number) :=
  Res.mapM (neuron inputs w bias inSize) (seq 0 outSize).

(** [predict(inputs)]: the outputs, and the network with its four caches
    written. *)
Definition predict (net : NeuralNetwork) (inputs : list number)
  : result (list number * NeuralNetwork) :=
  let arch := architecture net in
  if negb (length inputs =? inputSize arch) then
    Raise (ShapeMismatch (inputSize arch) (length inputs))
  else
    (hidden1 <- layer inputs (weightsIH1 net) (biasH1 net)
                  (inputSize arch) (hidden1Size arch) ;;
     hidden2 <- layer hidden1 (weightsH1H2 net) (biasH2 net)
                  (hidden1Size arch) (hidden2Size arch) ;;
     outputs <- layer hidden2 (weightsH2O net) (biasO net)
                  (hidden2Size arch) (outputSize arch) ;;
     Return (outputs,
             {| architecture := arch;
                weightsIH1 := weightsIH1 net;
                weightsH1H2 := weightsH1H2 net;
                weightsH2O := weightsH2O net;
                biasH1 := biasH1 net; biasH2 := biasH2 net; biasO := biasO net;
                lastInputs := inputs; lastHidden1 := hidden1;
                lastHidden2 := hidden2; lastOutputs := outputs |}))%res.

End WithMath.

(** [weights.push(m[i][j])] *)
Definition pushCell (m : matrix) (i : nat) (weights : list number) (j : nat)
  : result (list number) :=
  (w <- cell m i j ;; Return (weights ++ [w]))%res.

(** One block of [getWeights]:
    [for i < rows { for j < cols { weights.push(m[i][j]) } }] *)
Definition flattenMatrix (m : matrix) (rows cols : nat) (weights : list number)
  : result (list number) :=
  Res.foldM (fun weights i => Res.foldM (pushCell m i) (seq 0 cols) weights)
    (seq 0 rows) weights.

(** [getWeights()] *)
Definition getWeights (net : NeuralNetwork) : result (list number) :=
  let arch := architecture net in
  (weights <- flattenMatrix (weightsIH1 net) (inputSize arch) (hidden1Size arch) [] ;;
   weights <- flattenMatrix (weightsH1H2 net) (hidden1Size arch) (hidden2Size arch) weights ;;
   weights <- flattenMatrix (weightsH2O net) (hidden2Size arch) (outputSize arch) weights ;;
   Return (((weights ++ biasH1 net) ++ biasH2 net) ++ biasO net))%res.

(** [m[i][j] = weights[index++]] *)
Definition fillCell (weights : list number) (i : nat) (st : matrix * nat)
    (j : nat) : result (matrix * nat) :=
  let '(m, index) := st in
  (m' <- setCell m i j (JS.get weights index) ;; Return (m', S index))%res.

(** One block of [setWeights]:
    [for i < rows { for j < cols { m[i][j] = weights[index++] } }] *)
Definition fillMatrix (weights : list number) (rows cols : nat)
    (st : matrix * nat) : result (matrix * nat) :=
  Res.foldM (fun st i => Res.foldM (fillCell weights i) (seq 0 cols) st)
    (seq 0 rows) st.

(** [b[i] = weights[index++]] *)
Definition fillBiasCell (weights : list number) (st : list number * nat)
    (i : nat) : list number * nat :=
  let '(b, index) := st in
  (JS.set Undefined b i (JS.get weights index), S index).

(** [for i < n { b[i] = weights[index++] }] *)
Definition fillBias (weights : list number) (n : nat) (st : list number * nat)
  : list number * nat :=
  fold_left (fillBiasCell weights) (seq 0 n) st.

(** [setWeights(weights)] *)
Definition setWeights (net : NeuralNetwork) (weights : list number)
  : result NeuralNetwork :=
  let arch := architecture net in
  ('(ih1, index) <- fillMatrix weights (inputSize arch) (hidden1Size arch)
                      (weightsIH1 net, 0) ;;
   '(h1h2, index) <- fillMatrix weights (hidden1Size arch) (hidden2Size arch)
                       (weightsH1H2 net, index) ;;
   '(h2o, index) <- fillMatrix weights (hidden2Size arch) (outputSize arch)
                      (weightsH2O net, index) ;;
   let '(b1, index) := fillBias weights (hidden1Size arch) (biasH1 net, index) in
   let '(b2, index) := fillBias weights (hidden2Size arch) (biasH2 net, index) in
   let '(bo, index) := fillBias weights (outputSize arch) (biasO net, index) in
   Return {| architecture := arch;
             weightsIH1 := ih1; weightsH1H2 := h1h2; weightsH2O := h2o;
             biasH1 := b1; biasH2 := b2; biasO := bo;
             lastInputs := lastInputs net; lastHidden1 := lastHidden1 net;
             lastHidden2 := lastHidden2 net; lastOutputs := lastOutputs net |})%res.

(** [getTotalWeights()] *)
Definition getTotalWeights (net : NeuralNetwork) : nat :=
  let arch := architecture net in
  let ih1 := inputSize arch * hidden1Size arch in
  let h1h2 := hidden1Size arch * hidden2Size arch in
  let h2o := hidden2Size arch * outputSize arch in
  let biases := hidden1Size arch + hidden2Size arch + outputSize arch in
  ih1 + h1h2 + h2o + biases.

(** [clone()] *)
Definition clone (net : NeuralNetwork) : Rand NeuralNetwork :=
  (c <- create (architecture net) ;;
   weights <- Rnd.lift (getWeights net) ;;
   Rnd.lift (setWeights c weights))%rand.

End Network.

(* ------------------------------------------------------------------------- *)
(** * Types and constants of the game ([src/types/TRexGame.types.ts]) *)

Inductive Status : Type := WAITING | RUNNING | JUMPING | DUCKING | CRASHED.

Inductive ObstacleType : Type := CACTUS_SMALL | CACTUS_LARGE | PTERODACTYL.

(** [yPos: number | number[]] *)
Inductive YPos : Type :=
| YFixed (y : number)
| YOneOf (ys : list number).

Definition Status_eqb (a b : Status) : bool :=
  match a, b with
  | WAITING, WAITING | RUNNING, RUNNING | JUMPING, JUMPING
  | DUCKING, DUCKING | CRASHED, CRASHED => true
  | _, _ => false
  end.

Definition ObstacleType_eqb (a b : ObstacleType) : bool :=
  match a, b with
  | CACTUS_SMALL, CACTUS_SMALL | CACTUS_LARGE, CACTUS_LARGE
  | PTERODACTYL, PTERODACTYL => true
  | _, _ => false
  end.

Notation "r |> f" := (f r) (at level 45, left associativity, only parsing).

(** [CollisionBox] *)
Module Box.
Record t : Type := mk {
  x : number;
  y : number;
  width : number;
  height : number
}.
Definition with_x (v : number) (r : t) : t :=
  mk v (y r) (width r) (height r).
Definition with_width (v : number) (r : t) : t :=
  mk (x r) (y r) v (height r).
End Box.

(** An element of [obstacle.collisionBoxes]: a box of the obstacle's own, or
    the [k]-th box of definition [d] of [OBSTACLE_TYPES], which the shallow
    copy [[...chosen.collisionBoxes]] shares with the definition. *)
Inductive BoxRef : Type :=
| Own (b : Box.t)
| Shared (d k : nat).

(** [ObstacleDefinition]; an optional field that is absent is [Undefined]. *)
Module ObstacleDefinition.
Record t : Type := mk {
  type : ObstacleType;
  width : number;
  height : number;
  yPos : YPos;
  minGap : number;
  minSpeed : number;
  collisionBoxes : list Box.t;
  multipleSpeed : number;
  numFrames : number;
  frameRate : number;
  speedOffset : number
}.
Definition with_collisionBoxes (v : list Box.t) (r : t) : t :=
  mk (type r) (width r) (height r) (yPos r) (minGap r) (minSpeed r) v
    (multipleSpeed r) (numFrames r) (frameRate r) (speedOffset r).
End ObstacleDefinition.

(** [Obstacle]; [rewardedBy] holds the keys of the [Record<number, boolean>], whose
    values are only ever [true]. *)
Module Obstacle.
Record t : Type := mk {
  xPos : number;
  yPos : number;
  width : number;
  height : number;
  type : ObstacleType;
  remove : bool;
  collisionBoxes : list BoxRef;
  currentFrame : number;
  timer : number;
  numFrames : number;
  frameRate : number;
  speedOffset : number;
  gap : number;
  followingObstacleCreated : bool;
  size : number;
  rewardedBy : list nat
}.
Definition with_xPos (v : number) (r : t) : t :=
  mk v (yPos r) (width r) (height r) (type r) (remove r) (collisionBoxes r)
    (currentFrame r) (timer r) (numFrames r) (frameRate r) (speedOffset r)
    (gap r) (followingObstacleCreated r) (size r) (rewardedBy r).
Definition with_remove (v : bool) (r : t) : t :=
  mk (xPos r) (yPos r) (width r) (height r) (type r) v (collisionBoxes r)
    (currentFrame r) (timer r) (numFrames r) (frameRate r) (speedOffset r)
    (gap r) (followingObstacleCreated r) (size r) (rewardedBy r).
Definition with_currentFrame (v : number) (r : t) : t :=
  mk (xPos r) (yPos r) (width r) (height r) (type r) (remove r)
    (collisionBoxes r) v (timer r) (numFrames r) (frameRate r) (speedOffset r)
    (gap r) (followingObstacleCreated r) (size r) (rewardedBy r).
Definition with_timer (v : number) (r : t) : t :=
  mk (xPos r) (yPos r) (width r) (height r) (type r) (remove r)
    (collisionBoxes r) (currentFrame r) v (numFrames r) (frameRate r)
    (speedOffset r) (gap r) (followingObstacleCreated r) (size r)
    (rewardedBy r).
Definition with_followingObstacleCreated (v : bool) (r : t) : t :=
  mk (xPos r) (yPos r) (width r) (height r) (type r) (remove r)
    (collisionBoxes r) (currentFrame r) (timer r) (numFrames r) (frameRate r)
    (speedOffset r) (gap r) v (size r) (rewardedBy r).
Definition with_rewardedBy (v : list nat) (r : t) : t :=
  mk (xPos r) (yPos r) (width r) (height r) (type r) (remove r)
    (collisionBoxes r) (currentFrame r) (timer r) (numFrames r) (frameRate r)
    (speedOffset r) (gap r) (followingObstacleCreated r) (size r) v.
End Obstacle.

(** [TRex]; [duckUntilX] is [number | null]. *)
Module TRex.
Record t : Type := mk {
  id : nat;
  xPos : number;
  yPos : number;
  groundYPos : number;
  minJumpHeight : number;
  jumping : bool;
  ducking : bool;
  jumpVelocity : number;
  reachedMinHeight : bool;
  speedDrop : bool;
  currentFrame : number;
  timer : number;
  msPerFrame : number;
  currentAnimFrames : list number;
  status : Status;
  alive : bool;
  lastLandTime : number;
  duckUntilX : option number
}.
Definition with_yPos (v : number) (r : t) : t :=
  mk (id r) (xPos r) v (groundYPos r) (minJumpHeight r) (jumping r)
    (ducking r) (jumpVelocity r) (reachedMinHeight r) (speedDrop r)
    (currentFrame r) (timer r) (msPerFrame r) (currentAnimFrames r) (status r)
    (alive r) (lastLandTime r) (duckUntilX r).
Definition with_jumping (v : bool) (r : t) : t :=
  mk (id r) (xPos r) (yPos r) (groundYPos r) (minJumpHeight r) v (ducking r)
    (jumpVelocity r) (reachedMinHeight r) (speedDrop r) (currentFrame r)
    (timer r) (msPerFrame r) (currentAnimFrames r) (status r) (alive r)
    (lastLandTime r) (duckUntilX r).
Definition with_ducking (v : bool) (r : t) : t :=
  mk (id r) (xPos r) (yPos r) (groundYPos r) (minJumpHeight r) (jumping r) v
    (jumpVelocity r) (reachedMinHeight r) (speedDrop r) (currentFrame r)
    (timer r) (msPerFrame r) (currentAnimFrames r) (status r) (alive r)
    (lastLandTime r) (duckUntilX r).
Definition with_jumpVelocity (v : number) (r : t) : t :=
  mk (id r) (xPos r) (yPos r) (groundYPos r) (minJumpHeight r) (jumping r)
    (ducking r) v (reachedMinHeight r) (speedDrop r) (currentFrame r)
    (timer r) (msPerFrame r) (currentAnimFrames r) (status r) (alive r)
    (lastLandTime r) (duckUntilX r).
Definition with_reachedMinHeight (v : bool) (r : t) : t :=
  mk (id r) (xPos r) (yPos r) (groundYPos r) (minJumpHeight r) (jumping r)
    (ducking r) (jumpVelocity r) v (speedDrop r) (currentFrame r) (timer r)
    (msPerFrame r) (currentAnimFrames r) (status r) (alive r) (lastLandTime r)
    (duckUntilX r).
Definition with_speedDrop (v : bool) (r : t) : t :=
  mk (id r) (xPos r) (yPos r) (groundYPos r) (minJumpHeight r) (jumping r)
    (ducking r) (jumpVelocity r) (reachedMinHeight r) v (currentFrame r)
    (timer r) (msPerFrame r) (currentAnimFrames r) (status r) (alive r)
    (lastLandTime r) (duckUntilX r).
Definition with_currentFrame (v : number) (r : t) : t :=
  mk (id r) (xPos r) (yPos r) (groundYPos r) (minJumpHeight r) (jumping r)
    (ducking r) (jumpVelocity r) (reachedMinHeight r) (speedDrop r) v
    (timer r) (msPerFrame r) (currentAnimFrames r) (status r) (alive r)
    (lastLandTime r) (duckUntilX r).
Definition with_timer (v : number) (r : t) : t :=
  mk (id r) (xPos r) (yPos r) (groundYPos r) (minJumpHeight r) (jumping r)
    (ducking r) (jumpVelocity r) (reachedMinHeight r) (speedDrop r)
    (currentFrame r) v (msPerFrame r) (currentAnimFrames r) (status r)
    (alive r) (lastLandTime r) (duckUntilX r).
Definition with_msPerFrame (v : number) (r : t) : t :=
  mk (id r) (xPos r) (yPos r) (groundYPos r) (minJumpHeight r) (jumping r)
    (ducking r) (jumpVelocity r) (reachedMinHeight r) (speedDrop r)
    (currentFrame r) (timer r) v (currentAnimFrames r) (status r) (alive r)
    (lastLandTime r) (duckUntilX r).
Definition with_currentAnimFrames (v : list number) (r : t) : t :=
  mk (id r) (xPos r) (yPos r) (groundYPos r) (minJumpHeight r) (jumping r)
    (ducking r) (jumpVelocity r) (reachedMinHeight r) (speedDrop r)
    (currentFrame r) (timer r) (msPerFrame r) v (status r) (alive r)
    (lastLandTime r) (duckUntilX r).
Definition with_status (v : Status) (r : t) : t :=
  mk (id r) (xPos r) (yPos r) (groundYPos r) (minJumpHeight r) (jumping r)
    (ducking r) (jumpVelocity r) (reachedMinHeight r) (speedDrop r)
    (currentFrame r) (timer r) (msPerFrame r) (currentAnimFrames r) v
    (alive r) (lastLandTime r) (duckUntilX r).
Definition with_alive (v : bool) (r : t) : t :=
  mk (id r) (xPos r) (yPos r) (groundYPos r) (minJumpHeight r) (jumping r)
    (ducking r) (jumpVelocity r) (reachedMinHeight r) (speedDrop r)
    (currentFrame r) (timer r) (msPerFrame r) (currentAnimFrames r) (status r)
    v (lastLandTime r) (duckUntilX r).
Definition with_lastLandTime (v : number) (r : t) : t :=
  mk (id r) (xPos r) (yPos r) (groundYPos r) (minJumpHeight r) (jumping r)
    (ducking r) (jumpVelocity r) (reachedMinHeight r) (speedDrop r)
    (currentFrame r) (timer r) (msPerFrame r) (currentAnimFrames r) (status r)
    (alive r) v (duckUntilX r).
Definition with_duckUntilX (v : option number) (r : t) : t :=
  mk (id r) (xPos r) (yPos r) (groundYPos r) (minJumpHeight r) (jumping r)
    (ducking r) (jumpVelocity r) (reachedMinHeight r) (speedDrop r)
    (currentFrame r) (timer r) (msPerFrame r) (currentAnimFrames r) (status r)
    (alive r) (lastLandTime r) v.
End TRex.

(** The mutable state of the component: [gameDataRef.current] without the
    canvas context, the horizon and the clouds, and with two more pieces of
    state the code keeps elsewhere: [obstacleTypes], the array [OBSTACLE_TYPES]
    (its collision boxes are written by [createNewObstacle]), and [prevDist],
    the [_prevDist] property that [getGameInputsForNN] keeps on its own
    function object ([Undefined] until first written).  [generation] counts
    rollovers: a [nat]. *)
Module GameData.
Record t : Type := mk {
  time : number;
  runningTime : number;
  currentSpeed : number;
  distanceRan : number;
  msPerFrame : number;
  playing : bool;
  crashed : bool;
  activated : bool;
  tRexes : list TRex.t;
  networks : list NeuralNetwork;
  fitness : list number;
  generation : nat;
  bestFitness : number;
  bestWeights : option (list number);
  obstacles : list Obstacle.t;
  obstacleHistory : list ObstacleType;
  obstacleTypes : list ObstacleDefinition.t;
  prevDist : number
}.
Definition with_time (v : number) (r : t) : t :=
  mk v (runningTime r) (currentSpeed r) (distanceRan r) (msPerFrame r)
    (playing r) (crashed r) (activated r) (tRexes r) (networks r) (fitness r)
    (generation r) (bestFitness r) (bestWeights r) (obstacles r)
    (obstacleHistory r) (obstacleTypes r) (prevDist r).
Definition with_runningTime (v : number) (r : t) : t :=
  mk (time r) v (currentSpeed r) (distanceRan r) (msPerFrame r) (playing r)
    (crashed r) (activated r) (tRexes r) (networks r) (fitness r)
    (generation r) (bestFitness r) (bestWeights r) (obstacles r)
    (obstacleHistory r) (obstacleTypes r) (prevDist r).
Definition with_currentSpeed (v : number) (r : t) : t :=
  mk (time r) (runningTime r) v (distanceRan r) (msPerFrame r) (playing r)
    (crashed r) (activated r) (tRexes r) (networks r) (fitness r)
    (generation r) (bestFitness r) (bestWeights r) (obstacles r)
    (obstacleHistory r) (obstacleTypes r) (prevDist r).
Definition with_distanceRan (v : number) (r : t) : t :=
  mk (time r) (runningTime r) (currentSpeed r) v (msPerFrame r) (playing r)
    (crashed r) (activated r) (tRexes r) (networks r) (fitness r)
    (generation r) (bestFitness r) (bestWeights r) (obstacles r)
    (obstacleHistory r) (obstacleTypes r) (prevDist r).
Definition with_playing (v : bool) (r : t) : t :=
  mk (time r) (runningTime r) (currentSpeed r) (distanceRan r) (msPerFrame r)
    v (crashed r) (activated r) (tRexes r) (networks r) (fitness r)
    (generation r) (bestFitness r) (bestWeights r) (obstacles r)
    (obstacleHistory r) (obstacleTypes r) (prevDist r).
Definition with_crashed (v : bool) (r : t) : t :=
  mk (time r) (runningTime r) (currentSpeed r) (distanceRan r) (msPerFrame r)
    (playing r) v (activated r) (tRexes r) (networks r) (fitness r)
    (generation r) (bestFitness r) (bestWeights r) (obstacles r)
    (obstacleHistory r) (obstacleTypes r) (prevDist r).
Definition with_activated (v : bool) (r : t) : t :=
  mk (time r) (runningTime r) (currentSpeed r) (distanceRan r) (msPerFrame r)
    (playing r) (crashed r) v (tRexes r) (networks r) (fitness r)
    (generation r) (bestFitness r) (bestWeights r) (obstacles r)
    (obstacleHistory r) (obstacleTypes r) (prevDist r).
Definition with_tRexes (v : list TRex.t) (r : t) : t :=
  mk (time r) (runningTime r) (currentSpeed r) (distanceRan r) (msPerFrame r)
    (playing r) (crashed r) (activated r) v (networks r) (fitness r)
    (generation r) (bestFitness r) (bestWeights r) (obstacles r)
    (obstacleHistory r) (obstacleTypes r) (prevDist r).
Definition with_networks (v : list NeuralNetwork) (r : t) : t :=
  mk (time r) (runningTime r) (currentSpeed r) (distanceRan r) (msPerFrame r)
    (playing r) (crashed r) (activated r) (tRexes r) v (fitness r)
    (generation r) (bestFitness r) (bestWeights r) (obstacles r)
    (obstacleHistory r) (obstacleTypes r) (prevDist r).
Definition with_fitness (v : list number) (r : t) : t :=
  mk (time r) (runningTime r) (currentSpeed r) (distanceRan r) (msPerFrame r)
    (playing r) (crashed r) (activated r) (tRexes r) (networks r) v
    (generation r) (bestFitness r) (bestWeights r) (obstacles r)
    (obstacleHistory r) (obstacleTypes r) (prevDist r).
Definition with_generation (v : nat) (r : t) : t :=
  mk (time r) (runningTime r) (currentSpeed r) (distanceRan r) (msPerFrame r)
    (playing r) (crashed r) (activated r) (tRexes r) (networks r) (fitness r)
    v (bestFitness r) (bestWeights r) (obstacles r) (obstacleHistory r)
    (obstacleTypes r) (prevDist r).
Definition with_bestFitness (v : number) (r : t) : t :=
  mk (time r) (runningTime r) (currentSpeed r) (distanceRan r) (msPerFrame r)
    (playing r) (crashed r) (activated r) (tRexes r) (networks r) (fitness r)
    (generation r) v (bestWeights r) (obstacles r) (obstacleHistory r)
    (obstacleTypes r) (prevDist r).
Definition with_bestWeights (v : option (list number)) (r : t) : t :=
  mk (time r) (runningTime r) (currentSpeed r) (distanceRan r) (msPerFrame r)
    (playing r) (crashed r) (activated r) (tRexes r) (networks r) (fitness r)
    (generation r) (bestFitness r) v (obstacles r) (obstacleHistory r)
    (obstacleTypes r) (prevDist r).
Definition with_obstacles (v : list Obstacle.t) (r : t) : t :=
  mk (time r) (runningTime r) (currentSpeed r) (distanceRan r) (msPerFrame r)
    (playing r) (crashed r) (activated r) (tRexes r) (networks r) (fitness r)
    (generation r) (bestFitness r) (bestWeights r) v (obstacleHistory r)
    (obstacleTypes r) (prevDist r).
Definition with_obstacleHistory (v : list ObstacleType) (r : t) : t :=
  mk (time r) (runningTime r) (currentSpeed r) (distanceRan r) (msPerFrame r)
    (playing r) (crashed r) (activated r) (tRexes r) (networks r) (fitness r)
    (generation r) (bestFitness r) (bestWeights r) (obstacles r) v
    (obstacleTypes r) (prevDist r).
Definition with_obstacleTypes (v : list ObstacleDefinition.t) (r : t) : t :=
  mk (time r) (runningTime r) (currentSpeed r) (distanceRan r) (msPerFrame r)
    (playing r) (crashed r) (activated r) (tRexes r) (networks r) (fitness r)
    (generation r) (bestFitness r) (bestWeights r) (obstacles r)
    (obstacleHistory r) v (prevDist r).
Definition with_prevDist (v : number) (r : t) : t :=
  mk (time r) (runningTime r) (currentSpeed r) (distanceRan r) (msPerFrame r)
    (playing r) (crashed r) (activated r) (tRexes r) (networks r) (fitness r)
    (generation r) (bestFitness r) (bestWeights r) (obstacles r)
    (obstacleHistory r) (obstacleTypes r) v.
End GameData.

Module Config.

Definition FPS : number := Num 60.
Definition ENABLE_NOCLIP : bool := false.
Definition T_REX_COUNT : nat := 200.

Module GAME_CONFIG.
Definition ACCELERATION : number := Num 0.001.
Definition BOTTOM_PAD : number := Num 10.
Definition CLEAR_TIME : number := Num 3000.
Definition GAP_COEFFICIENT : number := Num 0.6.
Definition MAX_OBSTACLE_LENGTH : number := Num 3.
Definition MAX_OBSTACLE_DUPLICATION : nat := 2.
Definition MAX_SPEED : number := Num 13.
Definition SPEED : number := Num 6.
End GAME_CONFIG.

Module TREX_CONFIG.
Definition DROP_VELOCITY : number := Num (-5).
Definition GRAVITY : number := Num 0.6.
Definition HEIGHT : number := Num 47.
Definition HEIGHT_DUCK : number := Num 25.
Definition INIITAL_JUMP_VELOCITY : number := Num (-10).
Definition MAX_JUMP_HEIGHT : number := Num 30.
Definition MIN_JUMP_HEIGHT : number := Num 30.
Definition START_X_POS : number := Num 50.
Definition WIDTH : number := Num 44.
Definition WIDTH_DUCK : number := Num 59.
End TREX_CONFIG.

Definition box (x y w h : Q) : Box.t := Box.mk (Num x) (Num y) (Num w) (Num h).

Module TREX_COLLISION_BOXES.
Definition RUNNING : list Box.t :=
  [ box 22 0 17 16; box 1 18 30 9; box 10 35 14 8;
    box 1 24 29 5; box 5 30 21 4; box 9 34 15 4 ].
Definition DUCKING : list Box.t := [ box 1 18 55 25 ].
End TREX_COLLISION_BOXES.

(** [TREX_ANIM_FRAMES[status]] *)
Definition TREX_ANIM_FRAMES (status : Status) : list number * number :=
  match status with
  | WAITING => ([Num 44; Num 0], Num (1000 # 3))
  | RUNNING => ([Num 88; Num 132], Num (1000 # 12))
  | CRASHED => ([Num 220], Num (1000 # 60))
  | JUMPING => ([Num 0], Num (1000 # 60))
  | DUCKING => ([Num 264; Num 323], Num (1000 # 8))
  end.

Definition OBSTACLE_TYPES : list ObstacleDefinition.t :=
  [ {| ObstacleDefinition.type := CACTUS_SMALL;
       ObstacleDefinition.width := Num 17;
       ObstacleDefinition.height := Num 35;
       ObstacleDefinition.yPos := YFixed (Num 105);
       ObstacleDefinition.multipleSpeed := Num 4;
       ObstacleDefinition.minGap := Num 120;
       ObstacleDefinition.minSpeed := Num 0;
       ObstacleDefinition.collisionBoxes :=
         [ box 0 7 5 27; box 4 0 6 34; box 10 4 7 14 ];
       ObstacleDefinition.numFrames := Undefined;
       ObstacleDefinition.frameRate := Undefined;
       ObstacleDefinition.speedOffset := Undefined |};
    {| ObstacleDefinition.type := CACTUS_LARGE;
       ObstacleDefinition.width := Num 25;
       ObstacleDefinition.height := Num 50;
       ObstacleDefinition.yPos := YFixed (Num 90);
       ObstacleDefinition.multipleSpeed := Num 7;
       ObstacleDefinition.minGap := Num 120;
       ObstacleDefinition.minSpeed := Num 0;
       ObstacleDefinition.collisionBoxes :=
         [ box 0 12 7 38; box 8 0 7 49; box 13 10 10 38 ];
       ObstacleDefinition.numFrames := Undefined;
       ObstacleDefinition.frameRate := Undefined;
       ObstacleDefinition.speedOffset := Undefined |};
    {| ObstacleDefinition.type := PTERODACTYL;
       ObstacleDefinition.width := Num 46;
       ObstacleDefinition.height := Num 40;
       ObstacleDefinition.yPos := YOneOf [Num 50; Num 100];
       ObstacleDefinition.multipleSpeed := Undefined;
       ObstacleDefinition.minGap := Num 150;
       ObstacleDefinition.minSpeed := Num 8.5;
       ObstacleDefinition.collisionBoxes :=
         [ box 15 15 16 5; box 18 21 24 6; box 2 14 4 3;
           box 6 10 4 7; box 10 8 6 9 ];
       ObstacleDefinition.numFrames := Num 2;
       ObstacleDefinition.frameRate := Num (1000 # 6);
       ObstacleDefinition.speedOffset := Num 0.8 |} ].

End Config.

(* ------------------------------------------------------------------------- *)
(** * Array operations used by the component *)

Module JSArray.

(** [a[i]] for an index that is itself a number. *)
Definition at_ (a : list number) (i : number) : number :=
  match JS.toIndex i with
  | Some k => JS.get a k
  | None => Undefined
  end.

(** [a[i]] for an array of objects: [None] is [undefined]. *)
Definition item {A : Type} (a : list A) (i : number) : option A :=
  match JS.toIndex i with
  | Some k => nth_error a k
  | None => None
  end.

(** The position a relative index of [slice] denotes in an array of length
    [len] (ToIntegerOrInfinity, then the clamping of Array.prototype.slice). *)
Definition relativeIndex (len : nat) (a : number) : nat :=
  match a with
  | Num q =>
      let z := if Qle_bool 0 q then Qfloor q else Qceiling q in
      if (z <? 0)%Z then Z.to_nat (Z.max (Z.of_nat len + z) 0)
      else Nat.min (Z.to_nat z) len
  | PosInf => len
  | NegInf | NaN | Undefined => 0
  end.

(** [a.slice(start, end)]; [None] is an omitted [end]. *)
Definition slice {A : Type} (a : list A) (start : number) (end_ : option number)
  : list A :=
  let k := relativeIndex (length a) start in
  let final :=
    match end_ with
    | Some e => relativeIndex (length a) e
    | None => length a
    end in
  firstn (final - k) (skipn k a).

End JSArray.

(* ------------------------------------------------------------------------- *)
(** * The component ([src/components/TRexGame.tsx]) *)

Module TRexGame.
Import Config.

(** [getRandomNum(min, max)] *)
Definition getRandomNum (min max : number) : Rand number :=
  (r <- Rnd.random ;;
   Rnd.ret (JS.add (JS.floor (JS.mul r (JS.add (JS.sub max min) (Num 1)))) min))%rand.

(** [if (values[i] > best) { best = values[i]; idx = i }] *)
Definition argmaxStep (values : list number) (st : nat * number) (i : nat)
  : nat * number :=
  if JS.gt (JS.get values i) (snd st) then (i, JS.get values i) else st.

(** [argmax(values)] *)
Definition argmax (values : list number) : nat :=
  fst (fold_left (argmaxStep values) (seq 1 (length values - 1))
         (0, JS.get values 0)).

(** ** The genetic operators *)

(** [Math.floor(Math.random() * n)] *)
Definition randomIndex (n : nat) : Rand number :=
  (r <- Rnd.random ;; Rnd.ret (JS.floor (JS.mul r (JS.ofNat n))))%rand.

(** One round of a tournament:
    [challenger = floor(random() * n);
     if (fitness[challenger] > fitness[bestIdx]) bestIdx = challenger] *)
Definition challenge (fitness : list number) (n : nat) (bestIdx : number)
    (t : nat) : Rand number :=
  (challenger <- randomIndex n ;;
   Rnd.ret (if JS.gt (JSArray.at_ fitness challenger) (JSArray.at_ fitness bestIdx)
            then challenger else bestIdx))%rand.

(** One tournament of [buildParentsPool]:
    [let bestIdx = floor(random() * n); for (t = 1; t < k; t++) { ... }] *)
Definition tournament (fitness : list number) (n k : nat) : Rand number :=
  (bestIdx <- randomIndex n ;;
   Rnd.foldM (challenge fitness n) (seq 1 (k - 1)) bestIdx)%rand.

(** The body of the loop of [buildParentsPool]:
    [pool.push(networks[bestIdx])] after a tournament. *)
Definition selectParent (networks : list NeuralNetwork) (fitness : list number)
    (k : nat) (pool : list (option NeuralNetwork)) (i : nat)
  : Rand (list (option NeuralNetwork)) :=
  (bestIdx <- tournament fitness (length networks) k ;;
   Rnd.ret (pool ++ [JSArray.item networks bestIdx]))%rand.

(** [buildParentsPool(networks, fitness, k)]; an entry of the pool is the
    network object itself, or [undefined] ([None]). *)
Definition buildParentsPool (networks : list NeuralNetwork)
    (fitness : list number) (k : nat) : Rand (list (option NeuralNetwork)) :=
  Rnd.foldM (selectParent networks fitness k) (seq 0 (length networks)) [].

(** [crossoverSinglePoint(a, b)] *)
Definition crossoverSinglePoint (a b : list number) : Rand (list number) :=
  let len := Nat.min (length a) (length b) in
  if len =? 0 then Rnd.ret []
  else
    (r <- Rnd.random ;;
     let point :=
       JS.add (Num 1) (JS.floor (JS.mul r (JS.sub (JS.ofNat len) (Num 1)))) in
     let child :=
       JSArray.slice a (Num 0) (Some point) ++ JSArray.slice b point None in
     Rnd.ret child)%rand.

(** [while (u === 0) u = Math.random()], entered with [u = 0]. *)
Fixpoint drawNonZero (ds : list Q) : outcome number :=
  match ds with
  | [] => OutOfDraws
  | d :: rest => if Qeq_bool d 0 then drawNonZero rest else Ok (Num d) rest
  end.

Section WithMath.
Context {ML : MathLib}.

(** [randn()]: Box-Muller *)
Definition randn : Rand number :=
  (u <- drawNonZero ;;
   v <- drawNonZero ;;
   Rnd.ret (JS.mul (JSMath.sqrt (JS.mul (Num (-2)) (JSMath.log u)))
                   (JSMath.cos (JS.mul (JS.mul (Num 2) (Num Math_PI)) v))))%rand.

(** [w => Math.random() < mutationRate ? w + randn() * sigma : w] *)
Definition mutateWeight (mutationRate sigma : number) (w : number) : Rand number :=
  (r <- Rnd.random ;;
   if JS.lt r mutationRate then
     g <- randn ;; Rnd.ret (JS.add w (JS.mul g sigma))
   else Rnd.ret w)%rand.

(** [mutateWeights(weights, mutationRate, sigma)] *)
Definition mutateWeights (weights : list number) (mutationRate sigma : number)
  : Rand (list number) :=
  Rnd.mapM (mutateWeight mutationRate sigma) weights.

End WithMath.

(** ** Agents *)

(** [updateTRexStatus(tRex, status)] *)
Definition updateTRexStatus (tRex : TRex.t) (status : Status) : TRex.t :=
  if negb (Status_eqb (TRex.status tRex) status) then
    tRex |> TRex.with_status status
         |> TRex.with_currentFrame (Num 0)
         |> TRex.with_msPerFrame (snd (TREX_ANIM_FRAMES status))
         |> TRex.with_currentAnimFrames (fst (TREX_ANIM_FRAMES status))
  else tRex.

(** [endTRexJump(tRex)] *)
Definition endTRexJump (tRex : TRex.t) : TRex.t :=
  if TRex.reachedMinHeight tRex
     && JS.lt (TRex.jumpVelocity tRex) TREX_CONFIG.DROP_VELOCITY
  then tRex |> TRex.with_jumpVelocity TREX_CONFIG.DROP_VELOCITY
  else tRex.

(** [startTRexJump(tRex)] *)
Definition startTRexJump (currentSpeed : number) (tRex : TRex.t) : TRex.t :=
  if negb (TRex.jumping tRex) && negb (TRex.ducking tRex) then
    updateTRexStatus tRex JUMPING
      |> TRex.with_jumpVelocity
           (JS.sub TREX_CONFIG.INIITAL_JUMP_VELOCITY (JS.div currentSpeed (Num 10)))
      |> TRex.with_jumping true
      |> TRex.with_reachedMinHeight false
      |> TRex.with_speedDrop false
  else tRex.

(** [updateTRexJump(tRex, deltaTime)]; [stamp] is what [getTimeStamp()]
    returns at the landing. *)
Definition updateTRexJump (stamp deltaTime : number) (tRex : TRex.t) : TRex.t :=
  let framesElapsed := JS.div deltaTime (TRex.msPerFrame tRex) in
  let tRex :=
    tRex |> TRex.with_yPos
              (JS.add (TRex.yPos tRex)
                      (JS.round (JS.mul (TRex.jumpVelocity tRex) framesElapsed)))
         |> TRex.with_jumpVelocity
              (JS.add (TRex.jumpVelocity tRex)
                      (JS.mul TREX_CONFIG.GRAVITY framesElapsed)) in
  let tRex :=
    if JS.lt (TRex.yPos tRex) (TRex.minJumpHeight tRex) || TRex.speedDrop tRex
    then tRex |> TRex.with_reachedMinHeight true else tRex in
  let tRex :=
    if JS.lt (TRex.yPos tRex) TREX_CONFIG.MAX_JUMP_HEIGHT || TRex.speedDrop tRex
    then endTRexJump tRex else tRex in
  if JS.ge (TRex.yPos tRex) (TRex.groundYPos tRex) then
    updateTRexStatus
      (tRex |> TRex.with_yPos (TRex.groundYPos tRex)
            |> TRex.with_jumping false
            |> TRex.with_jumpVelocity (Num 0)
            |> TRex.with_reachedMinHeight false
            |> TRex.with_speedDrop false
            |> TRex.with_lastLandTime stamp)
      RUNNING
  else tRex.

(** The body of the [forEach] of [updateAllTRexes]. *)
Definition updateOneTRex (stamp deltaTime : number) (tRex : TRex.t) : TRex.t :=
  if negb (TRex.alive tRex) then tRex
  else
    let tRex := tRex |> TRex.with_timer (JS.add (TRex.timer tRex) deltaTime) in
    let tRex :=
      if JS.ge (TRex.timer tRex) (TRex.msPerFrame tRex) then
        tRex |> TRex.with_currentFrame
                  (if JS.eq (TRex.currentFrame tRex)
                            (JS.sub (JS.ofNat (length (TRex.currentAnimFrames tRex)))
                                    (Num 1))
                   then Num 0
                   else JS.add (TRex.currentFrame tRex) (Num 1))
             |> TRex.with_timer (Num 0)
      else tRex in
    if TRex.jumping tRex then updateTRexJump stamp deltaTime tRex else tRex.

(** [updateAllTRexes(deltaTime)] *)
Definition updateAllTRexes (stamp deltaTime : number) (g : GameData.t)
  : GameData.t :=
  g |> GameData.with_tRexes (map (updateOneTRex stamp deltaTime) (GameData.tRexes g)).

(** ** Input encoding *)

Module GameInputs.
Record t : Type := mk {
  obstacleDistance : number;
  obstacleHeight : number;
  dinoYVelocity : number;
  gameSpeed : number;
  isOnGround : number;
  timeToImpact : number;
  obstaclePresent : number;
  isPtero : number;
  pteroRelHeight : number;
  invDistance : number;
  dDistance : number;
  enhancedDuckSignal : number
}.
End GameInputs.

(** One step of the search for the nearest obstacle ahead of [xPos]:
    [if (usable(ob) && ob.xPos > xPos) { d = ob.xPos - xPos;
       if (d < minDist) { minDist = d; closest = ob } }] *)
Definition nearer (usable : Obstacle.t -> bool) (xPos : number)
    (st : option Obstacle.t * number) (ob : Obstacle.t)
  : option Obstacle.t * number :=
  if usable ob && JS.gt (Obstacle.xPos ob) xPos then
    let d := JS.sub (Obstacle.xPos ob) xPos in
    if JS.lt d (snd st) then (Some ob, d) else st
  else st.

(** The search for the nearest obstacle ahead of [xPos], as both [update]
    (with [usable ob = !ob.remove]) and the fallback of [getGameInputsForNN]
    (with no further test) run it. *)
Definition closestFrom (usable : Obstacle.t -> bool) (xPos : number)
    (obstacles : list Obstacle.t) (start : option Obstacle.t * number)
  : option Obstacle.t * number :=
  fold_left (nearer usable xPos) obstacles start.

Definition bit (b : bool) : number := if b then Num 1 else Num 0.

(** [getGameInputsForNN(tRex, shared)]: the features, and the state with
    [_prevDist] written. *)
Definition getGameInputsForNN (g : GameData.t) (tRex : TRex.t)
    (shared : option Obstacle.t * number) : GameInputs.t * GameData.t :=
  let '(closestObstacle, minDistance) :=
    let closestObstacle := fst shared in
    let minDistance := if JS.isFinite (snd shared) then snd shared else PosInf in
    match closestObstacle with
    | Some _ => (closestObstacle, minDistance)
    | None =>
        closestFrom (fun _ => true) (TRex.xPos tRex) (GameData.obstacles g)
          (closestObstacle, minDistance)
    end in
  let near := JS.sub (Num 1) (JS.min (JS.div minDistance (Num 300)) (Num 1)) in
  let obstacleDistance :=
    match closestObstacle with Some _ => near | None => Num 0 end in
  let invDistance :=
    match closestObstacle with Some _ => near | None => Num 0 end in
  let tRexHeight :=
    if TRex.ducking tRex then TREX_CONFIG.HEIGHT_DUCK else TREX_CONFIG.HEIGHT in
  let obstacleHeight :=
    match closestObstacle with
    | Some ob => JS.min (JS.div (Obstacle.height ob) tRexHeight) (Num 1)
    | None => Num 0
    end in
  let gameSpeed := JS.div (GameData.currentSpeed g) GAME_CONFIG.MAX_SPEED in
  let dinoYVelocity := JS.div (JS.add (TRex.jumpVelocity tRex) (Num 20)) (Num 40) in
  let isOnGround := bit (JS.ge (TRex.yPos tRex) (TRex.groundYPos tRex)) in
  let pxPerSecond := JS.mul (GameData.currentSpeed g) FPS in
  let timeToImpact :=
    match closestObstacle with
    | Some _ =>
        JS.min (JS.div minDistance (JS.max pxPerSecond (Num (1 # 1000)))) (Num 1)
    | None => Num 1
    end in
  let obstaclePresent :=
    match closestObstacle with
    | Some _ => bit (JS.lt minDistance (Num 100))
    | None => Num 0
    end in
  let ptero :=
    match closestObstacle with
    | Some ob =>
        if ObstacleType_eqb (Obstacle.type ob) PTERODACTYL then Some ob else None
    | None => None
    end in
  let isPtero := match ptero with Some _ => Num 1 | None => Num 0 end in
  let pteroRelHeight :=
    match ptero with
    | Some ob =>
        JS.max (Num 0)
          (JS.min (JS.div (JS.sub (TRex.groundYPos tRex) (Obstacle.yPos ob))
                          (JS.sub (TRex.groundYPos tRex) (Num 50)))
                  (Num 1))
    | None => Num 0
    end in
  let enhancedDuckSignal :=
    match ptero with
    | Some ob =>
        let pteroBottom := JS.add (Obstacle.yPos ob) (Obstacle.height ob) in
        let tRexDuckTop := JS.sub (TRex.groundYPos tRex) TREX_CONFIG.HEIGHT_DUCK in
        let isLow := JS.gt pteroBottom tRexDuckTop in
        let isClose := JS.lt minDistance (Num 120) in
        bit (isLow && isClose)
    | None => Num 0
    end in
  let prev :=
    if JS.isNumber (GameData.prevDist g) then GameData.prevDist g else minDistance in
  let deltaPerFrame := JS.sub prev minDistance in
  let deltaPerSecond := JS.mul deltaPerFrame FPS in
  let dDistance :=
    match closestObstacle with
    | Some _ => JS.max (Num (-1)) (JS.min (Num 1) (JS.div deltaPerSecond (Num 600)))
    | None => Num 0
    end in
  let g :=
    g |> GameData.with_prevDist
           (match closestObstacle with Some _ => minDistance | None => PosInf end) in
  (GameInputs.mk obstacleDistance obstacleHeight dinoYVelocity gameSpeed
     isOnGround timeToImpact obstaclePresent isPtero pteroRelHeight invDistance
     dDistance enhancedDuckSignal, g).

(** ** The per-agent control and fitness step of [update] *)

(** [gameData.fitness[i] += v] *)
Definition addFitness (i : nat) (v : number) (g : GameData.t) : GameData.t :=
  g |> GameData.with_fitness
         (JS.set Undefined (GameData.fitness g) i
                 (JS.add (JS.get (GameData.fitness g) i) v)).

(** [gameData.tRexes[i]] written back after the mutations of one step. *)
Definition putTRex (i : nat) (tRex : TRex.t) (g : GameData.t) : GameData.t :=
  g |> GameData.with_tRexes (JS.set tRex (GameData.tRexes g) i tRex).

(** "pterodactyl whose underside is below the duck line":
    [closest.yPos + closest.height > trex.groundYPos - HEIGHT_DUCK] *)
Definition lowPtero (tRex : TRex.t) (ob : Obstacle.t) : bool :=
  let pteroBottom := JS.add (Obstacle.yPos ob) (Obstacle.height ob) in
  let tRexDuckTop := JS.sub (TRex.groundYPos tRex) TREX_CONFIG.HEIGHT_DUCK in
  JS.gt pteroBottom tRexDuckTop.

Definition isPterodactyl (ob : Obstacle.t) : bool :=
  ObstacleType_eqb (Obstacle.type ob) PTERODACTYL.

(** The action chosen from the outputs: argmax, recomputed after the boost
    of the duck output when a low pterodactyl is closer than 80. *)
Definition selectAction (tRex : TRex.t) (globalClosest : option Obstacle.t)
    (globalMinDist : number) (outputs : list number) : nat :=
  let actionIdx := argmax outputs in
  match globalClosest with
  | Some ob =>
      if isPterodactyl ob
         && (lowPtero tRex ob && JS.lt globalMinDist (Num 80))
      then argmax (JS.set Undefined outputs 1 (JS.add (JS.get outputs 1) (Num 0.5)))
      else actionIdx
  | None => actionIdx
  end.

(** The [if / else if] chain that applies the action to the agent. *)
Definition applyAction (currentSpeed : number) (globalClosest : option Obstacle.t)
    (globalMinDist : number) (actionIdx : nat) (trex : TRex.t) : TRex.t :=
  if (actionIdx =? 0) && negb (TRex.jumping trex) && negb (TRex.ducking trex) then
    startTRexJump currentSpeed trex
  else if (actionIdx =? 1) && negb (TRex.jumping trex) then
    match globalClosest with
    | Some closestObstacle =>
        updateTRexStatus
          (trex |> TRex.with_ducking true
                |> TRex.with_duckUntilX
                     (Some (JS.add (JS.add (Obstacle.xPos closestObstacle)
                                           (Obstacle.width closestObstacle))
                                   (Num 50))))
          DUCKING
    | None => trex
    end
  else if (actionIdx =? 1) && TRex.ducking trex then
    match globalClosest with
    | Some ob =>
        if isPterodactyl ob && lowPtero trex ob then
          trex |> TRex.with_duckUntilX
                    (Some (JS.max
                             (JS.or (match TRex.duckUntilX trex with
                                     | Some x => x
                                     | None => Num 0
                                     end) (Num 0))
                             (JS.add (JS.add (Obstacle.xPos ob) (Obstacle.width ob))
                                     (Num 50))))
        else trex
    | None => trex
    end
  else if (actionIdx =? 2) && negb (TRex.jumping trex) then
    if TRex.ducking trex then
      let release :=
        updateTRexStatus
          (trex |> TRex.with_ducking false |> TRex.with_duckUntilX None)
          RUNNING in
      if match TRex.duckUntilX trex with
         | Some x => JS.truthy x && JS.gt (TRex.xPos trex) x
         | None => false
         end
      then release
      else if match globalClosest with None => true | Some _ => false end
              || JS.gt globalMinDist (Num 150)
      then release
      else trex
    else trex
  else trex.

(** The reward or penalty for the action, given the nearest obstacle;
    [None] where the code leaves the fitness alone. *)
Definition actionReward (currentSpeed : number) (trex : TRex.t)
    (closest : option Obstacle.t) (minDist : number) (actionIdx : nat)
  : option number :=
  match closest with
  | Some closest =>
      let isClose := JS.lt minDist (Num 100) in
      if isClose then
        let correctAction :=
          if isPterodactyl closest then
            if lowPtero trex closest then 1 else 0
          else
            (* closest.type.includes('CACTUS'): the two other types *)
            let timeToImpact :=
              JS.div minDist (JS.div (JS.mul currentSpeed FPS) (Num 1000)) in
            if JS.lt timeToImpact (Num 0.3) then 0 else 2 in
        if actionIdx =? correctAction then
          if (correctAction =? 1) && isPterodactyl closest
          then Some (Num 100) else Some (Num 20)
        else
          if (correctAction =? 1) && negb (actionIdx =? 1) && isPterodactyl closest
          then Some (Num (-50)) else Some (Num (-15))
      else
        if actionIdx =? 0 then Some (Num (-20))
        else if actionIdx =? 1 then Some (Num (-2))
        else None
  | None =>
      if actionIdx =? 2 then Some (Num 3)
      else if actionIdx =? 0 then Some (Num (-20))
      else if actionIdx =? 1 then Some (Num (-5))
      else None
  end.

(** The body of the loop of the pass-through bonus:
    [if (ob.remove) continue;
     if (ob.xPos + ob.width < trex.xPos && !ob.rewardedBy[trex.id])
       { fitness[i] += 30; ob.rewardedBy[trex.id] = true }];
    the obstacles already visited are collected in [visited]. *)
Definition rewardPass (i : nat) (trex : TRex.t)
    (st : list number * list Obstacle.t) (ob : Obstacle.t)
  : list number * list Obstacle.t :=
  let '(fitness, visited) := st in
  if Obstacle.remove ob then (fitness, visited ++ [ob])
  else
    let passed :=
      JS.lt (JS.add (Obstacle.xPos ob) (Obstacle.width ob)) (TRex.xPos trex) in
    if passed && negb (existsb (Nat.eqb (TRex.id trex)) (Obstacle.rewardedBy ob))
    then
      (JS.set Undefined fitness i (JS.add (JS.get fitness i) (Num 30)),
       visited ++ [ob |> Obstacle.with_rewardedBy
                           (TRex.id trex :: Obstacle.rewardedBy ob)])
    else (fitness, visited ++ [ob]).

(** The pass-through bonus: [for (const ob of gameData.obstacles) { ... }] *)
Definition passReward (i : nat) (trex : TRex.t) (g : GameData.t) : GameData.t :=
  let st :=
    fold_left (rewardPass i trex) (GameData.obstacles g) (GameData.fitness g, []) in
  g |> GameData.with_fitness (fst st) |> GameData.with_obstacles (snd st).

Section WithMath.
Context {ML : MathLib}.

(** The body of [for (let i = 0; i < gameData.tRexes.length; i++)] in
    [update].  [globalClosest] is the obstacle found before the loop; the
    loop changes none of the fields read from it. *)
Definition controlTRex (deltaTime : number) (globalClosest : option Obstacle.t)
    (globalMinDist : number) (g : GameData.t) (i : nat) : result GameData.t :=
  match nth_error (GameData.tRexes g) i with
  | None => Raise TypeError
  | Some trex =>
      if negb (TRex.alive trex) then Return g
      else
        let '(gameInputs, g) :=
          getGameInputsForNN g trex (globalClosest, globalMinDist) in
        match nth_error (GameData.networks g) i with
        | None => Raise TypeError
        | Some net =>
            ('(outputs, net) <-
               Network.predict net
                 [ GameInputs.obstacleDistance gameInputs;
                   GameInputs.obstacleHeight gameInputs;
                   GameInputs.dinoYVelocity gameInputs;
                   GameInputs.gameSpeed gameInputs;
                   GameInputs.isOnGround gameInputs;
                   GameInputs.timeToImpact gameInputs;
                   GameInputs.obstaclePresent gameInputs;
                   GameInputs.isPtero gameInputs;
                   GameInputs.pteroRelHeight gameInputs;
                   GameInputs.invDistance gameInputs;
                   GameInputs.dDistance gameInputs;
                   GameInputs.enhancedDuckSignal gameInputs ] ;;
             let g := g |> GameData.with_networks
                             (JS.set net (GameData.networks g) i net) in
             let actionIdx := selectAction trex globalClosest globalMinDist outputs in
             let trex :=
               applyAction (GameData.currentSpeed g) globalClosest globalMinDist
                 actionIdx trex in
             let g := putTRex i trex g in
             let g := addFitness i (JS.mul deltaTime (Num 0.1)) g in
             let minDist := if JS.isFinite globalMinDist then globalMinDist else PosInf in
             let g :=
               match actionReward (GameData.currentSpeed g) trex globalClosest
                       minDist actionIdx with
               | Some v => addFitness i v g
               | None => g
               end in
             let g := passReward i trex g in
             let speedBonus :=
               JS.mul (JS.div (GameData.currentSpeed g) GAME_CONFIG.MAX_SPEED) (Num 2) in
             Return (addFitness i speedBonus g))%res
        end
  end.

(** The whole loop, under its guard
    [tRexes.length > 0 && networks.length === tRexes.length]. *)
Definition controlAll (deltaTime : number) (globalClosest : option Obstacle.t)
    (globalMinDist : number) (g : GameData.t) : result GameData.t :=
  if (0 <? length (GameData.tRexes g))
     && (length (GameData.networks g) =? length (GameData.tRexes g))
  then
    Res.foldM (controlTRex deltaTime globalClosest globalMinDist)
      (seq 0 (length (GameData.tRexes g))) g
  else Return g.

End WithMath.

(** ** Obstacles *)

(** The candidate loop of [createNewObstacle]:
    [for (attempts = 0; attempts < 10 && !chosen; attempts++)] *)
Fixpoint chooseObstacle (attempts : nat) (types : list ObstacleDefinition.t)
    (currentSpeed : number) (obstacleHistory : list ObstacleType)
  : Rand (option (nat * ObstacleDefinition.t)) :=
  match attempts with
  | O => Rnd.ret None
  | S attempts' =>
      (r <- Rnd.random ;;
       let index := JS.floor (JS.mul r (JS.ofNat (length types))) in
       match JS.toIndex index, JSArray.item types index with
       | Some d, Some candidate =>
           let minSpeedOK :=
             JS.ge currentSpeed (JS.or (ObstacleDefinition.minSpeed candidate) (Num 0)) in
           let recent :=
             firstn (GAME_CONFIG.MAX_OBSTACLE_DUPLICATION - 1) obstacleHistory in
           let duplicateOK :=
             negb ((length recent =? GAME_CONFIG.MAX_OBSTACLE_DUPLICATION - 1)
                   && forallb (fun t => ObstacleType_eqb t
                                          (ObstacleDefinition.type candidate))
                              recent) in
           if minSpeedOK && duplicateOK then Rnd.ret (Some (d, candidate))
           else chooseObstacle attempts' types currentSpeed obstacleHistory
       | _, _ => Rnd.lift (Raise TypeError)
       end)%rand
  end.

(** The boxes an obstacle's [collisionBoxes] stand for: a shared box is read
    from the definitions as they are now. *)
Definition resolveBox (types : list ObstacleDefinition.t) (r : BoxRef) : Box.t :=
  match r with
  | Own b => b
  | Shared d k =>
      match nth_error types d with
      | Some def => nth k (ObstacleDefinition.collisionBoxes def) (box 0 0 0 0)
      | None => box 0 0 0 0
      end
  end.

Definition collisionBoxesOf (types : list ObstacleDefinition.t) (ob : Obstacle.t)
  : list Box.t :=
  map (resolveBox types) (Obstacle.collisionBoxes ob).

(** The stretch of the middle and right boxes of a multiple cactus.
    [obstacle.collisionBoxes] is a shallow copy of [chosen.collisionBoxes], so
    [middle] and [right] are the boxes of the definition itself: the two
    assignments write the definition [d], and the obstacle then gets copies
    of the two written boxes. *)
Definition adjustCollisionBoxes (d : nat) (size width : number)
    (def : ObstacleDefinition.t)
  : list BoxRef * ObstacleDefinition.t :=
  let boxes := ObstacleDefinition.collisionBoxes def in
  let refs := map (Shared d) (seq 0 (length boxes)) in
  if JS.gt size (Num 1) && (3 <=? length boxes) then
    match boxes with
    | leftBox :: middle :: rightBox :: others =>
        let middle :=
          middle |> Box.with_width
                      (JS.sub (JS.sub width (Box.width leftBox)) (Box.width rightBox)) in
        let rightBox := rightBox |> Box.with_x (JS.sub width (Box.width rightBox)) in
        (Shared d 0 :: Own middle :: Own rightBox :: skipn 3 refs,
         def |> ObstacleDefinition.with_collisionBoxes
                  (leftBox :: middle :: rightBox :: others))
    | _ => (refs, def)
    end
  else (refs, def).

(** [createNewObstacle(spawnX)]: the obstacle, if any, and the state with the
    history (and the written definition). *)
Definition createNewObstacle (spawnX : number) (g : GameData.t)
  : Rand (option Obstacle.t * GameData.t) :=
  (chosen <- chooseObstacle 10 (GameData.obstacleTypes g)
               (GameData.currentSpeed g) (GameData.obstacleHistory g) ;;
   match chosen with
   | None => Rnd.ret (None, g)
   | Some (d, chosen) =>
       yPos <-
         match ObstacleDefinition.yPos chosen with
         | YOneOf ys =>
             r <- Rnd.random ;;
             Rnd.ret (JSArray.at_ ys (JS.floor (JS.mul r (JS.ofNat (length ys)))))
         | YFixed y => Rnd.ret y
         end ;;
       size <- getRandomNum (Num 1) GAME_CONFIG.MAX_OBSTACLE_LENGTH ;;
       let size :=
         if JS.gt size (Num 1)
            && JS.isNumber (ObstacleDefinition.multipleSpeed chosen)
            && JS.lt (GameData.currentSpeed g) (ObstacleDefinition.multipleSpeed chosen)
         then Num 1 else size in
       let minGap :=
         JS.round
           (JS.add (JS.mul (JS.mul (ObstacleDefinition.width chosen) size)
                           (GameData.currentSpeed g))
                   (JS.mul (ObstacleDefinition.minGap chosen)
                           GAME_CONFIG.GAP_COEFFICIENT)) in
       gap <- getRandomNum minGap (JS.round (JS.mul minGap (Num 1.5))) ;;
       speedOffset <-
         (if JS.isNumber (ObstacleDefinition.speedOffset chosen) then
            r <- Rnd.random ;;
            Rnd.ret (if JS.gt r (Num 0.5)
                     then ObstacleDefinition.speedOffset chosen
                     else JS.neg (ObstacleDefinition.speedOffset chosen))
          else Rnd.ret (Num 0)) ;;
       let width := JS.mul (ObstacleDefinition.width chosen) size in
       let '(collisionBoxes, written) := adjustCollisionBoxes d size width chosen in
       let obstacle :=
         {| Obstacle.xPos := spawnX;
            Obstacle.yPos := yPos;
            Obstacle.width := width;
            Obstacle.height := ObstacleDefinition.height chosen;
            Obstacle.type := ObstacleDefinition.type chosen;
            Obstacle.remove := false;
            Obstacle.collisionBoxes := collisionBoxes;
            Obstacle.currentFrame := Num 0;
            Obstacle.timer := Num 0;
            Obstacle.numFrames := ObstacleDefinition.numFrames chosen;
            Obstacle.frameRate := ObstacleDefinition.frameRate chosen;
            Obstacle.speedOffset := speedOffset;
            Obstacle.gap := gap;
            Obstacle.followingObstacleCreated := false;
            Obstacle.size := size;
            Obstacle.rewardedBy := [] |} in
       let history := ObstacleDefinition.type chosen :: GameData.obstacleHistory g in
       let history := if 3 <? length history then firstn 3 history else history in
       Rnd.ret (Some obstacle,
                g |> GameData.with_obstacleTypes
                       (JS.set written (GameData.obstacleTypes g) d written)
                  |> GameData.with_obstacleHistory history)
   end)%rand.

(** The movement and animation of one obstacle in [updateObstacles]. *)
Definition moveObstacle (currentSpeed deltaTime : number) (obstacle : Obstacle.t)
  : Obstacle.t :=
  if negb (Obstacle.remove obstacle) then
    let effectiveSpeed := JS.add currentSpeed (JS.or (Obstacle.speedOffset obstacle) (Num 0)) in
    let obstacle :=
      obstacle |> Obstacle.with_xPos
                    (JS.sub (Obstacle.xPos obstacle)
                            (JS.floor (JS.mul (JS.div (JS.mul effectiveSpeed FPS)
                                                      (Num 1000))
                                              deltaTime))) in
    let obstacle :=
      if isPterodactyl obstacle
         && JS.truthy (Obstacle.numFrames obstacle)
         && JS.truthy (Obstacle.frameRate obstacle)
      then
        let obstacle :=
          obstacle |> Obstacle.with_timer
                        (JS.add (JS.or (Obstacle.timer obstacle) (Num 0)) deltaTime) in
        if JS.ge (Obstacle.timer obstacle) (Obstacle.frameRate obstacle) then
          obstacle |> Obstacle.with_currentFrame
                        (JS.remainder
                           (JS.add (JS.or (Obstacle.currentFrame obstacle) (Num 0)) (Num 1))
                           (JS.or (Obstacle.numFrames obstacle) (Num 1)))
                   |> Obstacle.with_timer (Num 0)
        else obstacle
      else obstacle in
    if JS.lt (JS.add (Obstacle.xPos obstacle) (Obstacle.width obstacle)) (Num 0)
    then obstacle |> Obstacle.with_remove true
    else obstacle
  else obstacle.

(** [updateObstacles(deltaTime)]; [canvas] is the width of the canvas, or
    [None] when [canvasRef.current] is null. *)
Definition updateObstacles (canvas : option number) (deltaTime : number)
    (g : GameData.t) : Rand GameData.t :=
  let move (g : GameData.t) : GameData.t :=
    let moved :=
      map (moveObstacle (GameData.currentSpeed g) deltaTime) (GameData.obstacles g) in
    g |> GameData.with_obstacles
           (filter (fun obstacle => negb (Obstacle.remove obstacle)) moved) in
  if JS.gt (GameData.runningTime g) GAME_CONFIG.CLEAR_TIME then
    match canvas with
    | None => Rnd.ret g
    | Some canvasWidth =>
        match last (map Some (GameData.obstacles g)) None with
        | None =>
            ('(newObs, g) <- createNewObstacle canvasWidth g ;;
             match newObs with
             | Some newObs =>
                 Rnd.ret (move (g |> GameData.with_obstacles
                                       (GameData.obstacles g ++ [newObs])))
             | None => Rnd.ret (move g)
             end)%rand
        | Some lastObs =>
            if negb (Obstacle.followingObstacleCreated lastObs)
               && JS.lt (JS.add (JS.add (Obstacle.xPos lastObs) (Obstacle.width lastObs))
                                (JS.or (Obstacle.gap lastObs) (Num 0)))
                        canvasWidth
            then
              ('(next, g) <- createNewObstacle canvasWidth g ;;
               match next with
               | Some next =>
                   Rnd.ret
                     (move (g |> GameData.with_obstacles
                                   (removelast (GameData.obstacles g)
                                    ++ [lastObs |> Obstacle.with_followingObstacleCreated true;
                                        next])))
               | None => Rnd.ret (move g)
               end)%rand
            else Rnd.ret (move g)
        end
    end
  else Rnd.ret (move g).

(** ** Collisions *)

(** The overlap test of two boxes, as both phases write it. *)
Definition overlap (a b : Box.t) : bool :=
  JS.lt (Box.x a) (JS.add (Box.x b) (Box.width b))
  && JS.gt (JS.add (Box.x a) (Box.width a)) (Box.x b)
  && JS.lt (Box.y a) (JS.add (Box.y b) (Box.height b))
  && JS.gt (JS.add (Box.y a) (Box.height a)) (Box.y b).

(** A sub-box moved to the position of its owner. *)
Definition adjust (xPos yPos : number) (b : Box.t) : Box.t :=
  Box.mk (JS.add xPos (Box.x b)) (JS.add yPos (Box.y b)) (Box.width b) (Box.height b).

(** The pairs of sub-boxes in the order the two nested [for] loops visit
    them. *)
Definition boxPairs (tRexBoxes obstBoxes : list Box.t) : list (Box.t * Box.t) :=
  flat_map (fun tRexBox => map (fun obstBox => (tRexBox, obstBox)) obstBoxes)
           tRexBoxes.

(** The nested loops of the fine phase: the pairs tested so far, and
    whether one of them overlapped, at which the callback returns. *)
Fixpoint finePhase (tRex : TRex.t) (obstacle : Obstacle.t)
    (pairs : list (Box.t * Box.t)) (tested : list (Box.t * Box.t))
  : list (Box.t * Box.t) * bool :=
  match pairs with
  | [] => (tested, false)
  | (tRexBox, obstBox) :: pairs' =>
      let adjTRexBox := adjust (TRex.xPos tRex) (TRex.yPos tRex) tRexBox in
      let adjObstacleBox :=
        adjust (Obstacle.xPos obstacle) (Obstacle.yPos obstacle) obstBox in
      if overlap adjTRexBox adjObstacleBox
      then (tested ++ [(tRexBox, obstBox)], true)
      else finePhase tRex obstacle pairs' (tested ++ [(tRexBox, obstBox)])
  end.

(** The callback of the [forEach] of [checkCollisions]: the agent
    afterwards, and the pairs of sub-boxes it was tested on. *)
Definition checkOneTRex (obstacle : Obstacle.t) (obstBoxes : list Box.t)
    (tRex : TRex.t) : TRex.t * list (Box.t * Box.t) :=
  if negb (TRex.alive tRex) then (tRex, [])
  else if ENABLE_NOCLIP then (tRex, [])
  else
    let tRexHeight :=
      if TRex.ducking tRex then TREX_CONFIG.HEIGHT_DUCK else TREX_CONFIG.HEIGHT in
    let tRexBox :=
      Box.mk (JS.add (TRex.xPos tRex) (Num 1)) (JS.add (TRex.yPos tRex) (Num 1))
             (JS.sub TREX_CONFIG.WIDTH (Num 2)) (JS.sub tRexHeight (Num 2)) in
    let obstacleBox :=
      Box.mk (JS.add (Obstacle.xPos obstacle) (Num 1))
             (JS.add (Obstacle.yPos obstacle) (Num 1))
             (JS.sub (Obstacle.width obstacle) (Num 2))
             (JS.sub (Obstacle.height obstacle) (Num 2)) in
    if overlap tRexBox obstacleBox then
      let tRexCollisionBoxes :=
        if TRex.ducking tRex then TREX_COLLISION_BOXES.DUCKING
        else TREX_COLLISION_BOXES.RUNNING in
      let '(tested, hit) :=
        finePhase tRex obstacle
          (boxPairs tRexCollisionBoxes obstBoxes) [] in
      if hit then (tRex |> TRex.with_alive false, tested) else (tRex, tested)
    else (tRex, []).

(** [checkCollisions()] *)
Definition checkCollisions (g : GameData.t) : GameData.t :=
  match GameData.obstacles g with
  | obstacle :: _ =>
      if negb (Obstacle.remove obstacle) then
        g |> GameData.with_tRexes
               (map (fun tRex =>
                       fst (checkOneTRex obstacle
                              (collisionBoxesOf (GameData.obstacleTypes g) obstacle)
                              tRex))
                    (GameData.tRexes g))
      else g
  | [] => g
  end.

(** ** Start, restart and the generation rollover *)

(** [handleStart()]; [stamp] is what [getTimeStamp()] returns. *)
Definition handleStart (stamp : number) (g : GameData.t) : GameData.t :=
  g |> GameData.with_playing true
    |> GameData.with_crashed false
    |> GameData.with_activated true
    |> GameData.with_time stamp
    |> GameData.with_tRexes
         (map (fun tRex => updateTRexStatus tRex RUNNING) (GameData.tRexes g)).

(** [handleRestart()] *)
Definition handleRestart (g : GameData.t) : GameData.t :=
  g |> GameData.with_playing false
    |> GameData.with_crashed false
    |> GameData.with_activated false
    |> GameData.with_runningTime (Num 0)
    |> GameData.with_distanceRan (Num 0)
    |> GameData.with_currentSpeed GAME_CONFIG.SPEED
    |> GameData.with_time (Num 0)
    |> GameData.with_obstacles []
    |> GameData.with_tRexes
         (map (fun tRex =>
                 updateTRexStatus
                   (tRex |> TRex.with_yPos (TRex.groundYPos tRex)
                         |> TRex.with_jumping false
                         |> TRex.with_ducking false
                         |> TRex.with_duckUntilX None
                         |> TRex.with_jumpVelocity (Num 0)
                         |> TRex.with_currentFrame (Num 0)
                         |> TRex.with_timer (Num 0)
                         |> TRex.with_alive true)
                   WAITING)
              (GameData.tRexes g)).

(** [.sort((a, b) => b[0] - a[0])] on the [fitness, index] pairs.  The
    sort of the language is stable; this is the insertion sort that keeps
    an element before the later ones the comparator does not put first. *)
Fixpoint insertRanked (a : number * nat) (sorted : list (number * nat))
  : list (number * nat) :=
  match sorted with
  | [] => [a]
  | b :: sorted' =>
      if JS.gt (JS.sub (fst b) (fst a)) (Num 0)
      then b :: insertRanked a sorted'
      else a :: sorted
  end.

(** [fitness.map((f, i) => [f, i]).sort(...).map(([_, i]) => i)] *)
Definition rankedIndices (fitness : list number) : list nat :=
  map snd (fold_right insertRanked [] (combine fitness (seq 0 (length fitness)))).

(** [Math.max(2, Math.floor(populationSize / 4))] *)
Definition tournamentSize (populationSize : nat) : nat :=
  Nat.max 2 (Z.to_nat (Qfloor (inject_Z (Z.of_nat populationSize) / 4))).

(** [Math.floor(populationSize * 0.1)] *)
Definition randomSurvivors (populationSize : nat) : nat :=
  Z.to_nat (Qfloor (inject_Z (Z.of_nat populationSize) * 0.1)).

(** [for (i = 0; i < randomSurvivors && nextNetworks.length < populationSize; i++)]:
    [todo] counts the iterations left before [i] reaches [randomSurvivors]. *)
Fixpoint keepSurvivors (networks : list NeuralNetwork) (bestIdx : nat)
    (shuffledIndices : list nat) (populationSize : nat) (todo i : nat)
    (nextNetworks : list NeuralNetwork) : Rand (list NeuralNetwork) :=
  match todo with
  | O => Rnd.ret nextNetworks
  | S todo' =>
      if length nextNetworks <? populationSize then
        match nth_error shuffledIndices i with
        | Some randomIdx =>
            if negb (randomIdx =? bestIdx) then
              match nth_error networks randomIdx with
              | Some net =>
                  (randomNet <- Network.clone net ;;
                   keepSurvivors networks bestIdx shuffledIndices populationSize
                     todo' (S i) (nextNetworks ++ [randomNet]))%rand
              | None => Rnd.lift (Raise TypeError)
              end
            else
              keepSurvivors networks bestIdx shuffledIndices populationSize
                todo' (S i) nextNetworks
        | None => Rnd.lift (Raise TypeError)
        end
      else Rnd.ret nextNetworks
  end.

Section WithMath.
Context {ML : MathLib}.

(** One offspring: two parents from the pool, crossover, mutation, and a
    new network that takes the weights. *)
Definition makeChild (parentsPool : list (option NeuralNetwork))
  : Rand NeuralNetwork :=
  (i1 <- randomIndex (length parentsPool) ;;
   i2 <- randomIndex (length parentsPool) ;;
   match JSArray.item parentsPool i1, JSArray.item parentsPool i2 with
   | Some (Some p1), Some (Some p2) =>
       w1 <- Rnd.lift (Network.getWeights p1) ;;
       w2 <- Rnd.lift (Network.getWeights p2) ;;
       childW <- crossoverSinglePoint w1 w2 ;;
       mutated <- mutateWeights childW (Num 0.05) (Num 0.02) ;;
       child <- Network.create DEFAULT_ARCHITECTURE ;;
       Rnd.lift (Network.setWeights child mutated)
   | _, _ => Rnd.lift (Raise TypeError)
   end)%rand.

(** [while (nextNetworks.length < populationSize) { ... push(child) }]:
    every iteration adds one network, so [populationSize] iterations are
    never all used unless the loop runs that often. *)
Fixpoint fillOffspring (parentsPool : list (option NeuralNetwork))
    (populationSize fuel : nat) (nextNetworks : list NeuralNetwork)
  : Rand (list NeuralNetwork) :=
  match fuel with
  | O => Rnd.ret nextNetworks
  | S fuel' =>
      if length nextNetworks <? populationSize then
        (child <- makeChild parentsPool ;;
         fillOffspring parentsPool populationSize fuel' (nextNetworks ++ [child]))%rand
      else Rnd.ret nextNetworks
  end.

(** [handleGenerationEnd()].  [shuffledIndices] is the order in which
    [Array.from({length: n}, (_, i) => i).sort(() => Math.random() - 0.5)]
    leaves the indices. *)
Definition handleGenerationEnd (shuffledIndices : list nat) (g : GameData.t)
  : Rand GameData.t :=
  let indices := rankedIndices (GameData.fitness g) in
  match nth_error indices 0 with
  | None => Rnd.lift (Raise TypeError)
  | Some bestIdx =>
      let bestFitness := JS.get (GameData.fitness g) bestIdx in
      match nth_error (GameData.networks g) bestIdx with
      | None => Rnd.lift (Raise TypeError)
      | Some best =>
          (bestWeights <- Rnd.lift (Network.getWeights best) ;;
           let g :=
             if JS.gt bestFitness (GameData.bestFitness g) then
               g |> GameData.with_bestFitness bestFitness
                 |> GameData.with_bestWeights (Some bestWeights)
             else g in
           let populationSize := length (GameData.networks g) in
           parentsPool <- buildParentsPool (GameData.networks g) (GameData.fitness g)
                            (tournamentSize populationSize) ;;
           elite <- Network.clone best ;;
           nextNetworks <- keepSurvivors (GameData.networks g) bestIdx
                             shuffledIndices populationSize
                             (randomSurvivors populationSize) 0 [elite] ;;
           nextNetworks <- fillOffspring parentsPool populationSize populationSize
                             nextNetworks ;;
           Rnd.ret
             (handleRestart
                (g |> GameData.with_networks nextNetworks
                   |> GameData.with_fitness (repeat (Num 0) (length nextNetworks))
                   |> GameData.with_generation (GameData.generation g + 1))))%rand
      end
  end.

(** ** One frame *)

(** The part of [update] that runs while [playing], up to and including
    the collision check. *)
Definition frame (canvas : option number) (stamp deltaTime : number)
    (g : GameData.t) : Rand GameData.t :=
  let g :=
    g |> GameData.with_runningTime (JS.add (GameData.runningTime g) deltaTime) in
  let g :=
    g |> GameData.with_distanceRan
           (JS.add (GameData.distanceRan g)
                   (JS.div (JS.mul (GameData.currentSpeed g) deltaTime)
                           (GameData.msPerFrame g))) in
  let g :=
    if JS.lt (GameData.currentSpeed g) GAME_CONFIG.MAX_SPEED then
      g |> GameData.with_currentSpeed
             (JS.add (GameData.currentSpeed g) GAME_CONFIG.ACCELERATION)
    else g in
  let '(globalClosest, globalMinDist) :=
    closestFrom (fun ob => negb (Obstacle.remove ob)) TREX_CONFIG.START_X_POS
      (GameData.obstacles g) (None, PosInf) in
  (g <- Rnd.lift (controlAll deltaTime globalClosest globalMinDist g) ;;
   let g := updateAllTRexes stamp deltaTime g in
   g <- updateObstacles canvas deltaTime g ;;
   Rnd.ret (if JS.gt (GameData.runningTime g) GAME_CONFIG.CLEAR_TIME
            then checkCollisions g else g))%rand.

(** [gameData.tRexes.filter(tRex => tRex.alive).length] *)
Definition aliveCount (g : GameData.t) : nat :=
  length (filter TRex.alive (GameData.tRexes g)).

(** [update()]: one animation frame.  [now] is the timestamp read at its
    start, [stamp] the one read at a landing. *)
Definition update (canvas : option number) (now stamp : number)
    (shuffledIndices : list nat) (g : GameData.t) : Rand GameData.t :=
  let deltaTime := JS.sub now (JS.or (GameData.time g) now) in
  let g := g |> GameData.with_time now in
  if GameData.playing g then
    (g <- frame canvas stamp deltaTime g ;;
     if aliveCount g =? 0 then
       handleGenerationEnd shuffledIndices
         (g |> GameData.with_playing false |> GameData.with_crashed true)
     else Rnd.ret g)%rand
  else Rnd.ret g.

End WithMath.

End TRexGame.

Unset Implicit Arguments.

(* ------------------------------------------------------------------------- *)
(** * Vocabulary of the statements *)

(** The class invariant of [NeuralNetwork]: the constructor builds the three
    matrices and the three bias arrays with the sizes of the architecture,
    and [setWeights] keeps them. *)
Definition shaped (m : matrix) (rows cols : nat) : bool :=
  (length m =? rows) && forallb (fun row => length row =? cols) m.

Definition wellShaped (net : NeuralNetwork) : bool :=
  let arch := architecture net in
  shaped (weightsIH1 net) (inputSize arch) (hidden1Size arch)
  && shaped (weightsH1H2 net) (hidden1Size arch) (hidden2Size arch)
  && shaped (weightsH2O net) (hidden2Size arch) (outputSize arch)
  && (length (biasH1 net) =? hidden1Size arch)
  && (length (biasH2 net) =? hidden2Size arch)
  && (length (biasO net) =? outputSize arch).

(** The outputs of a call of [predict], whatever it caches. *)
Definition outputsOf (r : result (list number * NeuralNetwork))
  : result (list number) :=
  match r with
  | Return (outputs, _) => Return outputs
  | Raise e => Raise e
  end.

(** The matrix that [rows * cols] consecutive cells of a flat vector fill,
    read from position [index] on. *)
Fixpoint chunkRows (v : list number) (index rows cols : nat) : matrix :=
  match rows with
  | O => []
  | S rows' =>
      map (JS.get v) (seq index cols) :: chunkRows v (index + cols) rows' cols
  end.

(** A draw of [Math.random()] lies in [0, 1). *)
Definition unitDraw (d : Q) : Prop := (0 <= d /\ d < 1)%Q.

(** A draw that the rejection loops of [randn] accept. *)
Definition nonZeroDraw (d : Q) : Prop := ~ (d == 0)%Q.

(** What a computation [m] that draws is known to do, on draws of [0, 1):
    it throws nothing; when it returns, its result satisfies [post] and
    what is left of the draws is a suffix of what it was given; and it does
    return when it is given at least [cost] draws none of which is zero,
    using at most [cost] of them.  (A zero draw makes [randn] draw again,
    so no number of draws is enough for every sequence.) *)
Definition runs {A : Type} (cost : nat) (post : A -> Prop) (m : Rand A) : Prop :=
  forall ds,
    Forall unitDraw ds ->
    (forall e, m ds <> Throw e)
    /\ (forall a rest,
          m ds = Ok a rest -> post a /\ exists used, ds = used ++ rest)
    /\ (Forall nonZeroDraw ds ->
        cost <= length ds ->
        exists a rest, m ds = Ok a rest /\ length ds <= length rest + cost).

(** The number of weights and biases of an architecture, as
    [getTotalWeights] counts them. *)
Definition totalWeights (arch : NetworkArchitecture) : nat :=
  inputSize arch * hidden1Size arch
  + hidden1Size arch * hidden2Size arch
  + hidden2Size arch * outputSize arch
  + (hidden1Size arch + hidden2Size arch + outputSize arch).

Definition architecture_eqb (a b : NetworkArchitecture) : bool :=
  (inputSize a =? inputSize b) && (hidden1Size a =? hidden1Size b)
  && (hidden2Size a =? hidden2Size b) && (outputSize a =? outputSize b).

(** A network of the population: built for [DEFAULT_ARCHITECTURE], as
    [initializeGame] and [handleGenerationEnd] build them. *)
Definition okNet (net : NeuralNetwork) : bool :=
  wellShaped net && architecture_eqb (architecture net) DEFAULT_ARCHITECTURE.

(** A population at the end of a generation: at least one network, one
    fitness score per network. *)
Definition popOk (g : GameData.t) : bool :=
  (0 <? length (GameData.networks g))
  && (length (GameData.fitness g) =? length (GameData.networks g))
  && forallb okNet (GameData.networks g).

(** A number that is an index below [n]. *)
Definition indexBelow (n : nat) (x : number) : Prop :=
  exists k, k < n /\ JS.toIndex x = Some k.

(** Draws that are enough for one offspring, and for a whole rollover of a
    population of [n], when no draw is zero. *)
Definition childCost : nat :=
  2 + (1 + (3 * totalWeights DEFAULT_ARCHITECTURE
            + totalWeights DEFAULT_ARCHITECTURE)).

Definition rolloverCost (n : nat) : nat :=
  n * TRexGame.tournamentSize n
  + (totalWeights DEFAULT_ARCHITECTURE
     + (TRexGame.randomSurvivors n * totalWeights DEFAULT_ARCHITECTURE
        + n * childCost)).

(** What a rollover makes of a state [g]: as many networks as before, a
    zero fitness each, the next generation number; slot 0 is a network with
    the weights of the best-ranked network of [g]; and the best-ever record
    is replaced exactly when that network's fitness exceeds it. *)
Definition rolledOver (g g' : GameData.t) : Prop :=
  length (GameData.networks g') = length (GameData.networks g)
  /\ GameData.fitness g' = repeat (Num 0) (length (GameData.networks g))
  /\ GameData.generation g' = GameData.generation g + 1
  /\ popOk g' = true
  /\ exists bestIdx best w elite others,
       nth_error (TRexGame.rankedIndices (GameData.fitness g)) 0 = Some bestIdx
       /\ nth_error (GameData.networks g) bestIdx = Some best
       /\ Network.getWeights best = Return w
       /\ GameData.networks g' = elite :: others
       /\ Network.getWeights elite = Return w
       /\ GameData.bestFitness g'
          = (if JS.gt (JS.get (GameData.fitness g) bestIdx) (GameData.bestFitness g)
             then JS.get (GameData.fitness g) bestIdx
             else GameData.bestFitness g)
       /\ GameData.bestWeights g'
          = (if JS.gt (JS.get (GameData.fitness g) bestIdx) (GameData.bestFitness g)
             then Some w
             else GameData.bestWeights g).

(** Agent [i] exists and is dead. *)
Definition deadAt (g : GameData.t) (i : nat) : Prop :=
  exists tRex, nth_error (GameData.tRexes g) i = Some tRex
               /\ TRex.alive tRex = false.

(** What happens to the component: an animation frame (with the canvas
    width, the two timestamps, the outcome of the shuffling sort and the
    draws it finds), a press of start, a press of restart. *)
Inductive event : Type :=
| Update (canvas : option number) (now stamp : number)
         (shuffledIndices : list nat) (ds : list Q)
| Start (stamp : number)
| Restart.

Definition isUpdate (e : event) : Prop :=
  match e with Update _ _ _ _ _ => True | _ => False end.

Section Events.
Context {ML : MathLib}.

(** One event takes [g] to [g']. *)
Inductive happens : event -> GameData.t -> GameData.t -> Prop :=
| happens_update canvas now stamp shuffledIndices ds rest g g' :
    Permutation shuffledIndices (seq 0 (length (GameData.networks g))) ->
    Forall unitDraw ds ->
    TRexGame.update canvas now stamp shuffledIndices g ds = Ok g' rest ->
    happens (Update canvas now stamp shuffledIndices ds) g g'
| happens_start stamp g :
    happens (Start stamp) g (TRexGame.handleStart stamp g)
| happens_restart g :
    happens Restart g (TRexGame.handleRestart g).

(** A sequence of events takes [g] to [g']. *)
Inductive plays : list event -> GameData.t -> GameData.t -> Prop :=
| plays_nil g : plays [] g g
| plays_cons e es g g1 g' :
    happens e g g1 -> plays es g1 g' -> plays (e :: es) g g'.

End Events.

(** A stand-in for the runtime's transcendental functions, to run examples;
    the theorems hold for every [MathLib]. *)
Definition exampleMath : MathLib :=
  {| Math_exp := fun x => Qred (1 + x * x)%Q;
     Math_log := fun x => (x - 1)%Q;
     Math_sqrt := fun x => x;
     Math_cos := fun x => 1%Q;
     Math_PI := (355 # 113)%Q |}.

(** A small network: 2 inputs, 2 and 1 hidden neurons, 1 output. *)
Definition tinyNetwork : NeuralNetwork :=
  {| architecture :=
       {| inputSize := 2; hidden1Size := 2; hidden2Size := 1; outputSize := 1 |};
     weightsIH1 := [[Num 0.5; Num (-1)]; [Num 0.25; Num 1]];
     weightsH1H2 := [[Num 1]; [Num (-0.5)]];
     weightsH2O := [[Num 2]];
     biasH1 := [Num 0; Num 0.1];
     biasH2 := [Num (-0.3)];
     biasO := [Num 0.7];
     lastInputs := []; lastHidden1 := []; lastHidden2 := []; lastOutputs := [] |}.

(** The cut point that [crossoverSinglePoint] computes from a draw [d] for
    parents whose shorter length is [len]. *)
Definition cutPoint (d : Q) (len : nat) : nat :=
  Z.to_nat (1 + Qfloor (d * inject_Z (Z.of_nat len - 1))).

(** An entry of the parent pool is one of the networks. *)
Definition poolEntry (networks : list NeuralNetwork) (e : option NeuralNetwork)
  : Prop :=
  exists net, e = Some net /\ In net networks.

(** [f'] is [f] but for cell [j]. *)
Definition onlyAt (j : nat) (f f' : list number) : Prop :=
  (forall i, i <> j -> JS.get f' i = JS.get f i)
  /\ (j < length f -> length f' = length f).

(** What the steps of a frame before the rollover keep of a state: the
    best-ever record and the generation number; the number of networks and
    the shape of the population; and, of an agent that is dead, the fact
    and its fitness. *)
Definition frameKeeps (g g' : GameData.t) : Prop :=
  GameData.bestFitness g' = GameData.bestFitness g
  /\ GameData.bestWeights g' = GameData.bestWeights g
  /\ GameData.generation g' = GameData.generation g
  /\ length (GameData.networks g') = length (GameData.networks g)
  /\ (popOk g = true -> popOk g' = true)
  /\ (forall i, deadAt g i ->
                deadAt g' i
                /\ JS.get (GameData.fitness g') i = JS.get (GameData.fitness g) i).

(** What a piece of the control step of agent [j] keeps: the records, the
    networks up to their caches, the other agents, the other fitnesses. *)
Definition actsOn (j : nat) (g g' : GameData.t) : Prop :=
  GameData.bestFitness g' = GameData.bestFitness g
  /\ GameData.bestWeights g' = GameData.bestWeights g
  /\ GameData.generation g' = GameData.generation g
  /\ map okNet (GameData.networks g') = map okNet (GameData.networks g)
  /\ (forall i, i <> j ->
                nth_error (GameData.tRexes g') i = nth_error (GameData.tRexes g) i)
  /\ onlyAt j (GameData.fitness g) (GameData.fitness g').

(** The fields that the obstacle code does not write. *)
Definition sameCore (g g' : GameData.t) : Prop :=
  GameData.tRexes g' = GameData.tRexes g
  /\ GameData.networks g' = GameData.networks g
  /\ GameData.fitness g' = GameData.fitness g
  /\ GameData.generation g' = GameData.generation g
  /\ GameData.bestFitness g' = GameData.bestFitness g
  /\ GameData.bestWeights g' = GameData.bestWeights g.

(** What is left of the draws is a suffix of what was given. *)
Definition consumes {A : Type} (m : Rand A) : Prop :=
  forall ds a rest, m ds = Ok a rest -> exists used, ds = used ++ rest.

(** The best-ever record is as it was, or its fitness is greater. *)
Definition recordKeptOrRaised (g g' : GameData.t) : Prop :=
  (GameData.bestFitness g' = GameData.bestFitness g
   /\ GameData.bestWeights g' = GameData.bestWeights g)
  \/ JS.gt (GameData.bestFitness g') (GameData.bestFitness g) = true.

(** A network of the default architecture whose weights and biases all
    have the value [w]. *)
Definition constantNetwork (w : number) : NeuralNetwork :=
  {| architecture := DEFAULT_ARCHITECTURE;
     weightsIH1 := repeat (repeat w 8) 12;
     weightsH1H2 := repeat (repeat w 6) 8;
     weightsH2O := repeat (repeat w 3) 6;
     biasH1 := repeat w 8;
     biasH2 := repeat w 6;
     biasO := repeat w 3;
     lastInputs := []; lastHidden1 := []; lastHidden2 := []; lastOutputs := [] |}.

(** An agent running on the ground at the start position. *)
Definition exampleTRex (id : nat) (alive : bool) : TRex.t :=
  {| TRex.id := id;
     TRex.xPos := Config.TREX_CONFIG.START_X_POS;
     TRex.yPos := Num 93;
     TRex.groundYPos := Num 93;
     TRex.minJumpHeight := Num 63;
     TRex.jumping := false;
     TRex.ducking := false;
     TRex.jumpVelocity := Num 0;
     TRex.reachedMinHeight := false;
     TRex.speedDrop := false;
     TRex.currentFrame := Num 0;
     TRex.timer := Num 0;
     TRex.msPerFrame := snd (Config.TREX_ANIM_FRAMES RUNNING);
     TRex.currentAnimFrames := fst (Config.TREX_ANIM_FRAMES RUNNING);
     TRex.status := RUNNING;
     TRex.alive := alive;
     TRex.lastLandTime := Num 0;
     TRex.duckUntilX := None |}.

(** A game of two agents in play, with no obstacle on the screen, at time
    [1000]; [alive0] and [alive1] say which of the agents live. *)
Definition exampleGame (alive0 alive1 : bool) : GameData.t :=
  {| GameData.time := Num 1000;
     GameData.runningTime := Num 0;
     GameData.currentSpeed := Config.GAME_CONFIG.SPEED;
     GameData.distanceRan := Num 0;
     GameData.msPerFrame := Num (1000 # 60);
     GameData.playing := true;
     GameData.crashed := false;
     GameData.activated := true;
     GameData.tRexes := [exampleTRex 0 alive0; exampleTRex 1 alive1];
     GameData.networks := [constantNetwork (Num 0); constantNetwork (Num (1 # 2))];
     GameData.fitness := [Num 0; Num 1];
     GameData.generation := 0;
     GameData.bestFitness := Num 0;
     GameData.bestWeights := None;
     GameData.obstacles := [];
     GameData.obstacleHistory := [];
     GameData.obstacleTypes := Config.OBSTACLE_TYPES;
     GameData.prevDist := Undefined |}.

(** Draws that are all one half. *)
Definition halves (n : nat) : list Q := repeat (1 # 2)%Q n.

(** The frame at time [1016] on a canvas of width [600]. *)
Definition exampleFrame (n : nat) : event :=
  Update (Some (Num 600)) (Num 1016) (Num 1016) [0; 1] (halves n).

(** The state after a computation, or [g] when it does not return. *)
Definition resultOr {A : Type} (g : A) (o : outcome A) : A :=
  match o with Ok a _ => a | _ => g end.

(** The state after one frame of the game whose agent 1 is dead. *)
Definition afterFrame : GameData.t :=
  resultOr (exampleGame true false)
    (@TRexGame.update exampleMath (Some (Num 600)) (Num 1016) (Num 1016) [0; 1]
       (exampleGame true false) (halves 4)).

(** The state after one frame of the game whose agents are both dead: the
    frame ends the generation. *)
Definition afterRollover : GameData.t :=
  resultOr (exampleGame false false)
    (@TRexGame.update exampleMath (Some (Num 600)) (Num 1016) (Num 1016) [0; 1]
       (exampleGame false false) (halves 600)).

(** The test of the fine phase on one pair of sub-boxes. *)
Definition overlapsAt (tRex : TRex.t) (obstacle : Obstacle.t)
    (p : Box.t * Box.t) : bool :=
  TRexGame.overlap
    (TRexGame.adjust (TRex.xPos tRex) (TRex.yPos tRex) (fst p))
    (TRexGame.adjust (Obstacle.xPos obstacle) (Obstacle.yPos obstacle) (snd p)).

(** A small cactus, alone, with its left edge [dx] to the right of the
    start position of the agents. *)
Definition exampleCactus (dx : Q) : Obstacle.t :=
  {| Obstacle.xPos := JS.add Config.TREX_CONFIG.START_X_POS (Num dx);
     Obstacle.yPos := Num 105;
     Obstacle.width := Num 17;
     Obstacle.height := Num 35;
     Obstacle.type := CACTUS_SMALL;
     Obstacle.remove := false;
     Obstacle.collisionBoxes := [Shared 0 0; Shared 0 1; Shared 0 2];
     Obstacle.currentFrame := Num 0;
     Obstacle.timer := Num 0;
     Obstacle.numFrames := Undefined;
     Obstacle.frameRate := Undefined;
     Obstacle.speedOffset := Num 0;
     Obstacle.gap := Num 200;
     Obstacle.followingObstacleCreated := false;
     Obstacle.size := Num 1;
     Obstacle.rewardedBy := [] |}.

(** The example game with that cactus on the screen. *)
Definition cactusGame (dx : Q) : GameData.t :=
  GameData.with_obstacles [exampleCactus dx] (exampleGame true true).

(** Feature 11 for a previous and a current distance:
    [max(-1, min(1, (prev - distance) * FPS / 600))]. *)
Definition deltaFeature (prev distance : number) : number :=
  JS.max (Num (-1))
    (JS.min (Num 1)
       (JS.div (JS.mul (JS.sub prev distance) Config.FPS) (Num 600))).

(** Feature 11 as the network of agent [i] was last given it. *)
Definition lastDDistance (g : GameData.t) (i : nat) : number :=
  match nth_error (GameData.networks g) i with
  | Some net => JS.get (lastInputs net) 10
  | None => Undefined
  end.

(** The state two frames later, 16 ms apart, or [g] when a frame does
    not return. *)
Definition afterTwoFrames (g : GameData.t) : GameData.t :=
  match @TRexGame.update exampleMath (Some (Num 600)) (Num 1016) (Num 1016)
          [0; 1] g (halves 4) with
  | Ok g1 rest =>
      resultOr g
        (@TRexGame.update exampleMath (Some (Num 600)) (Num 1032) (Num 1032)
           [0; 1] g1 rest)
  | _ => g
  end.

(** An agent whose status is not [CRASHED], and a state with such agents
    only. *)
Definition notCrashed (tRex : TRex.t) : Prop := TRex.status tRex <> CRASHED.

Definition noneCrashed (g : GameData.t) : Prop :=
  Forall notCrashed (GameData.tRexes g).

(* ------------------------------------------------------------------------- *)
(** * Arrays *)

Lemma set_app_here {A : Type} (hole : A) (pre post : list A) (x v : A) :
  JS.set hole (pre ++ x :: post) (length pre) v = pre ++ v :: post.
Proof.
  induction pre as [|p pre IH]; simpl; [reflexivity|].
  now rewrite IH.
Qed.

Lemma set_same {A : Type} (hole : A) (a : list A) (i : nat) (x : A) :
  nth_error a i = Some x -> JS.set hole a i x = a.
Proof.
  revert i; induction a as [|y a IH]; intros [|i] H; simpl in *; try discriminate.
  - now inversion H.
  - now rewrite IH.
Qed.

Lemma set_set {A : Type} (hole : A) (a : list A) (i : nat) (x y : A) :
  JS.set hole (JS.set hole a i x) i y = JS.set hole a i y.
Proof.
  revert a; induction i as [|i IH]; intros [|z a]; simpl; auto.
  - now rewrite IH.
  - now rewrite IH.
Qed.

Lemma set_length_in {A : Type} (hole : A) (a : list A) (i : nat) (v : A) :
  i < length a -> length (JS.set hole a i v) = length a.
Proof.
  revert i; induction a as [|x a IH]; intros [|i] H; simpl in *; try lia.
  rewrite IH; lia.
Qed.

Lemma set_nth_error_same {A : Type} (hole : A) (a : list A) (i : nat) (v : A) :
  nth_error (JS.set hole a i v) i = Some v.
Proof.
  revert a; induction i as [|i IH]; intros [|x a]; simpl; auto.
Qed.

Lemma set_nth_error_other {A : Type} (hole : A) (a : list A) (i j : nat) (v : A) :
  i < length a -> i <> j -> nth_error (JS.set hole a i v) j = nth_error a j.
Proof.
  revert i j; induction a as [|x a IH]; intros [|i] [|j] Hlt Hne;
    simpl in *; try lia; auto.
  apply IH; lia.
Qed.

Lemma get_set_other (a : list number) (i j : nat) (v : number) :
  i <> j -> JS.get (JS.set Undefined a i v) j = JS.get a j.
Proof.
  unfold JS.get. revert a j; induction i as [|i IH]; intros [|x a] [|j] Hne;
    simpl; try lia; auto.
  all: try (now destruct j).
  all: try (rewrite IH by lia; now destruct j).
  all: try (apply IH; lia).
Qed.

Lemma get_middle (pre post : list number) (x : number) :
  JS.get (pre ++ x :: post) (length pre) = x.
Proof. unfold JS.get. apply nth_middle. Qed.

Lemma map_get_mid (mid pre post : list number) :
  map (JS.get (pre ++ mid ++ post)) (seq (length pre) (length mid)) = mid.
Proof.
  revert pre; induction mid as [|x mid IH]; intros pre; simpl; [reflexivity|].
  rewrite get_middle. f_equal.
  specialize (IH (pre ++ [x])).
  rewrite <- app_assoc, length_app, Nat.add_1_r in IH. exact IH.
Qed.

Lemma map_get_all (v : list number) :
  map (JS.get v) (seq 0 (length v)) = v.
Proof.
  pose proof (map_get_mid v [] []) as H. simpl in H.
  now rewrite app_nil_r in H.
Qed.

(* ------------------------------------------------------------------------- *)
(** * The loops of the result monad *)

Lemma foldM_app {A S : Type} (body : S -> A -> result S) (xs ys : list A) (s : S) :
  Res.foldM body (xs ++ ys) s = Res.bind (Res.foldM body xs s) (Res.foldM body ys).
Proof.
  revert s; induction xs as [|x xs IH]; intros s; simpl; [reflexivity|].
  destruct (body s x); simpl; auto.
Qed.

Lemma mapM_total {A B : Type} (f : A -> result B) (xs : list A) :
  (forall x, In x xs -> exists y, f x = Return y) ->
  exists ys, Res.mapM f xs = Return ys /\ length ys = length xs.
Proof.
  induction xs as [|x xs IH]; intros H; simpl.
  - now exists [].
  - destruct (H x (or_introl Logic.eq_refl)) as [y Hy].
    destruct IH as [ys [Hys Hlen]]; [intros; apply H; now right|].
    exists (y :: ys). rewrite Hy, Hys; simpl. now rewrite Hlen.
Qed.

(* ------------------------------------------------------------------------- *)
(** * Flattening and filling the matrices *)

Lemma shaped_spec (m : matrix) (rows cols : nat) :
  shaped m rows cols = true <->
  length m = rows /\ Forall (fun row => length row = cols) m.
Proof.
  unfold shaped. rewrite andb_true_iff, Nat.eqb_eq, forallb_forall, Forall_forall.
  split; intros [H1 H2]; split; auto; intros row Hin.
  - now apply Nat.eqb_eq, H2.
  - now apply Nat.eqb_eq, H2.
Qed.

Lemma pushCell_step (m : matrix) (i j : nat) (row weights : list number) :
  nth_error m i = Some row ->
  Network.pushCell m i weights j = Return (weights ++ [JS.get row j]).
Proof. intros H. unfold Network.pushCell, Network.cell. now rewrite H. Qed.

Lemma fillCell_step (v : list number) (m : matrix) (i j index : nat)
    (row : list number) :
  nth_error m i = Some row ->
  Network.fillCell v i (m, index) j
  = Return (JS.set [] m i (JS.set Undefined row j (JS.get v index)), S index).
Proof. intros H. unfold Network.fillCell, Network.setCell. now rewrite H. Qed.

Lemma flattenRow_spec (m : matrix) (i : nat) (rest done acc : list number) :
  nth_error m i = Some (done ++ rest) ->
  Res.foldM (Network.pushCell m i) (seq (length done) (length rest)) acc
  = Return (acc ++ rest).
Proof.
  revert done acc; induction rest as [|x rest IH]; intros done acc H;
    cbn [length seq Res.foldM].
  - now rewrite app_nil_r.
  - rewrite pushCell_step with (row := done ++ x :: rest) by assumption.
    cbn [Res.bind]. rewrite get_middle.
    specialize (IH (done ++ [x]) (acc ++ [x])).
    rewrite length_app, Nat.add_1_r, <- !app_assoc in IH. simpl in IH.
    now apply IH.
Qed.

Lemma flattenRows_spec (m : matrix) (cols : nat) (rest done : matrix)
    (acc : list number) :
  m = done ++ rest ->
  Forall (fun row => length row = cols) rest ->
  Res.foldM
    (fun weights i => Res.foldM (Network.pushCell m i) (seq 0 cols) weights)
    (seq (length done) (length rest)) acc
  = Return (acc ++ concat rest).
Proof.
  revert done acc; induction rest as [|row rest IH]; intros done acc Hm Hall; simpl.
  - now rewrite app_nil_r.
  - inversion Hall as [|? ? Hrow Hrest]; subst.
    pose proof (@flattenRow_spec (done ++ row :: rest) (length done) row [] acc) as Hr.
    simpl in Hr. rewrite Hr by (rewrite nth_error_app2, Nat.sub_diag by lia; reflexivity).
    simpl.
    specialize (IH (done ++ [row]) (acc ++ row)).
    rewrite length_app, Nat.add_1_r, <- !app_assoc in IH. simpl in IH.
    now apply IH.
Qed.

Lemma flattenMatrix_spec (m : matrix) (rows cols : nat) (acc : list number) :
  shaped m rows cols = true ->
  Network.flattenMatrix m rows cols acc = Return (acc ++ concat m).
Proof.
  intros H. apply shaped_spec in H as [Hlen Hall]. subst rows.
  unfold Network.flattenMatrix.
  now apply flattenRows_spec with (done := []) (rest := m).
Qed.

Lemma fillRow_spec (v : list number) (i : nat) (rest done : list number)
    (m : matrix) (index : nat) :
  nth_error m i = Some (done ++ rest) ->
  Res.foldM (Network.fillCell v i) (seq (length done) (length rest)) (m, index)
  = Return (JS.set [] m i (done ++ map (JS.get v) (seq index (length rest))),
            index + length rest).
Proof.
  revert done m index; induction rest as [|x rest IH]; intros done m index H;
    cbn [length seq Res.foldM map].
  - rewrite Nat.add_0_r, app_nil_r. f_equal. f_equal. symmetry.
    apply set_same. now rewrite app_nil_r in H.
  - rewrite fillCell_step with (row := done ++ x :: rest) by assumption.
    cbn [Res.bind].
    rewrite set_app_here.
    specialize (IH (done ++ [JS.get v index])
                   (JS.set [] m i (done ++ JS.get v index :: rest)) (S index)).
    rewrite length_app, Nat.add_1_r, <- !app_assoc in IH. simpl in IH.
    rewrite IH by apply set_nth_error_same.
    rewrite set_set. do 2 f_equal. lia.
Qed.

Lemma fillRows_spec (v : list number) (cols : nat) (rest done : matrix)
    (index : nat) :
  Forall (fun row => length row = cols) rest ->
  Res.foldM (fun st i => Res.foldM (Network.fillCell v i) (seq 0 cols) st)
    (seq (length done) (length rest)) (done ++ rest, index)
  = Return (done ++ chunkRows v index (length rest) cols,
            index + length rest * cols).
Proof.
  revert done index; induction rest as [|row rest IH]; intros done index Hall; simpl.
  - now rewrite Nat.add_0_r.
  - inversion Hall as [|? ? Hrow Hrest]; subst.
    pose proof (@fillRow_spec v (length done) row [] (done ++ row :: rest) index) as Hr.
    simpl in Hr. rewrite Hr by (rewrite nth_error_app2, Nat.sub_diag by lia; reflexivity).
    simpl. rewrite set_app_here.
    specialize (IH (done ++ [map (JS.get v) (seq index (length row))])
                   (index + length row)).
    rewrite length_app, Nat.add_1_r, <- !app_assoc in IH. simpl in IH.
    rewrite IH by assumption. do 2 f_equal. lia.
Qed.

Lemma fillMatrix_spec (v : list number) (m : matrix) (rows cols index : nat) :
  shaped m rows cols = true ->
  Network.fillMatrix v rows cols (m, index)
  = Return (chunkRows v index rows cols, index + rows * cols).
Proof.
  intros H. apply shaped_spec in H as [Hlen Hall]. subst rows.
  unfold Network.fillMatrix.
  now apply fillRows_spec with (done := []) (rest := m).
Qed.

Lemma fillBias_steps (v : list number) (rest done : list number) (index : nat) :
  fold_left (Network.fillBiasCell v)
    (seq (length done) (length rest)) (done ++ rest, index)
  = (done ++ map (JS.get v) (seq index (length rest)), index + length rest).
Proof.
  revert done index; induction rest as [|x rest IH]; intros done index; simpl.
  - now rewrite Nat.add_0_r.
  - rewrite set_app_here.
    specialize (IH (done ++ [JS.get v index]) (S index)).
    rewrite length_app, Nat.add_1_r, <- !app_assoc in IH. simpl in IH.
    rewrite IH. f_equal. lia.
Qed.

Lemma fillBias_spec (v : list number) (b : list number) (n index : nat) :
  length b = n ->
  Network.fillBias v n (b, index) = (map (JS.get v) (seq index n), index + n).
Proof.
  intros <-. unfold Network.fillBias. apply fillBias_steps with (done := []) (rest := b).
Qed.

Lemma chunkRows_shaped (v : list number) (index rows cols : nat) :
  shaped (chunkRows v index rows cols) rows cols = true.
Proof.
  apply shaped_spec. revert index; induction rows as [|rows IH]; intros index; simpl.
  - split; [reflexivity|constructor].
  - destruct (IH (index + cols)) as [Hl Hf]. split; [now rewrite Hl|].
    constructor; [now rewrite length_map, length_seq|assumption].
Qed.

Lemma chunkRows_concat (v : list number) (index rows cols : nat) :
  concat (chunkRows v index rows cols) = map (JS.get v) (seq index (rows * cols)).
Proof.
  revert index; induction rows as [|rows IH]; intros index; simpl; [reflexivity|].
  now rewrite IH, seq_app, map_app.
Qed.

Lemma chunkRows_of_concat (m : matrix) (pre post : list number) (rows cols : nat) :
  shaped m rows cols = true ->
  chunkRows (pre ++ concat m ++ post) (length pre) rows cols = m.
Proof.
  intros H. apply shaped_spec in H as [Hlen Hall]. subst rows.
  revert pre; induction Hall as [|row m Hrow Hall IH]; intros pre; simpl;
    [reflexivity|].
  rewrite <- app_assoc. subst cols. rewrite map_get_mid. f_equal.
  specialize (IH (pre ++ row)).
  now rewrite length_app, <- app_assoc in IH.
Qed.

(* ------------------------------------------------------------------------- *)
(** * [getWeights], [setWeights] and [predict] on a well-shaped network *)

Lemma wellShaped_spec (net : NeuralNetwork) :
  wellShaped net = true <->
  let arch := architecture net in
  shaped (weightsIH1 net) (inputSize arch) (hidden1Size arch) = true
  /\ shaped (weightsH1H2 net) (hidden1Size arch) (hidden2Size arch) = true
  /\ shaped (weightsH2O net) (hidden2Size arch) (outputSize arch) = true
  /\ length (biasH1 net) = hidden1Size arch
  /\ length (biasH2 net) = hidden2Size arch
  /\ length (biasO net) = outputSize arch.
Proof.
  unfold wellShaped. cbv zeta.
  rewrite !andb_true_iff, !Nat.eqb_eq. tauto.
Qed.

Lemma getWeights_spec (net : NeuralNetwork) :
  wellShaped net = true ->
  Network.getWeights net
  = Return (concat (weightsIH1 net) ++ concat (weightsH1H2 net)
            ++ concat (weightsH2O net)
            ++ biasH1 net ++ biasH2 net ++ biasO net).
Proof.
  intros H. apply wellShaped_spec in H as (H1 & H2 & H3 & _).
  unfold Network.getWeights.
  rewrite (flattenMatrix_spec _ _ _ _ H1). cbn [Res.bind].
  rewrite (flattenMatrix_spec _ _ _ _ H2). cbn [Res.bind].
  rewrite (flattenMatrix_spec _ _ _ _ H3). cbn [Res.bind].
  now rewrite <- !app_assoc.
Qed.

Lemma getWeights_length (net : NeuralNetwork) (w : list number) :
  wellShaped net = true ->
  Network.getWeights net = Return w ->
  length w = Network.getTotalWeights net.
Proof.
  intros H Hw. rewrite (getWeights_spec _ H) in Hw. inversion Hw; subst w.
  apply wellShaped_spec in H as (H1 & H2 & H3 & B1 & B2 & B3).
  assert (Hc : forall (m : matrix) rows cols,
             shaped m rows cols = true -> length (concat m) = rows * cols).
  { intros m rows cols Hs. apply shaped_spec in Hs as [Hl Hall]. subst rows.
    induction Hall as [|row m Hrow Hall IH]; simpl; [reflexivity|].
    rewrite length_app, IH. lia. }
  rewrite !length_app, (Hc _ _ _ H1), (Hc _ _ _ H2), (Hc _ _ _ H3), B1, B2, B3.
  unfold Network.getTotalWeights. lia.
Qed.

Lemma setWeights_spec (net : NeuralNetwork) (v : list number) :
  wellShaped net = true ->
  let arch := architecture net in
  let i1 := inputSize arch * hidden1Size arch in
  let i2 := i1 + hidden1Size arch * hidden2Size arch in
  let i3 := i2 + hidden2Size arch * outputSize arch in
  let i4 := i3 + hidden1Size arch in
  let i5 := i4 + hidden2Size arch in
  Network.setWeights net v
  = Return
      {| architecture := arch;
         weightsIH1 := chunkRows v 0 (inputSize arch) (hidden1Size arch);
         weightsH1H2 := chunkRows v i1 (hidden1Size arch) (hidden2Size arch);
         weightsH2O := chunkRows v i2 (hidden2Size arch) (outputSize arch);
         biasH1 := map (JS.get v) (seq i3 (hidden1Size arch));
         biasH2 := map (JS.get v) (seq i4 (hidden2Size arch));
         biasO := map (JS.get v) (seq i5 (outputSize arch));
         lastInputs := lastInputs net; lastHidden1 := lastHidden1 net;
         lastHidden2 := lastHidden2 net; lastOutputs := lastOutputs net |}.
Proof.
  intros H. apply wellShaped_spec in H as (H1 & H2 & H3 & B1 & B2 & B3).
  cbv zeta. unfold Network.setWeights.
  rewrite (fillMatrix_spec v _ _ _ _ H1). cbn [Res.bind].
  rewrite (fillMatrix_spec v _ _ _ _ H2). cbn [Res.bind].
  rewrite (fillMatrix_spec v _ _ _ _ H3). cbn [Res.bind].
  rewrite (fillBias_spec v _ _ _ B1), (fillBias_spec v _ _ _ B2),
    (fillBias_spec v _ _ _ B3).
  reflexivity.
Qed.

Lemma setWeights_wellShaped (net net' : NeuralNetwork) (v : list number) :
  wellShaped net = true ->
  Network.setWeights net v = Return net' ->
  wellShaped net' = true /\ architecture net' = architecture net.
Proof.
  intros H Hs. rewrite (setWeights_spec net v H) in Hs. inversion Hs; subst net'.
  split; [|reflexivity].
  apply wellShaped_spec. cbn.
  rewrite !chunkRows_shaped, !length_map, !length_seq. tauto.
Qed.

(** Unflattening a vector of the right length and flattening it again. *)
Lemma getWeights_setWeights (net : NeuralNetwork) (v : list number) :
  wellShaped net = true ->
  length v = Network.getTotalWeights net ->
  exists net', Network.setWeights net v = Return net'
               /\ Network.getWeights net' = Return v.
Proof.
  intros H Hlen. eexists. split; [apply (setWeights_spec net v H)|].
  rewrite getWeights_spec.
  2:{ apply wellShaped_spec. cbn.
      rewrite !chunkRows_shaped, !length_map, !length_seq. tauto. }
  cbn. rewrite !chunkRows_concat, <- !map_app, <- !seq_app.
  f_equal. etransitivity; [|apply (map_get_all v)]. f_equal. f_equal.
  rewrite Hlen. unfold Network.getTotalWeights. lia.
Qed.

(** Flattening a network and unflattening the vector into it. *)
Lemma setWeights_getWeights (net : NeuralNetwork) :
  wellShaped net = true ->
  exists w, Network.getWeights net = Return w
            /\ Network.setWeights net w = Return net.
Proof.
  intros H. eexists. split; [apply (getWeights_spec _ H)|].
  rewrite (setWeights_spec net _ H). cbv zeta.
  apply wellShaped_spec in H as (H1 & H2 & H3 & B1 & B2 & B3).
  assert (Hc : forall (m : matrix) rows cols,
             shaped m rows cols = true -> length (concat m) = rows * cols).
  { intros m rows cols Hs. apply shaped_spec in Hs as [Hl Hall]. subst rows.
    induction Hall as [|row m Hrow Hall IH]; simpl; [reflexivity|].
    rewrite length_app, IH. lia. }
  destruct net as [arch m1 m2 m3 b1 b2 b3 c1 c2 c3 c4]; cbn in *.
  pose proof (Hc _ _ _ H1) as L1. pose proof (Hc _ _ _ H2) as L2.
  pose proof (Hc _ _ _ H3) as L3.
  f_equal. f_equal.
  - exact (chunkRows_of_concat m1 [] _ _ _ H1).
  - pose proof (chunkRows_of_concat m2 (concat m1) (concat m3 ++ b1 ++ b2 ++ b3)
                  _ _ H2) as E.
    now rewrite L1 in E.
  - pose proof (chunkRows_of_concat m3 (concat m1 ++ concat m2) (b1 ++ b2 ++ b3)
                  _ _ H3) as E.
    now rewrite length_app, L1, L2, <- app_assoc in E.
  - pose proof (map_get_mid b1 (concat m1 ++ concat m2 ++ concat m3) (b2 ++ b3)) as E.
    now rewrite !length_app, L1, L2, L3, B1, <- !app_assoc, !Nat.add_assoc in E.
  - pose proof (map_get_mid b2 (concat m1 ++ concat m2 ++ concat m3 ++ b1) b3) as E.
    now rewrite !length_app, L1, L2, L3, B1, B2, <- !app_assoc, !Nat.add_assoc in E.
  - pose proof (map_get_mid b3 (concat m1 ++ concat m2 ++ concat m3 ++ b1 ++ b2) [])
      as E.
    now rewrite !length_app, L1, L2, L3, B1, B2, B3, <- !app_assoc, !Nat.add_assoc,
      app_nil_r in E.
Qed.

Section PredictProofs.
Context {ML : MathLib}.

Lemma accumulate_total (inputs : list number) (w : matrix) (j n k : nat)
    (s : number) :
  k + n <= length w ->
  exists s', Res.foldM (Network.accumulate inputs w j) (seq k n) s = Return s'.
Proof.
  revert k s; induction n as [|n IH]; intros k s Hle; cbn [seq Res.foldM].
  - now exists s.
  - unfold Network.accumulate at 1, Network.cell.
    destruct (nth_error w k) as [row|] eqn:E.
    + cbn [Res.bind]. apply IH. lia.
    + apply nth_error_None in E. lia.
Qed.

Lemma layer_total (inputs : list number) (w : matrix) (bias : list number)
    (inSize outSize : nat) :
  inSize <= length w ->
  exists out, Network.layer inputs w bias inSize outSize = Return out
              /\ length out = outSize.
Proof.
  intros Hle. unfold Network.layer.
  destruct (mapM_total (Network.neuron inputs w bias inSize) (seq 0 outSize))
    as [out [Hout Hlen]].
  - intros j _. unfold Network.neuron.
    destruct (accumulate_total inputs w j inSize 0 (JS.get bias j) Hle) as [s Hs].
    rewrite Hs. cbn [Res.bind]. eauto.
  - exists out. now rewrite Hlen, length_seq in *.
Qed.

(** On a well-shaped network and an input of the right length the forward
    pass runs through, and what it returns is the network with the four
    caches written. *)
Lemma predict_total (net : NeuralNetwork) (inputs : list number) :
  wellShaped net = true ->
  length inputs = inputSize (architecture net) ->
  exists hidden1 hidden2 outputs,
    Network.predict net inputs
    = Return (outputs,
              {| architecture := architecture net;
                 weightsIH1 := weightsIH1 net;
                 weightsH1H2 := weightsH1H2 net;
                 weightsH2O := weightsH2O net;
                 biasH1 := biasH1 net; biasH2 := biasH2 net; biasO := biasO net;
                 lastInputs := inputs; lastHidden1 := hidden1;
                 lastHidden2 := hidden2; lastOutputs := outputs |})
    /\ length outputs = outputSize (architecture net).
Proof.
  intros H Hlen. apply wellShaped_spec in H as (H1 & H2 & H3 & _).
  apply shaped_spec in H1 as [L1 _], H2 as [L2 _], H3 as [L3 _].
  unfold Network.predict. rewrite Hlen, Nat.eqb_refl. cbn [negb].
  destruct (layer_total inputs (weightsIH1 net) (biasH1 net)
              (inputSize (architecture net)) (hidden1Size (architecture net)))
    as [hidden1 [E1 _]]; [lia|].
  destruct (layer_total hidden1 (weightsH1H2 net) (biasH2 net)
              (hidden1Size (architecture net)) (hidden2Size (architecture net)))
    as [hidden2 [E2 _]]; [lia|].
  destruct (layer_total hidden2 (weightsH2O net) (biasO net)
              (hidden2Size (architecture net)) (outputSize (architecture net)))
    as [outputs [E3 Lo]]; [lia|].
  exists hidden1, hidden2, outputs.
  rewrite E1; cbn [Res.bind]. rewrite E2; cbn [Res.bind]. rewrite E3; cbn [Res.bind].
  now split.
Qed.

Lemma predict_wrong_length (net : NeuralNetwork) (inputs : list number) :
  length inputs <> inputSize (architecture net) ->
  Network.predict net inputs
  = Raise (ShapeMismatch (inputSize (architecture net)) (length inputs)).
Proof.
  intros Hne. unfold Network.predict.
  apply Nat.eqb_neq in Hne. now rewrite Hne.
Qed.

(** C1.  For a network [net] (with the shape its constructor gives it):
    [setWeights(getWeights())] succeeds and leaves the outputs of [predict]
    unchanged for every input of length [inputSize]; and for every vector
    [v] of the total length, [setWeights(v)] followed by [getWeights()]
    returns [v], cell for cell in the order input->hidden1,
    hidden1->hidden2, hidden2->output, then the three bias vectors. *)
Theorem setWeights_getWeights_roundtrip (net : NeuralNetwork) :
  wellShaped net = true ->
  (exists w net',
      Network.getWeights net = Return w
      /\ Network.setWeights net w = Return net'
      /\ forall inputs,
           length inputs = inputSize (architecture net) ->
           outputsOf (Network.predict net' inputs)
           = outputsOf (Network.predict net inputs))
  /\ (forall v,
        length v = Network.getTotalWeights net ->
        exists net',
          Network.setWeights net v = Return net'
          /\ Network.getWeights net' = Return v
          /\ v = concat (weightsIH1 net') ++ concat (weightsH1H2 net')
                 ++ concat (weightsH2O net')
                 ++ biasH1 net' ++ biasH2 net' ++ biasO net').
Proof.
  intros H. split.
  - destruct (setWeights_getWeights net H) as [w [Hw Hs]].
    exists w, net. repeat split; auto.
  - intros v Hlen.
    destruct (getWeights_setWeights net v H Hlen) as [net' [Hs Hg]].
    exists net'. repeat split; auto.
    destruct (setWeights_wellShaped net net' v H Hs) as [H' _].
    rewrite (getWeights_spec net' H') in Hg. now inversion Hg.
Qed.

(** C9.  On a network with the shape its constructor gives it, [predict]
    raises an error exactly when the length of the input differs from
    [inputSize]; the error is then the shape mismatch; and on an input of
    the right length it returns an output vector of length [outputSize]. *)
Theorem predict_ShapeMismatch_iff (net : NeuralNetwork) (inputs : list number) :
  wellShaped net = true ->
  ((exists e, Network.predict net inputs = Raise e)
   <-> length inputs <> inputSize (architecture net))
  /\ (forall e,
        Network.predict net inputs = Raise e ->
        e = ShapeMismatch (inputSize (architecture net)) (length inputs))
  /\ (length inputs = inputSize (architecture net) ->
      exists outputs net',
        Network.predict net inputs = Return (outputs, net')
        /\ length outputs = outputSize (architecture net)).
Proof.
  intros H.
  destruct (Nat.eq_dec (length inputs) (inputSize (architecture net))) as [Heq|Hne].
  - destruct (predict_total net inputs H Heq) as (h1 & h2 & out & Hp & Hlen).
    repeat split.
    + intros [e He]. rewrite Hp in He. discriminate.
    + intros Hne. contradiction.
    + intros e He. rewrite Hp in He. discriminate.
    + intros _. eauto.
  - pose proof (predict_wrong_length net inputs Hne) as Hp.
    repeat split.
    + intros _. exact Hne.
    + intros _. eauto.
    + intros e He. rewrite Hp in He. now inversion He.
    + intros Heq. contradiction.
Qed.

(** C10.  On a network with the shape its constructor gives it and an input
    of the right length, [predict] returns, and the network afterwards has
    the same three matrices and three bias vectors (so [getWeights] returns
    the same vector); what it writes are the four caches. *)
Theorem predict_keeps_weights (net : NeuralNetwork) (inputs : list number) :
  wellShaped net = true ->
  length inputs = inputSize (architecture net) ->
  exists outputs net',
    Network.predict net inputs = Return (outputs, net')
    /\ Network.getWeights net' = Network.getWeights net
    /\ architecture net' = architecture net
    /\ weightsIH1 net' = weightsIH1 net
    /\ weightsH1H2 net' = weightsH1H2 net
    /\ weightsH2O net' = weightsH2O net
    /\ biasH1 net' = biasH1 net
    /\ biasH2 net' = biasH2 net
    /\ biasO net' = biasO net
    /\ lastInputs net' = inputs
    /\ lastOutputs net' = outputs.
Proof.
  intros H Hlen.
  destruct (predict_total net inputs H Hlen) as (h1 & h2 & out & Hp & _).
  eexists _, _. split; [exact Hp|]. cbn. repeat split.
Qed.

End PredictProofs.

Lemma setWeights_getWeights_roundtrip_witness :
  wellShaped tinyNetwork = true
  /\ ((exists w net',
          Network.getWeights tinyNetwork = Return w
          /\ Network.setWeights tinyNetwork w = Return net'
          /\ forall inputs,
               length inputs = inputSize (architecture tinyNetwork) ->
               outputsOf (@Network.predict exampleMath net' inputs)
               = outputsOf (@Network.predict exampleMath tinyNetwork inputs))
      /\ (forall v,
            length v = Network.getTotalWeights tinyNetwork ->
            exists net',
              Network.setWeights tinyNetwork v = Return net'
              /\ Network.getWeights net' = Return v
              /\ v = concat (weightsIH1 net') ++ concat (weightsH1H2 net')
                     ++ concat (weightsH2O net')
                     ++ biasH1 net' ++ biasH2 net' ++ biasO net')).
Proof.
  split; [reflexivity|].
  apply (@setWeights_getWeights_roundtrip exampleMath tinyNetwork). reflexivity.
Defined.

Lemma predict_ShapeMismatch_iff_witness :
  wellShaped tinyNetwork = true
  /\ ((exists e, @Network.predict exampleMath tinyNetwork [Num 1; Num 0] = Raise e)
      <-> length [Num 1; Num 0] <> inputSize (architecture tinyNetwork))
  /\ (forall e,
        @Network.predict exampleMath tinyNetwork [Num 1; Num 0] = Raise e ->
        e = ShapeMismatch (inputSize (architecture tinyNetwork))
              (length [Num 1; Num 0]))
  /\ (length [Num 1; Num 0] = inputSize (architecture tinyNetwork) ->
      exists outputs net',
        @Network.predict exampleMath tinyNetwork [Num 1; Num 0]
        = Return (outputs, net')
        /\ length outputs = outputSize (architecture tinyNetwork)).
Proof.
  split; [reflexivity|].
  apply (@predict_ShapeMismatch_iff exampleMath tinyNetwork [Num 1; Num 0]).
  reflexivity.
Defined.

Lemma predict_keeps_weights_witness :
  wellShaped tinyNetwork = true
  /\ length [Num 1; Num 0] = inputSize (architecture tinyNetwork)
  /\ exists outputs net',
       @Network.predict exampleMath tinyNetwork [Num 1; Num 0]
       = Return (outputs, net')
       /\ Network.getWeights net' = Network.getWeights tinyNetwork
       /\ architecture net' = architecture tinyNetwork
       /\ weightsIH1 net' = weightsIH1 tinyNetwork
       /\ weightsH1H2 net' = weightsH1H2 tinyNetwork
       /\ weightsH2O net' = weightsH2O tinyNetwork
       /\ biasH1 net' = biasH1 tinyNetwork
       /\ biasH2 net' = biasH2 tinyNetwork
       /\ biasO net' = biasO tinyNetwork
       /\ lastInputs net' = [Num 1; Num 0]
       /\ lastOutputs net' = outputs.
Proof.
  split; [reflexivity|]. split; [reflexivity|].
  apply (@predict_keeps_weights exampleMath tinyNetwork [Num 1; Num 0]);
    reflexivity.
Defined.

(* ------------------------------------------------------------------------- *)
(** * Indices drawn at random *)

(** [Math.floor(d * n)] for a draw [d] of [0, 1) is an index below [n]. *)
Lemma floor_draw_bounds (d : Q) (n : Z) :
  unitDraw d -> (0 < n)%Z ->
  (0 <= Qfloor (d * inject_Z n) < n)%Z.
Proof.
  intros [H0 H1] Hn.
  assert (Hq : (0 < inject_Z n)%Q) by (unfold Qlt; simpl; lia).
  split.
  - change 0%Z with (Qfloor 0). apply Qfloor_resp_le.
    apply Qmult_le_0_compat; [assumption|now apply Qlt_le_weak].
  - rewrite Zlt_Qlt. eapply Qle_lt_trans; [apply Qfloor_le|].
    setoid_replace (inject_Z n) with (1 * inject_Z n)%Q at 2 by ring.
    now apply Qmult_lt_compat_r.
Qed.

Lemma floor_draw_zero (d : Q) : Qfloor (d * inject_Z 0) = 0%Z.
Proof.
  assert (E : (d * inject_Z 0 == inject_Z 0)%Q) by (unfold inject_Z; ring).
  now rewrite (Qfloor_comp _ _ E), Qfloor_Z.
Qed.

Lemma relativeIndex_nat (len : nat) (q : Q) (p : Z) :
  (0 <= p)%Z -> (q == inject_Z p)%Q ->
  JSArray.relativeIndex len (Num q) = Nat.min (Z.to_nat p) len.
Proof.
  intros Hp Hq. unfold JSArray.relativeIndex.
  assert (Hle : Qle_bool 0 q = true).
  { apply Qle_bool_iff. rewrite Hq. unfold Qle; simpl; lia. }
  rewrite Hle, (Qfloor_comp _ _ Hq), Qfloor_Z.
  destruct (Z.ltb_spec p 0); [lia|reflexivity].
Qed.

(* ------------------------------------------------------------------------- *)
(** * Single-point crossover *)

Lemma cutPoint_bounds (d : Q) (len : nat) :
  unitDraw d -> 1 <= len ->
  1 <= cutPoint d len /\ cutPoint d len <= Nat.max 1 (len - 1).
Proof.
  intros Hd Hlen. unfold cutPoint.
  destruct (Nat.eq_dec len 1) as [->|Hne].
  - cbn [Z.of_nat Pos.of_succ_nat Z.sub Z.add Z.opp Z.pos_sub].
    rewrite floor_draw_zero. cbn. lia.
  - destruct (floor_draw_bounds d (Z.of_nat len - 1) Hd) as [L U]; lia.
Qed.

(** The child computed from the draw [d]. *)
Lemma crossover_child (a b : list number) (d : Q) :
  unitDraw d ->
  1 <= Nat.min (length a) (length b) ->
  let len := Nat.min (length a) (length b) in
  let point :=
    JS.add (Num 1) (JS.floor (JS.mul (Num d) (JS.sub (JS.ofNat len) (Num 1)))) in
  JSArray.slice a (Num 0) (Some point) ++ JSArray.slice b point None
  = firstn (cutPoint d len) a ++ skipn (cutPoint d len) b.
Proof.
  intros Hd Hlen len.
  destruct (cutPoint_bounds d _ Hd Hlen) as [Hp1 Hp2]. fold len in Hp1, Hp2.
  cbn [JS.mul JS.sub JS.add JS.neg JS.floor JS.ofNat JS.ofZ]. cbv zeta.
  set (q := (1 + inject_Z (Qfloor (d * (inject_Z (Z.of_nat len) + - (1)))))%Q).
  assert (Hq : (q == inject_Z (1 + Qfloor (d * inject_Z (Z.of_nat len - 1))))%Q).
  { unfold q. rewrite inject_Z_plus.
    assert (E : (d * (inject_Z (Z.of_nat len) + - (1))
                 == d * inject_Z (Z.of_nat len - 1))%Q).
    { unfold Z.sub. rewrite inject_Z_plus. reflexivity. }
    now rewrite (Qfloor_comp _ _ E). }
  assert (Hnn : (0 <= 1 + Qfloor (d * inject_Z (Z.of_nat len - 1)))%Z).
  { unfold cutPoint in Hp1. lia. }
  unfold JSArray.slice.
  rewrite !(relativeIndex_nat _ q _ Hnn Hq).
  assert (E0 : forall n, JSArray.relativeIndex n (Num 0) = 0).
  { intros n. rewrite (relativeIndex_nat n 0 0); [apply Nat.min_0_l|lia|reflexivity]. }
  rewrite E0. fold (cutPoint d len).
  assert (La : len <= length a) by (unfold len; lia).
  assert (Lb : len <= length b) by (unfold len; lia).
  rewrite !Nat.min_l by lia.
  cbn [skipn]. rewrite Nat.sub_0_r.
  f_equal.
  apply firstn_all2. rewrite length_skipn. lia.
Qed.

Lemma crossover_run (a b : list number) (d : Q) (rest : list Q) :
  unitDraw d ->
  1 <= Nat.min (length a) (length b) ->
  TRexGame.crossoverSinglePoint a b (d :: rest)
  = Ok (firstn (cutPoint d (Nat.min (length a) (length b))) a
        ++ skipn (cutPoint d (Nat.min (length a) (length b))) b) rest.
Proof.
  intros Hd Hlen.
  unfold TRexGame.crossoverSinglePoint.
  destruct (Nat.eqb_spec (Nat.min (length a) (length b)) 0) as [E|_]; [lia|].
  unfold Rnd.bind, Rnd.random, Rnd.ret.
  now rewrite (crossover_child a b d Hd Hlen).
Qed.

(** C2 (amended).  For a draw [d] of [0, 1) and parents whose shorter
    length [len] is at least 1, the child is the first [point] cells of A
    followed by the cells of B from [point] on, where
    [point = 1 + floor(d * (len - 1))] lies in [1, max(1, len - 1)]; its
    length is the length of B (so it is [min(len(A), len(B))] when B is not
    the longer parent).  When a parent is empty the child is empty and no
    draw is made. *)
Theorem crossoverSinglePoint_child (a b : list number) (d : Q) (rest : list Q) :
  unitDraw d ->
  let len := Nat.min (length a) (length b) in
  (len = 0 -> TRexGame.crossoverSinglePoint a b (d :: rest) = Ok [] (d :: rest))
  /\ (1 <= len ->
      exists point child,
        point = cutPoint d len
        /\ 1 <= point /\ point <= Nat.max 1 (len - 1)
        /\ TRexGame.crossoverSinglePoint a b (d :: rest) = Ok child rest
        /\ child = firstn point a ++ skipn point b
        /\ length child = length b
        /\ (length b <= length a -> length child = len)).
Proof.
  intros Hd len. split.
  - intros E. unfold TRexGame.crossoverSinglePoint. fold len. now rewrite E.
  - intros Hlen.
    destruct (cutPoint_bounds d len Hd Hlen) as [Hp1 Hp2].
    exists (cutPoint d len), (firstn (cutPoint d len) a ++ skipn (cutPoint d len) b).
    repeat split; auto.
    + now apply crossover_run.
    + rewrite length_app, length_firstn, length_skipn. unfold len in *. lia.
    + intros Hba. rewrite length_app, length_firstn, length_skipn.
      unfold len in *. lia.
Qed.

Lemma crossoverSinglePoint_child_witness :
  unitDraw (1 # 2)%Q
  /\ (Nat.min (length [Num 1; Num 2; Num 3]) (length [Num 7; Num 8; Num 9]) = 0 ->
      TRexGame.crossoverSinglePoint [Num 1; Num 2; Num 3] [Num 7; Num 8; Num 9]
        [(1 # 2)%Q] = Ok [] [(1 # 2)%Q])
  /\ (1 <= Nat.min (length [Num 1; Num 2; Num 3]) (length [Num 7; Num 8; Num 9]) ->
      exists point child,
        point = cutPoint (1 # 2)%Q
                  (Nat.min (length [Num 1; Num 2; Num 3])
                           (length [Num 7; Num 8; Num 9]))
        /\ 1 <= point
        /\ point <= Nat.max 1 (Nat.min (length [Num 1; Num 2; Num 3])
                                       (length [Num 7; Num 8; Num 9]) - 1)
        /\ TRexGame.crossoverSinglePoint [Num 1; Num 2; Num 3]
             [Num 7; Num 8; Num 9] [(1 # 2)%Q] = Ok child []
        /\ child = firstn point [Num 1; Num 2; Num 3]
                   ++ skipn point [Num 7; Num 8; Num 9]
        /\ length child = length [Num 7; Num 8; Num 9]
        /\ (length [Num 7; Num 8; Num 9] <= length [Num 1; Num 2; Num 3] ->
            length child = Nat.min (length [Num 1; Num 2; Num 3])
                                   (length [Num 7; Num 8; Num 9]))).
Proof.
  assert (Hd : unitDraw (1 # 2)%Q) by (split; reflexivity || discriminate).
  split; [exact Hd|].
  exact (crossoverSinglePoint_child [Num 1; Num 2; Num 3] [Num 7; Num 8; Num 9]
           (1 # 2)%Q [] Hd).
Defined.

(** C2 as stated fails: with A of length 1 and B of length 3 the child has
    length 3, not [min(1, 3)]. *)
Lemma crossoverSinglePoint_length_counterexample :
  unitDraw (1 # 2)%Q
  /\ TRexGame.crossoverSinglePoint [Num 1] [Num 2; Num 3; Num 4] [(1 # 2)%Q]
     = Ok [Num 1; Num 3; Num 4] []
  /\ length [Num 1; Num 3; Num 4]
     <> Nat.min (length [Num 1]) (length [Num 2; Num 3; Num 4]).
Proof.
  split; [split; [discriminate|reflexivity]|].
  split; [reflexivity|cbn; lia].
Qed.

(* ------------------------------------------------------------------------- *)
(** * Computations that draw *)

Lemma bind_Ok {A B : Type} (m : Rand A) (k : A -> Rand B) (ds : list Q)
    (b : B) (rest : list Q) :
  Rnd.bind m k ds = Ok b rest <->
  exists a mid, m ds = Ok a mid /\ k a mid = Ok b rest.
Proof.
  unfold Rnd.bind. destruct (m ds) as [a mid| |]; split.
  - intros H. now exists a, mid.
  - intros (a' & mid' & E & H). now inversion E; subst.
  - discriminate.
  - intros (? & ? & E & _). discriminate.
  - discriminate.
  - intros (? & ? & E & _). discriminate.
Qed.

Lemma lift_Ok {A : Type} (r : result A) (ds : list Q) (a : A) (rest : list Q) :
  Rnd.lift r ds = Ok a rest <-> r = Return a /\ rest = ds.
Proof.
  unfold Rnd.lift. destruct r; split.
  - intros H. now inversion H.
  - intros [E ->]. now inversion E.
  - discriminate.
  - intros [E _]. discriminate.
Qed.

Lemma Forall_suffix {P : Q -> Prop} (used rest : list Q) :
  Forall P (used ++ rest) -> Forall P rest.
Proof. intros H. now apply Forall_app in H. Qed.

Lemma runs_ret {A : Type} (post : A -> Prop) (a : A) :
  post a -> runs 0 post (Rnd.ret a).
Proof.
  intros Ha ds _. unfold Rnd.ret. split; [|split].
  - discriminate.
  - intros a' rest H. inversion H; subst. split; [assumption|now exists []].
  - intros _ _. exists a, ds. split; [reflexivity|lia].
Qed.

Lemma runs_lift {A : Type} (post : A -> Prop) (r : result A) (a : A) :
  r = Return a -> post a -> runs 0 post (Rnd.lift r).
Proof. intros -> Ha. now apply runs_ret. Qed.

Lemma runs_weaken {A : Type} (c c' : nat) (P P' : A -> Prop) (m : Rand A) :
  runs c P m -> c <= c' -> (forall a, P a -> P' a) -> runs c' P' m.
Proof.
  intros Hm Hc HP ds Hds. destruct (Hm ds Hds) as (H1 & H2 & H3).
  split; [assumption|split].
  - intros a rest E. destruct (H2 a rest E) as [Pa Hs]. split; auto.
  - intros Hnz Hlen. destruct H3 as (a & rest & E & L); auto; [lia|].
    exists a, rest. split; [assumption|lia].
Qed.

Lemma runs_bind {A B : Type} (c1 c2 : nat) (P : A -> Prop) (Q : B -> Prop)
    (m : Rand A) (k : A -> Rand B) :
  runs c1 P m ->
  (forall a, P a -> runs c2 Q (k a)) ->
  runs (c1 + c2) Q (Rnd.bind m k).
Proof.
  intros Hm Hk ds Hds. destruct (Hm ds Hds) as (M1 & M2 & M3).
  split; [|split].
  - intros e E. unfold Rnd.bind in E.
    destruct (m ds) as [a mid|e'|] eqn:Em; try discriminate.
    + destruct (M2 a mid Logic.eq_refl) as [Pa [used ->]].
      destruct (Hk a Pa mid (Forall_suffix _ _ Hds)) as (K1 & _).
      now apply (K1 e).
    + now apply (M1 e').
  - intros b rest H.
    apply bind_Ok in H as (a & mid & Em & Ek).
    destruct (M2 a mid Em) as [Pa [used ->]].
    destruct (Hk a Pa mid (Forall_suffix _ _ Hds)) as (_ & K2 & _).
    destruct (K2 b rest Ek) as [Qb [used' ->]].
    split; [assumption|]. exists (used ++ used'). now rewrite app_assoc.
  - intros Hnz Hlen.
    destruct M3 as (a & mid & Em & Lm); auto; [lia|].
    destruct (M2 a mid Em) as [Pa [used Eu]]. subst ds.
    destruct (Hk a Pa mid (Forall_suffix _ _ Hds)) as (_ & _ & K3).
    destruct K3 as (b & rest & Ek & Lk); [now apply Forall_suffix in Hnz|lia|].
    exists b, rest. split; [|lia].
    unfold Rnd.bind. now rewrite Em.
Qed.

Lemma runs_random :
  runs 1 (fun x => exists d, x = Num d /\ unitDraw d) Rnd.random.
Proof.
  intros ds Hds. unfold Rnd.random. split; [|split].
  - destruct ds; discriminate.
  - intros a rest H. destruct ds as [|d ds]; [discriminate|]. inversion H; subst.
    split; [|now exists [d]].
    exists d. split; [reflexivity|now inversion Hds].
  - intros _ Hlen. destruct ds as [|d ds]; [simpl in Hlen; lia|].
    exists (Num d), ds. split; [reflexivity|simpl; lia].
Qed.

Lemma runs_drawNonZero :
  runs 1 (fun x => exists d, x = Num d /\ unitDraw d /\ nonZeroDraw d)
    TRexGame.drawNonZero.
Proof.
  intros ds Hds. split; [|split].
  - induction ds as [|d ds IH]; cbn; [discriminate|].
    inversion Hds; subst. destruct (Qeq_bool d 0); [now apply IH|discriminate].
  - intros a rest. induction ds as [|d ds IH]; cbn; [discriminate|].
    inversion Hds as [|? ? Hd Hds']; subst. destruct (Qeq_bool d 0) eqn:E.
    + intros H. destruct (IH Hds' H) as [Pa [used ->]].
      split; [assumption|now exists (d :: used)].
    + intros H. inversion H; subst. split; [|now exists [d]].
      exists d. repeat split; try apply Hd.
      intros Hz. apply Qeq_bool_iff in Hz. congruence.
  - intros Hnz Hlen. destruct ds as [|d ds]; [simpl in Hlen; lia|].
    inversion Hnz; subst. cbn.
    destruct (Qeq_bool d 0) eqn:E.
    + apply Qeq_bool_iff in E. contradiction.
    + exists (Num d), ds. split; [reflexivity|simpl; lia].
Qed.

Lemma runs_foldM {A S : Type} (c : nat) (I : S -> Prop) (body : S -> A -> Rand S)
    (xs : list A) (s : S) :
  (forall s x, In x xs -> I s -> runs c I (body s x)) ->
  I s ->
  runs (length xs * c) I (Rnd.foldM body xs s).
Proof.
  revert s; induction xs as [|x xs IH]; intros s Hbody Hs; cbn [Rnd.foldM length].
  - now apply runs_ret.
  - cbn [Nat.mul]. apply runs_bind with (P := I).
    + apply Hbody; [now left|assumption].
    + intros s' Hs'. apply IH; [|assumption].
      intros s0 x0 Hin. apply Hbody. now right.
Qed.

Lemma runs_mapM {A B : Type} (c : nat) (P : B -> Prop) (f : A -> Rand B)
    (xs : list A) :
  (forall x, In x xs -> runs c P (f x)) ->
  runs (length xs * c) (fun ys => Forall P ys /\ length ys = length xs)
    (Rnd.mapM f xs).
Proof.
  induction xs as [|x xs IH]; intros Hf; cbn [Rnd.mapM length].
  - apply runs_ret. now split.
  - cbn [Nat.mul]. apply runs_bind with (P := P).
    + apply Hf. now left.
    + intros y Hy.
      rewrite <- (Nat.add_0_r (length xs * c)).
      apply runs_bind with (P := fun ys => Forall P ys /\ length ys = length xs).
      * apply IH. intros x0 Hin. apply Hf. now right.
      * intros ys [Hys Hlen]. apply runs_ret. split; [now constructor|].
        simpl. now rewrite Hlen.
Qed.

(** [for] loops whose invariant depends on the number of iterations done. *)
Lemma runs_foldM_counted {A St : Type} (c : nat) (I : nat -> St -> Prop)
    (body : St -> A -> Rand St) (xs : list A) (k : nat) (s : St) :
  (forall j s x, In x xs -> I j s -> runs c (I (S j)) (body s x)) ->
  I k s ->
  runs (length xs * c) (I (k + length xs)) (Rnd.foldM body xs s).
Proof.
  revert k s; induction xs as [|x xs IH]; intros k s Hbody Hs;
    cbn [Rnd.foldM length].
  - rewrite Nat.add_0_r. now apply runs_ret.
  - cbn [Nat.mul]. apply runs_bind with (P := I (S k)).
    + apply Hbody; [now left|assumption].
    + intros s' Hs'. replace (k + S (length xs)) with (S k + length xs) by lia.
      apply IH; [|assumption].
      intros j s0 x0 Hin. apply Hbody. now right.
Qed.

(* ------------------------------------------------------------------------- *)
(** * Building networks *)

Lemma runs_randomWeight : runs 1 (fun _ => True) Network.randomWeight.
Proof.
  unfold Network.randomWeight.
  change 1 with (1 + 0).
  apply runs_bind with (P := fun x => exists d, x = Num d /\ unitDraw d).
  - apply runs_random.
  - intros r _. now apply runs_ret.
Qed.

Lemma runs_randomCells {A : Type} (xs : list A) :
  runs (length xs) (fun row => length row = length xs)
    (Rnd.mapM (fun _ => Network.randomWeight) xs).
Proof.
  eapply runs_weaken.
  - apply runs_mapM with (c := 1) (P := fun _ => True).
    intros _ _. apply runs_randomWeight.
  - lia.
  - now intros row [_ H].
Qed.

Lemma runs_randomMatrix (rows cols : nat) :
  runs (rows * cols) (fun m => shaped m rows cols = true)
    (Network.randomMatrix rows cols).
Proof.
  unfold Network.randomMatrix.
  eapply runs_weaken.
  - apply runs_mapM with (c := cols) (P := fun row => length row = cols).
    intros i _. unfold Network.randomRow.
    eapply runs_weaken; [apply runs_randomCells| |].
    + now rewrite length_seq.
    + intros row H. now rewrite length_seq in H.
  - now rewrite length_seq.
  - intros m [Hall Hlen]. rewrite length_seq in Hlen.
    apply shaped_spec. now split.
Qed.

Lemma runs_randomBias (n : nat) :
  runs n (fun b => length b = n) (Network.randomBias n).
Proof.
  unfold Network.randomBias.
  eapply runs_weaken; [apply runs_randomCells| |].
  - now rewrite repeat_length.
  - intros b H. now rewrite repeat_length in H.
Qed.

Lemma runs_create (arch : NetworkArchitecture) :
  runs (totalWeights arch)
    (fun net => wellShaped net = true /\ architecture net = arch)
    (Network.create arch).
Proof.
  unfold Network.create.
  eapply runs_weaken with
    (P := fun net => wellShaped net = true /\ architecture net = arch)
    (c := inputSize arch * hidden1Size arch
          + (hidden1Size arch * hidden2Size arch
             + (hidden2Size arch * outputSize arch
                + (hidden1Size arch + (hidden2Size arch + (outputSize arch + 0)))))).
  - eapply runs_bind; [apply runs_randomMatrix|]. intros m1 H1.
    eapply runs_bind; [apply runs_randomMatrix|]. intros m2 H2.
    eapply runs_bind; [apply runs_randomMatrix|]. intros m3 H3.
    eapply runs_bind; [apply runs_randomBias|]. intros b1 B1.
    eapply runs_bind; [apply runs_randomBias|]. intros b2 B2.
    eapply runs_bind; [apply runs_randomBias|]. intros b3 B3.
    apply runs_ret. split; [|reflexivity].
    apply wellShaped_spec. cbn. tauto.
  - unfold totalWeights. lia.
  - auto.
Qed.

Lemma totalWeights_spec (net : NeuralNetwork) :
  Network.getTotalWeights net = totalWeights (architecture net).
Proof. reflexivity. Qed.

Lemma runs_clone (net : NeuralNetwork) :
  wellShaped net = true ->
  runs (totalWeights (architecture net))
    (fun c => wellShaped c = true
              /\ architecture c = architecture net
              /\ Network.getWeights c = Network.getWeights net)
    (Network.clone net).
Proof.
  intros H. unfold Network.clone.
  destruct (setWeights_getWeights net H) as [w [Hw _]].
  pose proof (getWeights_length net w H Hw) as Lw.
  rewrite <- (Nat.add_0_r (totalWeights (architecture net))).
  eapply runs_bind; [apply runs_create|]. intros c [Hc Ac].
  change 0 with (0 + 0).
  eapply runs_bind; [apply (runs_lift (fun x => x = w) _ w Hw Logic.eq_refl)|].
  intros w' ->.
  destruct (getWeights_setWeights c w Hc) as [c' [Hs Hg]].
  { now rewrite totalWeights_spec, Ac, <- totalWeights_spec. }
  eapply runs_lift; [exact Hs|].
  destruct (setWeights_wellShaped c c' w Hc Hs) as [Hc' Ac'].
  repeat split; [assumption|congruence|congruence].
Qed.

(* ------------------------------------------------------------------------- *)
(** * Selection, crossover and mutation *)

Lemma toIndex_ofZ (z : Z) :
  (0 <= z)%Z -> JS.toIndex (JS.ofZ z) = Some (Z.to_nat z).
Proof.
  intros Hz. unfold JS.toIndex, JS.ofZ. rewrite Qfloor_Z.
  assert (E : Qeq_bool (inject_Z z) (inject_Z z) = true)
    by (apply Qeq_bool_iff; reflexivity).
  rewrite E. destruct (Z.leb_spec 0 z); [reflexivity|lia].
Qed.

Lemma runs_randomIndex (n : nat) :
  0 < n -> runs 1 (indexBelow n) (TRexGame.randomIndex n).
Proof.
  intros Hn. unfold TRexGame.randomIndex. change 1 with (1 + 0).
  eapply runs_bind; [apply runs_random|].
  intros r (d & -> & Hd). apply runs_ret.
  cbn [JS.mul JS.ofNat JS.floor].
  destruct (floor_draw_bounds d (Z.of_nat n) Hd) as [L U]; [lia|].
  exists (Z.to_nat (Qfloor (d * inject_Z (Z.of_nat n)))). split; [lia|].
  now apply toIndex_ofZ.
Qed.

Lemma item_indexBelow {A : Type} (l : list A) (x : number) :
  indexBelow (length l) x -> exists a, JSArray.item l x = Some a /\ In a l.
Proof.
  intros (k & Hk & E). unfold JSArray.item. rewrite E.
  destruct (nth_error l k) as [a|] eqn:N.
  - exists a. split; [reflexivity|]. eapply nth_error_In; eassumption.
  - apply nth_error_None in N. lia.
Qed.

Lemma runs_tournament (fitness : list number) (n k : nat) :
  0 < n ->
  runs (1 + (k - 1)) (indexBelow n) (TRexGame.tournament fitness n k).
Proof.
  intros Hn. unfold TRexGame.tournament.
  eapply runs_bind; [now apply runs_randomIndex|].
  intros bestIdx Hb.
  eapply runs_weaken.
  - apply runs_foldM with (c := 1) (I := indexBelow n); [|exact Hb].
    intros s t _ Hs. unfold TRexGame.challenge. change 1 with (1 + 0).
    eapply runs_bind; [now apply runs_randomIndex|].
    intros challenger Hc. apply runs_ret.
    now destruct (JS.gt _ _).
  - rewrite length_seq. lia.
  - auto.
Qed.

Lemma runs_buildParentsPool (networks : list NeuralNetwork) (fitness : list number)
    (k : nat) :
  0 < length networks ->
  runs (length networks * (1 + (k - 1)))
    (fun pool => length pool = length networks
                 /\ Forall (poolEntry networks) pool)
    (TRexGame.buildParentsPool networks fitness k).
Proof.
  intros Hn. unfold TRexGame.buildParentsPool.
  eapply runs_weaken.
  - apply runs_foldM_counted with
      (c := 1 + (k - 1)) (k := 0)
      (I := fun j pool => length pool = j /\ Forall (poolEntry networks) pool).
    + intros j pool i _ [Hl Hp]. unfold TRexGame.selectParent.
      rewrite <- (Nat.add_0_r (1 + (k - 1))).
      eapply runs_bind; [now apply runs_tournament|].
      intros bestIdx Hb. apply runs_ret.
      destruct (item_indexBelow networks bestIdx Hb) as (net & E & Hin).
      split.
      * rewrite length_app. simpl. lia.
      * apply Forall_app. split; [assumption|].
        constructor; [|constructor]. rewrite E. now exists net.
    + split; [reflexivity|constructor].
  - now rewrite length_seq.
  - intros pool H. now rewrite length_seq in H.
Qed.

Lemma runs_crossoverSinglePoint (a b : list number) :
  runs 1 (fun child => length child <= length b)
    (TRexGame.crossoverSinglePoint a b).
Proof.
  unfold TRexGame.crossoverSinglePoint.
  destruct (Nat.eqb_spec (Nat.min (length a) (length b)) 0) as [E|E].
  - eapply runs_weaken; [apply runs_ret with (post := fun c => c = [])| |].
    + reflexivity.
    + lia.
    + intros c ->. simpl. lia.
  - change 1 with (1 + 0). eapply runs_bind; [apply runs_random|].
    intros r (d & -> & Hd). apply runs_ret.
    rewrite (crossover_child a b d Hd) by lia.
    rewrite length_app, length_firstn, length_skipn.
    destruct (cutPoint_bounds d (Nat.min (length a) (length b)) Hd); lia.
Qed.

Section MutationProofs.
Context {ML : MathLib}.

Lemma runs_randn : runs 2 (fun _ => True) TRexGame.randn.
Proof.
  unfold TRexGame.randn. change 2 with (1 + (1 + 0)).
  eapply runs_bind; [apply runs_drawNonZero|]. intros u _.
  eapply runs_bind; [apply runs_drawNonZero|]. intros v _.
  now apply runs_ret.
Qed.

Lemma runs_mutateWeight (mutationRate sigma w : number) :
  runs 3 (fun _ => True) (TRexGame.mutateWeight mutationRate sigma w).
Proof.
  unfold TRexGame.mutateWeight. change 3 with (1 + 2).
  eapply runs_bind; [apply runs_random|]. intros r _.
  destruct (JS.lt r mutationRate).
  - rewrite <- (Nat.add_0_r 2). eapply runs_bind; [apply runs_randn|].
    intros g _. now apply runs_ret.
  - eapply runs_weaken; [apply runs_ret with (post := fun _ => True)| |]; auto.
Qed.

Lemma runs_mutateWeights (weights : list number) (mutationRate sigma : number) :
  runs (length weights * 3) (fun l => length l = length weights)
    (TRexGame.mutateWeights weights mutationRate sigma).
Proof.
  unfold TRexGame.mutateWeights.
  eapply runs_weaken.
  - apply runs_mapM with (c := 3) (P := fun _ => True).
    intros w _. apply runs_mutateWeight.
  - lia.
  - now intros l [_ H].
Qed.

End MutationProofs.

(* ------------------------------------------------------------------------- *)
(** * The next population *)

Lemma okNet_spec (net : NeuralNetwork) :
  okNet net = true <->
  wellShaped net = true /\ architecture net = DEFAULT_ARCHITECTURE.
Proof.
  unfold okNet, architecture_eqb.
  rewrite !andb_true_iff, !Nat.eqb_eq.
  destruct (architecture net) as [a b c d]; cbn.
  split.
  - intros [H [[[-> ->] ->] ->]]. now split.
  - intros [H E]. inversion E. tauto.
Qed.

Lemma runs_cloneOk (net : NeuralNetwork) :
  okNet net = true ->
  runs (totalWeights DEFAULT_ARCHITECTURE)
    (fun c => okNet c = true /\ Network.getWeights c = Network.getWeights net)
    (Network.clone net).
Proof.
  intros H. apply okNet_spec in H as [Hw Ha].
  eapply runs_weaken; [apply (runs_clone net Hw)| |].
  - now rewrite Ha.
  - intros c (Hc & Ac & Gc). split; [|assumption].
    apply okNet_spec. split; [assumption|congruence].
Qed.

Section RolloverProofs.
Context {ML : MathLib}.

Lemma runs_makeChild (networks : list NeuralNetwork)
    (parentsPool : list (option NeuralNetwork)) :
  0 < length parentsPool ->
  Forall (poolEntry networks) parentsPool ->
  Forall (fun net => okNet net = true) networks ->
  runs childCost (fun child => okNet child = true) (TRexGame.makeChild parentsPool).
Proof.
  intros Hlen Hpool Hnets. unfold TRexGame.makeChild, childCost.
  assert (Hentry : forall x, indexBelow (length parentsPool) x ->
            exists p, JSArray.item parentsPool x = Some (Some p)
                      /\ okNet p = true).
  { intros x Hx. destruct (item_indexBelow parentsPool x Hx) as (e & E & Hin).
    rewrite Forall_forall in Hpool. destruct (Hpool e Hin) as (p & -> & Hp).
    exists p. split; [assumption|].
    rewrite Forall_forall in Hnets. now apply Hnets. }
  change (2 + (1 + (3 * totalWeights DEFAULT_ARCHITECTURE
                    + totalWeights DEFAULT_ARCHITECTURE)))
    with (1 + (1 + (1 + (3 * totalWeights DEFAULT_ARCHITECTURE
                         + totalWeights DEFAULT_ARCHITECTURE)))).
  eapply runs_bind; [now apply runs_randomIndex|]. intros i1 H1.
  eapply runs_bind; [now apply runs_randomIndex|]. intros i2 H2.
  destruct (Hentry i1 H1) as (p1 & -> & Hp1).
  destruct (Hentry i2 H2) as (p2 & -> & Hp2).
  apply okNet_spec in Hp1 as [W1 A1], Hp2 as [W2 A2].
  destruct (setWeights_getWeights p1 W1) as [w1 [G1 _]].
  destruct (setWeights_getWeights p2 W2) as [w2 [G2 _]].
  pose proof (getWeights_length p2 w2 W2 G2) as L2.
  rewrite totalWeights_spec, A2 in L2.
  change (1 + (3 * totalWeights DEFAULT_ARCHITECTURE
               + totalWeights DEFAULT_ARCHITECTURE))
    with (0 + (0 + (1 + (3 * totalWeights DEFAULT_ARCHITECTURE
                         + totalWeights DEFAULT_ARCHITECTURE)))).
  eapply runs_bind;
    [apply (runs_lift (fun x => x = w1) _ w1 G1 Logic.eq_refl)|]. intros ? ->.
  eapply runs_bind;
    [apply (runs_lift (fun x => x = w2) _ w2 G2 Logic.eq_refl)|]. intros ? ->.
  eapply runs_bind; [apply runs_crossoverSinglePoint|]. intros childW Lc.
  cbv beta in Lc.
  eapply runs_bind.
  { eapply runs_weaken; [apply runs_mutateWeights| |].
    - lia.
    - intros mutated H. exact H. }
  intros mutated _.
  rewrite <- (Nat.add_0_r (totalWeights DEFAULT_ARCHITECTURE)).
  eapply runs_bind; [apply runs_create|]. intros child [Wc Ac].
  pose proof (setWeights_spec child mutated Wc) as Hs. cbv zeta in Hs.
  eapply runs_lift; [exact Hs|].
  destruct (setWeights_wellShaped child _ mutated Wc Hs) as [W' A'].
  apply okNet_spec. split; [assumption|congruence].
Qed.

Lemma runs_keepSurvivors (networks : list NeuralNetwork) (bestIdx : nat)
    (shuffledIndices : list nat) (populationSize todo i : nat)
    (nextNetworks : list NeuralNetwork) :
  Forall (fun net => okNet net = true) networks ->
  Forall (fun idx => idx < length networks) shuffledIndices ->
  i + todo <= length shuffledIndices ->
  Forall (fun net => okNet net = true) nextNetworks ->
  runs (todo * totalWeights DEFAULT_ARCHITECTURE)
    (fun l => (exists more, l = nextNetworks ++ more)
              /\ Forall (fun net => okNet net = true) l
              /\ length l <= Nat.max (length nextNetworks) populationSize)
    (TRexGame.keepSurvivors networks bestIdx shuffledIndices populationSize
       todo i nextNetworks).
Proof.
  intros Hnets Hshuf. revert i nextNetworks.
  induction todo as [|todo IH]; intros i nextNetworks Hi Hnext;
    cbn [TRexGame.keepSurvivors].
  - apply runs_ret. split; [exists []; now rewrite app_nil_r|].
    split; [assumption|lia].
  - destruct (Nat.ltb_spec (length nextNetworks) populationSize) as [Hlt|Hge].
    + destruct (nth_error shuffledIndices i) as [randomIdx|] eqn:E.
      2:{ apply nth_error_None in E. lia. }
      assert (Hr : randomIdx < length networks).
      { rewrite Forall_forall in Hshuf. apply Hshuf.
        eapply nth_error_In; eassumption. }
      destruct (randomIdx =? bestIdx); cbn [negb].
      * eapply runs_weaken; [apply (IH (S i) nextNetworks); [lia|assumption]| |].
        -- cbn. lia.
        -- auto.
      * destruct (nth_error networks randomIdx) as [net|] eqn:N.
        2:{ apply nth_error_None in N. lia. }
        assert (Hnet : okNet net = true).
        { rewrite Forall_forall in Hnets. apply Hnets.
          eapply nth_error_In; eassumption. }
        cbn [Nat.mul].
        eapply runs_bind; [now apply runs_cloneOk|].
        intros randomNet [Hc _].
        eapply runs_weaken;
          [apply (IH (S i) (nextNetworks ++ [randomNet])); [lia|]| |].
        -- apply Forall_app. split; [assumption|now constructor].
        -- lia.
        -- intros l ([more ->] & Hl & Hlen). split; [|split].
           ++ exists (randomNet :: more). now rewrite <- app_assoc.
           ++ assumption.
           ++ rewrite !length_app in *. simpl in *. lia.
    + eapply runs_weaken;
        [apply runs_ret with
           (post := fun l => l = nextNetworks)| |]; [reflexivity|lia|].
      intros l ->. split; [exists []; now rewrite app_nil_r|].
      split; [assumption|lia].
Qed.

Lemma runs_fillOffspring (networks : list NeuralNetwork)
    (parentsPool : list (option NeuralNetwork)) (populationSize fuel : nat)
    (nextNetworks : list NeuralNetwork) :
  0 < length parentsPool ->
  Forall (poolEntry networks) parentsPool ->
  Forall (fun net => okNet net = true) networks ->
  Forall (fun net => okNet net = true) nextNetworks ->
  runs (fuel * childCost)
    (fun l => (exists more, l = nextNetworks ++ more)
              /\ Forall (fun net => okNet net = true) l
              /\ (length nextNetworks <= populationSize ->
                  populationSize - length nextNetworks <= fuel ->
                  length l = populationSize))
    (TRexGame.fillOffspring parentsPool populationSize fuel nextNetworks).
Proof.
  intros Hlen Hpool Hnets. revert nextNetworks.
  induction fuel as [|fuel IH]; intros nextNetworks Hnext;
    cbn [TRexGame.fillOffspring].
  - apply runs_ret. split; [exists []; now rewrite app_nil_r|].
    split; [assumption|lia].
  - destruct (Nat.ltb_spec (length nextNetworks) populationSize) as [Hlt|Hge].
    + cbn [Nat.mul].
      eapply runs_bind; [now apply (runs_makeChild networks)|].
      intros child Hc.
      eapply runs_weaken; [apply (IH (nextNetworks ++ [child]))| |].
      * apply Forall_app. split; [assumption|now constructor].
      * lia.
      * intros l ([more ->] & Hl & Hsize). split; [|split].
        -- exists (child :: more). now rewrite <- app_assoc.
        -- assumption.
        -- intros H1 H2. apply Hsize; rewrite !length_app in *; simpl in *; lia.
    + eapply runs_weaken;
        [apply runs_ret with (post := fun l => l = nextNetworks)| |];
        [reflexivity|lia|].
      intros l ->. split; [exists []; now rewrite app_nil_r|].
      split; [assumption|lia].
Qed.

End RolloverProofs.

(* ------------------------------------------------------------------------- *)
(** * Ranking *)

Lemma insertRanked_perm (a : number * nat) (sorted : list (number * nat)) :
  Permutation (TRexGame.insertRanked a sorted) (a :: sorted).
Proof.
  induction sorted as [|b sorted IH]; cbn [TRexGame.insertRanked].
  - reflexivity.
  - destruct (JS.gt _ _); [|reflexivity].
    rewrite IH. apply perm_swap.
Qed.

Lemma map_snd_combine {A B : Type} (xs : list A) (ys : list B) :
  length ys = length xs -> map snd (combine xs ys) = ys.
Proof.
  revert ys; induction xs as [|x xs IH]; intros [|y ys] H; simpl in *;
    try discriminate; auto.
  f_equal. apply IH. lia.
Qed.

Lemma rankedIndices_perm (fitness : list number) :
  Permutation (TRexGame.rankedIndices fitness) (seq 0 (length fitness)).
Proof.
  unfold TRexGame.rankedIndices.
  rewrite <- (map_snd_combine fitness (seq 0 (length fitness)))
    at 2 by apply length_seq.
  apply Permutation_map.
  generalize (combine fitness (seq 0 (length fitness))) as pairs. intros pairs.
  induction pairs as [|p pairs IH]; simpl; [reflexivity|].
  rewrite insertRanked_perm. now constructor.
Qed.

Lemma rankedIndices_head (fitness : list number) :
  0 < length fitness ->
  exists bestIdx,
    nth_error (TRexGame.rankedIndices fitness) 0 = Some bestIdx
    /\ bestIdx < length fitness.
Proof.
  intros Hlen. pose proof (rankedIndices_perm fitness) as P.
  destruct (TRexGame.rankedIndices fitness) as [|bestIdx l] eqn:E.
  - apply Permutation_length in P. rewrite length_seq in P. simpl in P. lia.
  - exists bestIdx. split; [reflexivity|].
    assert (Hin : In bestIdx (seq 0 (length fitness))).
    { eapply Permutation_in; [exact P|now left]. }
    apply in_seq in Hin. lia.
Qed.

(** On finite numbers the comparator [(a, b) => b[0] - a[0]] is positive
    exactly when [a] is the smaller. *)
Lemma comparator_finite (x y : Q) :
  JS.gt (JS.sub (Num y) (Num x)) (Num 0) = negb (Qle_bool y x).
Proof.
  unfold JS.gt, JS.sub, JS.neg, JS.add, JS.lt. f_equal.
  destruct (Qle_bool y x) eqn:E.
  - apply Qle_bool_iff. apply Qle_bool_iff in E. lra.
  - destruct (Qle_bool (y + - x) 0) eqn:F; [|reflexivity].
    apply Qle_bool_iff in F. assert (H : (y <= x)%Q) by lra.
    apply Qle_bool_iff in H. congruence.
Qed.

(** The first pair of the sorted list has the greatest fitness. *)
Lemma insertRanked_head (pairs : list (number * nat)) :
  Forall (fun p => JS.isFinite (fst p) = true) pairs ->
  match fold_right TRexGame.insertRanked [] pairs with
  | [] => pairs = []
  | b :: _ =>
      In b pairs
      /\ Forall (fun p => JS.ge (fst b) (fst p) = true) pairs
  end.
Proof.
  induction pairs as [|a pairs IH]; intros Hfin; cbn [fold_right]; [reflexivity|].
  inversion Hfin as [|? ? Ha Hrest]; subst. specialize (IH Hrest).
  destruct a as [[x| | | |] i]; try discriminate. cbn [fst] in *.
  assert (Hxx : JS.ge (Num x) (Num x) = true)
    by (apply Qle_bool_iff; lra).
  destruct (fold_right TRexGame.insertRanked [] pairs) as [|b sorted].
  - subst pairs. cbn. split; [now left|]. constructor; [exact Hxx|constructor].
  - destruct IH as [Hin Hall]. cbn [TRexGame.insertRanked].
    assert (Hb : JS.isFinite (fst b) = true).
    { rewrite Forall_forall in Hrest. now apply Hrest. }
    destruct b as [[y| | | |] j]; try discriminate. cbn [fst] in *.
    rewrite comparator_finite.
    destruct (Qle_bool y x) eqn:E; cbn [negb].
    + split; [now left|]. constructor; [exact Hxx|].
      eapply Forall_impl; [|exact Hall].
      intros [[z| | | |] k]; cbn; intros Hz; try discriminate Hz;
        try reflexivity.
      apply Qle_bool_iff in Hz, E. apply Qle_bool_iff. lra.
    + split; [now right|]. constructor; [|exact Hall].
      cbn. apply Qle_bool_iff.
      destruct (Qlt_le_dec y x) as [L|L]; [|exact L].
      assert (H : (y <= x)%Q) by lra. apply Qle_bool_iff in H. congruence.
Qed.

Lemma In_combine_seq (fitness : list number) (f : number) (i start : nat) :
  In (f, i) (combine fitness (seq start (length fitness))) ->
  start <= i /\ nth_error fitness (i - start) = Some f.
Proof.
  revert start; induction fitness as [|x fitness IH]; intros start; cbn;
    [intros []|].
  intros [E|Hin].
  - inversion E; subst. rewrite Nat.sub_diag. now split.
  - apply IH in Hin as [Hle Hn]. split; [lia|].
    replace (i - start) with (S (i - S start)) by lia. exact Hn.
Qed.

(** With finite fitness scores, the index ranked first has a fitness that
    none exceeds. *)
Lemma rankedIndices_max (fitness : list number) (bestIdx : nat) :
  Forall (fun f => JS.isFinite f = true) fitness ->
  nth_error (TRexGame.rankedIndices fitness) 0 = Some bestIdx ->
  forall i, i < length fitness ->
            JS.ge (JS.get fitness bestIdx) (JS.get fitness i) = true.
Proof.
  intros Hfin Hbest i Hi. unfold TRexGame.rankedIndices in Hbest.
  assert (Hpairs : Forall (fun p => JS.isFinite (fst p) = true)
                     (combine fitness (seq 0 (length fitness)))).
  { apply Forall_forall. intros [f k] Hin. apply in_combine_l in Hin.
    rewrite Forall_forall in Hfin. now apply Hfin. }
  pose proof (insertRanked_head _ Hpairs) as H.
  destruct (fold_right TRexGame.insertRanked [] _) as [|[fb b] sorted];
    [discriminate|].
  cbn in Hbest. inversion Hbest; subst b. destruct H as [Hin Hall].
  apply In_combine_seq in Hin as [_ Hn]. rewrite Nat.sub_0_r in Hn.
  assert (Eb : JS.get fitness bestIdx = fb)
    by (unfold JS.get; now apply nth_error_nth).
  rewrite Eb. rewrite Forall_forall in Hall.
  destruct (nth_error fitness i) as [f|] eqn:Ef.
  2:{ apply nth_error_None in Ef. lia. }
  assert (Ei : JS.get fitness i = f)
    by (unfold JS.get; now apply nth_error_nth).
  rewrite Ei. apply (Hall (f, i)).
  clear - Ef Hi. 
  assert (G : forall start, In (f, start + i) (combine fitness (seq start (length fitness)))).
  { revert i Ef Hi. induction fitness as [|x fitness IH]; intros [|i] Ef Hi start;
      cbn in *; try lia; try discriminate.
    - inversion Ef; subst. left. f_equal. lia.
    - right. replace (start + S i) with (S start + i) by lia.
      apply IH; [exact Ef|lia]. }
  exact (G 0).
Qed.

Lemma tournamentSize_ge (n : nat) : 2 <= TRexGame.tournamentSize n.
Proof. unfold TRexGame.tournamentSize. lia. Qed.

Lemma randomSurvivors_le (n : nat) : TRexGame.randomSurvivors n <= n.
Proof.
  unfold TRexGame.randomSurvivors.
  assert (H : (Qfloor (inject_Z (Z.of_nat n) * 0.1) <= Z.of_nat n)%Z).
  { rewrite <- (Qfloor_Z (Z.of_nat n)) at 2. apply Qfloor_resp_le.
    unfold Qle, Qmult, inject_Z. simpl. lia. }
  lia.
Qed.

Lemma popOk_spec (g : GameData.t) :
  popOk g = true <->
  0 < length (GameData.networks g)
  /\ length (GameData.fitness g) = length (GameData.networks g)
  /\ Forall (fun net => okNet net = true) (GameData.networks g).
Proof.
  unfold popOk. rewrite !andb_true_iff, Nat.ltb_lt, Nat.eqb_eq, forallb_forall,
    Forall_forall. tauto.
Qed.

Section RolloverSpec.
Context {ML : MathLib}.

(** The rollover, on a population as [popOk] describes it and with the
    indices shuffled into some permutation. *)
Lemma runs_handleGenerationEnd (shuffledIndices : list nat) (g : GameData.t) :
  popOk g = true ->
  Permutation shuffledIndices (seq 0 (length (GameData.networks g))) ->
  runs (rolloverCost (length (GameData.networks g))) (rolledOver g)
    (TRexGame.handleGenerationEnd shuffledIndices g).
Proof.
  intros Hpop Hperm. apply popOk_spec in Hpop as (Hn & Hf & Hnets).
  set (n := length (GameData.networks g)) in *.
  unfold TRexGame.handleGenerationEnd.
  destruct (rankedIndices_head (GameData.fitness g)) as (bestIdx & Eb & Hb); [lia|].
  rewrite Eb.
  destruct (nth_error (GameData.networks g) bestIdx) as [best|] eqn:Ebest.
  2:{ apply nth_error_None in Ebest. lia. }
  assert (Hbest : okNet best = true).
  { rewrite Forall_forall in Hnets. apply Hnets. eapply nth_error_In; eassumption. }
  pose proof Hbest as Hbest'. apply okNet_spec in Hbest' as [Wb Ab].
  destruct (setWeights_getWeights best Wb) as [w [Gw _]].
  unfold rolloverCost. fold n.
  rewrite <- (Nat.add_0_l (n * TRexGame.tournamentSize n + _)).
  eapply runs_bind;
    [apply (runs_lift (fun x => x = w) _ w Gw Logic.eq_refl)|]. intros ? ->.
  set (g1 := if JS.gt (JS.get (GameData.fitness g) bestIdx) (GameData.bestFitness g)
             then GameData.with_bestWeights (Some w)
                    (GameData.with_bestFitness
                       (JS.get (GameData.fitness g) bestIdx) g)
             else g).
  assert (E1 : GameData.networks g1 = GameData.networks g)
    by (unfold g1; destruct (JS.gt _ _); reflexivity).
  assert (E2 : GameData.fitness g1 = GameData.fitness g)
    by (unfold g1; destruct (JS.gt _ _); reflexivity).
  assert (E3 : GameData.generation g1 = GameData.generation g)
    by (unfold g1; destruct (JS.gt _ _); reflexivity).
  cbv zeta. fold g1. rewrite E1, E2. fold n.
  eapply runs_bind.
  { eapply runs_weaken; [apply runs_buildParentsPool; exact Hn| |].
    - fold n. pose proof (tournamentSize_ge n).
      replace (1 + (TRexGame.tournamentSize n - 1))
        with (TRexGame.tournamentSize n) by lia.
      apply Nat.le_refl.
    - intros pool H. exact H. }
  intros parentsPool [Lp Hp]. fold n in Lp.
  eapply runs_bind; [now apply runs_cloneOk|]. intros elite [He Ge].
  eapply runs_bind.
  { apply runs_keepSurvivors with (i := 0).
    - exact Hnets.
    - rewrite Forall_forall. intros idx Hin.
      apply (Permutation_in _ Hperm) in Hin. apply in_seq in Hin. fold n. lia.
    - apply Permutation_length in Hperm. rewrite length_seq in Hperm.
      rewrite Hperm. apply randomSurvivors_le.
    - now constructor. }
  intros survivors ([more ->] & Hs & Ls). cbn [length] in Ls.
  rewrite <- (Nat.add_0_r (n * childCost)).
  eapply runs_bind.
  { apply (runs_fillOffspring (GameData.networks g)); try assumption.
    fold n. lia. }
  intros nextNetworks ([more' ->] & Hall & Hsize).
  apply runs_ret.
  assert (Ln : length (([elite] ++ more) ++ more') = n) by (apply Hsize; lia).
  simpl in Ln, Hall.
  unfold rolledOver, TRexGame.handleRestart. cbn. fold n.
  split; [exact Ln|]. split; [now rewrite <- Ln|]. split; [now rewrite E3|].
  split.
  - apply popOk_spec. cbn. rewrite repeat_length. repeat split.
    + lia.
    + exact Hall.
  - exists bestIdx, best, w, elite, (more ++ more').
    simpl in Eb. repeat split; try assumption; try reflexivity.
    + congruence.
    + unfold g1. now destruct (JS.gt _ _).
    + unfold g1. now destruct (JS.gt _ _).
Qed.

End RolloverSpec.

(* ------------------------------------------------------------------------- *)
(** * What a frame leaves alone *)

Lemma onlyAt_refl (j : nat) (f : list number) : onlyAt j f f.
Proof. split; auto. Qed.

Lemma onlyAt_trans (j : nat) (f1 f2 f3 : list number) :
  onlyAt j f1 f2 -> onlyAt j f2 f3 -> onlyAt j f1 f3.
Proof.
  intros [A1 L1] [A2 L2]. split.
  - intros i Hi. now rewrite A2, A1.
  - intros Hj. rewrite L2, L1; auto. now rewrite L1.
Qed.

Lemma onlyAt_set (j : nat) (f : list number) (v : number) :
  onlyAt j f (JS.set Undefined f j v).
Proof.
  split.
  - intros i Hi. apply get_set_other. auto.
  - apply set_length_in.
Qed.

Lemma frameKeeps_refl (g : GameData.t) : frameKeeps g g.
Proof. unfold frameKeeps. repeat split; auto. Qed.

Lemma frameKeeps_trans (g1 g2 g3 : GameData.t) :
  frameKeeps g1 g2 -> frameKeeps g2 g3 -> frameKeeps g1 g3.
Proof.
  intros (A1 & B1 & C1 & D1 & E1 & F1) (A2 & B2 & C2 & D2 & E2 & F2).
  unfold frameKeeps.
  split; [congruence|]. split; [congruence|]. split; [congruence|].
  split; [congruence|]. split; [auto|].
  intros i Hi. destruct (F1 i Hi) as [H1 G1]. destruct (F2 i H1) as [H2 G2].
  split; [assumption|congruence].
Qed.

(** A step that writes neither the agents, the networks, the fitness nor
    the records. *)
Lemma frameKeeps_core (g g' : GameData.t) :
  GameData.tRexes g' = GameData.tRexes g ->
  GameData.networks g' = GameData.networks g ->
  GameData.fitness g' = GameData.fitness g ->
  GameData.generation g' = GameData.generation g ->
  GameData.bestFitness g' = GameData.bestFitness g ->
  GameData.bestWeights g' = GameData.bestWeights g ->
  frameKeeps g g'.
Proof.
  intros T N F G B W. unfold frameKeeps, popOk, deadAt.
  rewrite T, N, F, G, B, W. tauto.
Qed.

(** A step that maps a function over the agents which leaves dead agents
    as they are. *)
Lemma frameKeeps_map (f : TRex.t -> TRex.t) (g g' : GameData.t) :
  (forall tRex, TRex.alive tRex = false -> f tRex = tRex) ->
  GameData.tRexes g' = map f (GameData.tRexes g) ->
  GameData.networks g' = GameData.networks g ->
  GameData.fitness g' = GameData.fitness g ->
  GameData.generation g' = GameData.generation g ->
  GameData.bestFitness g' = GameData.bestFitness g ->
  GameData.bestWeights g' = GameData.bestWeights g ->
  frameKeeps g g'.
Proof.
  intros Hf T N F G B W. unfold frameKeeps, popOk, deadAt.
  rewrite T, N, F, G, B, W.
  split; [reflexivity|]. split; [reflexivity|]. split; [reflexivity|].
  split; [reflexivity|]. split; [auto|].
  intros i (tRex & E & D). split; [|reflexivity]. exists tRex.
  rewrite nth_error_map, E. cbn. now rewrite (Hf tRex D).
Qed.

(* ------------------------------------------------------------------------- *)
(** * The control step of one agent *)

Lemma actsOn_refl (j : nat) (g : GameData.t) : actsOn j g g.
Proof. unfold actsOn. repeat split; auto. Qed.

Lemma actsOn_trans (j : nat) (g1 g2 g3 : GameData.t) :
  actsOn j g1 g2 -> actsOn j g2 g3 -> actsOn j g1 g3.
Proof.
  intros (A1 & B1 & C1 & D1 & E1 & F1) (A2 & B2 & C2 & D2 & E2 & F2).
  unfold actsOn.
  split; [congruence|]. split; [congruence|]. split; [congruence|].
  split; [congruence|]. split.
  - intros i Hi. now rewrite E2, E1.
  - eapply onlyAt_trans; eassumption.
Qed.

Lemma actsOn_fitness (j : nat) (v : number) (g : GameData.t) :
  actsOn j g (TRexGame.addFitness j v g).
Proof.
  unfold actsOn, TRexGame.addFitness. cbn.
  split; [reflexivity|]. split; [reflexivity|]. split; [reflexivity|].
  split; [reflexivity|]. split; [reflexivity|]. apply onlyAt_set.
Qed.

Lemma actsOn_putTRex (j : nat) (tRex : TRex.t) (g : GameData.t) :
  j < length (GameData.tRexes g) ->
  actsOn j g (TRexGame.putTRex j tRex g).
Proof.
  intros Hj. unfold actsOn, TRexGame.putTRex. cbn.
  split; [reflexivity|]. split; [reflexivity|]. split; [reflexivity|].
  split; [reflexivity|]. split; [|apply onlyAt_refl].
  intros i Hi. apply set_nth_error_other; auto.
Qed.

Lemma rewardPass_onlyAt (j : nat) (trex : TRex.t) (obstacles : list Obstacle.t)
    (st : list number * list Obstacle.t) :
  onlyAt j (fst st) (fst (fold_left (TRexGame.rewardPass j trex) obstacles st)).
Proof.
  revert st; induction obstacles as [|ob obstacles IH]; intros st;
    cbn [fold_left].
  - apply onlyAt_refl.
  - eapply onlyAt_trans; [|apply IH].
    destruct st as [fitness visited]. unfold TRexGame.rewardPass.
    destruct (Obstacle.remove ob); [apply onlyAt_refl|].
    destruct (_ && _); [apply onlyAt_set|apply onlyAt_refl].
Qed.

Lemma actsOn_passReward (j : nat) (trex : TRex.t) (g : GameData.t) :
  actsOn j g (TRexGame.passReward j trex g).
Proof.
  unfold actsOn, TRexGame.passReward. cbn.
  split; [reflexivity|]. split; [reflexivity|]. split; [reflexivity|].
  split; [reflexivity|]. split; [reflexivity|].
  apply (rewardPass_onlyAt j trex (GameData.obstacles g) (GameData.fitness g, [])).
Qed.

Lemma map_set {A B : Type} (f : A -> B) (hole : A) (l : list A) (i : nat) (v : A) :
  map f (JS.set hole l i v) = JS.set (f hole) (map f l) i (f v).
Proof.
  revert l; induction i as [|i IH]; intros [|x l]; cbn; auto.
  - f_equal. apply (IH []).
  - f_equal. apply IH.
Qed.

Lemma actsOn_network (j : nat) (net net' : NeuralNetwork) (g : GameData.t) :
  nth_error (GameData.networks g) j = Some net ->
  okNet net' = okNet net ->
  actsOn j g (GameData.with_networks (JS.set net' (GameData.networks g) j net') g).
Proof.
  intros Hn Hok. unfold actsOn. cbn.
  split; [reflexivity|]. split; [reflexivity|]. split; [reflexivity|].
  split; [|split; [reflexivity|apply onlyAt_refl]].
  rewrite map_set. apply set_same. rewrite nth_error_map, Hn. cbn. now rewrite Hok.
Qed.

Lemma getGameInputsForNN_state (g : GameData.t) (tRex : TRex.t)
    (shared : option Obstacle.t * number) :
  exists prev,
    snd (TRexGame.getGameInputsForNN g tRex shared) = GameData.with_prevDist prev g.
Proof.
  unfold TRexGame.getGameInputsForNN.
  destruct (match fst shared with Some _ => _ | None => _ end) as [closest dist].
  cbn. eauto.
Qed.

Section ControlProofs.
Context {ML : MathLib}.

Lemma predict_fields (net net' : NeuralNetwork) (inputs outputs : list number) :
  Network.predict net inputs = Return (outputs, net') ->
  architecture net' = architecture net
  /\ weightsIH1 net' = weightsIH1 net
  /\ weightsH1H2 net' = weightsH1H2 net
  /\ weightsH2O net' = weightsH2O net
  /\ biasH1 net' = biasH1 net
  /\ biasH2 net' = biasH2 net
  /\ biasO net' = biasO net
  /\ lastInputs net' = inputs.
Proof.
  unfold Network.predict.
  destruct (negb _); [discriminate|].
  destruct (Network.layer inputs _ _ _ _) as [h1|]; [|discriminate]. cbn [Res.bind].
  destruct (Network.layer h1 _ _ _ _) as [h2|]; [|discriminate]. cbn [Res.bind].
  destruct (Network.layer h2 _ _ _ _) as [o|]; [|discriminate]. cbn [Res.bind].
  intros H. inversion H; subst. cbn. repeat split.
Qed.

Lemma predict_okNet (net net' : NeuralNetwork) (inputs outputs : list number) :
  Network.predict net inputs = Return (outputs, net') ->
  okNet net' = okNet net.
Proof.
  intros H. apply predict_fields in H as (A & B & C & D & E & F & G & _).
  unfold okNet, wellShaped. now rewrite A, B, C, D, E, F, G.
Qed.

(** The control step of agent [j]: nothing for a dead agent, and for a live
    one a sequence of writes to its own record, network and fitness. *)
Lemma controlTRex_actsOn (deltaTime : number) (closest : option Obstacle.t)
    (dist : number) (g g' : GameData.t) (j : nat) :
  TRexGame.controlTRex deltaTime closest dist g j = Return g' ->
  exists tRex,
    nth_error (GameData.tRexes g) j = Some tRex
    /\ (TRex.alive tRex = false -> g' = g)
    /\ (TRex.alive tRex = true ->
        j < length (GameData.networks g) /\ actsOn j g g').
Proof.
  unfold TRexGame.controlTRex.
  destruct (nth_error (GameData.tRexes g) j) as [trex|] eqn:ET; [|discriminate].
  intros H. exists trex. split; [reflexivity|].
  destruct (TRex.alive trex) eqn:EA; cbn [negb] in H.
  2:{ split; [intros _; now inversion H|discriminate]. }
  split; [discriminate|]. intros _.
  destruct (getGameInputsForNN_state g trex (closest, dist)) as [prev Eg].
  destruct (TRexGame.getGameInputsForNN g trex (closest, dist)) as [gameInputs g1].
  cbn [snd] in Eg. subst g1. cbn [GameData.networks GameData.with_prevDist] in H.
  destruct (nth_error (GameData.networks g) j) as [net|] eqn:EN; [|discriminate].
  assert (Hj : j < length (GameData.networks g))
    by (apply nth_error_Some; congruence).
  split; [exact Hj|].
  destruct (Network.predict net _) as [[outputs net']|] eqn:EP; [|discriminate].
  cbn [Res.bind] in H. inversion H; subst g'. clear H.
  pose proof (predict_okNet _ _ _ _ EP) as Hok.
  assert (Ht : j < length (GameData.tRexes g))
    by (apply nth_error_Some; congruence).
  eapply actsOn_trans; [|apply actsOn_fitness].
  eapply actsOn_trans; [|apply actsOn_passReward].
  match goal with
  | |- actsOn j g (match ?r with Some v => _ | None => _ end) =>
      destruct r as [reward|]
  end.
  - eapply actsOn_trans; [|apply actsOn_fitness].
    eapply actsOn_trans; [|apply actsOn_fitness].
    eapply actsOn_trans; [|apply actsOn_putTRex; exact Ht].
    eapply actsOn_trans;
      [|exact (actsOn_network j net net' (GameData.with_prevDist prev g) EN Hok)].
    unfold actsOn. cbn. repeat split; auto.
  - eapply actsOn_trans; [|apply actsOn_fitness].
    eapply actsOn_trans; [|apply actsOn_putTRex; exact Ht].
    eapply actsOn_trans;
      [|exact (actsOn_network j net net' (GameData.with_prevDist prev g) EN Hok)].
    unfold actsOn. cbn. repeat split; auto.
Qed.

End ControlProofs.

Lemma forallb_map {A : Type} (f : A -> bool) (l : list A) :
  forallb f l = forallb (fun b => b) (map f l).
Proof. induction l as [|x l IH]; cbn; [reflexivity|now rewrite IH]. Qed.

Lemma actsOn_frameKeeps (j : nat) (g g' : GameData.t) (tRex : TRex.t) :
  nth_error (GameData.tRexes g) j = Some tRex ->
  TRex.alive tRex = true ->
  j < length (GameData.networks g) ->
  actsOn j g g' ->
  frameKeeps g g'.
Proof.
  intros ET EA Hj (A & B & C & D & E & [F1 F2]).
  assert (L : length (GameData.networks g') = length (GameData.networks g)).
  { rewrite <- (length_map okNet (GameData.networks g')), D. apply length_map. }
  unfold frameKeeps.
  split; [assumption|]. split; [assumption|]. split; [assumption|].
  split; [assumption|]. split.
  - intros Hpop. apply popOk_spec in Hpop as (P1 & P2 & P3).
    apply popOk_spec. split; [lia|]. split; [rewrite F2; lia|].
    apply Forall_forall. intros net Hin.
    assert (Hall : forallb okNet (GameData.networks g') = true).
    { rewrite forallb_map, D, <- forallb_map. apply forallb_forall.
      now apply Forall_forall. }
    rewrite forallb_forall in Hall. now apply Hall.
  - intros i (dead & Ed & Dd).
    assert (Hi : i <> j) by (intros ->; congruence).
    split; [|now apply F1].
    exists dead. now rewrite E.
Qed.

Section FrameProofs.
Context {ML : MathLib}.

Lemma controlTRex_keeps (deltaTime : number) (closest : option Obstacle.t)
    (dist : number) (g g' : GameData.t) (j : nat) :
  TRexGame.controlTRex deltaTime closest dist g j = Return g' ->
  frameKeeps g g'.
Proof.
  intros H. apply controlTRex_actsOn in H as (tRex & ET & Hdead & Halive).
  destruct (TRex.alive tRex) eqn:EA.
  - destruct (Halive Logic.eq_refl) as [Hj Hact].
    now apply (actsOn_frameKeeps j g g' tRex).
  - rewrite (Hdead Logic.eq_refl). apply frameKeeps_refl.
Qed.

Lemma controlAll_keeps (deltaTime : number) (closest : option Obstacle.t)
    (dist : number) (g g' : GameData.t) :
  TRexGame.controlAll deltaTime closest dist g = Return g' ->
  frameKeeps g g'.
Proof.
  unfold TRexGame.controlAll.
  destruct (_ && _).
  2:{ intros H. inversion H. apply frameKeeps_refl. }
  generalize (seq 0 (length (GameData.tRexes g))) as js. intros js.
  revert g; induction js as [|j js IH]; intros g; cbn [Res.foldM].
  - intros H. inversion H. apply frameKeeps_refl.
  - destruct (TRexGame.controlTRex deltaTime closest dist g j) as [g1|] eqn:E;
      [|discriminate].
    cbn [Res.bind]. intros H.
    eapply frameKeeps_trans; [eapply controlTRex_keeps; eassumption|now apply IH].
Qed.

Lemma updateAllTRexes_keeps (stamp deltaTime : number) (g : GameData.t) :
  frameKeeps g (TRexGame.updateAllTRexes stamp deltaTime g).
Proof.
  apply frameKeeps_map with (f := TRexGame.updateOneTRex stamp deltaTime);
    try reflexivity.
  intros tRex D. unfold TRexGame.updateOneTRex. now rewrite D.
Qed.

Lemma checkCollisions_keeps (g : GameData.t) :
  frameKeeps g (TRexGame.checkCollisions g).
Proof.
  unfold TRexGame.checkCollisions.
  destruct (GameData.obstacles g) as [|obstacle others]; [apply frameKeeps_refl|].
  destruct (negb (Obstacle.remove obstacle)); [|apply frameKeeps_refl].
  apply frameKeeps_map with
    (f := fun tRex =>
            fst (TRexGame.checkOneTRex obstacle
                   (TRexGame.collisionBoxesOf (GameData.obstacleTypes g) obstacle)
                   tRex));
    try reflexivity.
  intros tRex D. unfold TRexGame.checkOneTRex. now rewrite D.
Qed.

End FrameProofs.

(* ------------------------------------------------------------------------- *)
(** * Obstacles *)

Lemma sameCore_keeps (g g' : GameData.t) : sameCore g g' -> frameKeeps g g'.
Proof. intros (T & N & F & G & B & W). now apply frameKeeps_core. Qed.

Lemma ret_Ok {A : Type} (a b : A) (ds rest : list Q) :
  Rnd.ret a ds = Ok b rest <-> a = b /\ rest = ds.
Proof.
  unfold Rnd.ret. split.
  - intros H. now inversion H.
  - now intros [-> ->].
Qed.

Lemma consumes_ret {A : Type} (a : A) : consumes (Rnd.ret a).
Proof. intros ds b rest H. apply ret_Ok in H as [_ ->]. now exists []. Qed.

Lemma consumes_lift {A : Type} (r : result A) : consumes (Rnd.lift r).
Proof. intros ds b rest H. apply lift_Ok in H as [_ ->]. now exists []. Qed.

Lemma consumes_random : consumes Rnd.random.
Proof.
  intros [|d ds] a rest H; [discriminate|]. inversion H; subst. now exists [d].
Qed.

Lemma consumes_bind {A B : Type} (m : Rand A) (k : A -> Rand B) :
  consumes m -> (forall a, consumes (k a)) -> consumes (Rnd.bind m k).
Proof.
  intros Hm Hk ds b rest H. apply bind_Ok in H as (a & mid & Em & Ek).
  destruct (Hm _ _ _ Em) as [u1 ->]. destruct (Hk a _ _ _ Ek) as [u2 ->].
  exists (u1 ++ u2). now rewrite app_assoc.
Qed.

Lemma consumes_getRandomNum (lo hi : number) :
  consumes (TRexGame.getRandomNum lo hi).
Proof.
  apply consumes_bind; [apply consumes_random|]. intros r. apply consumes_ret.
Qed.

Lemma consumes_chooseObstacle (attempts : nat) (types : list ObstacleDefinition.t)
    (currentSpeed : number) (history : list ObstacleType) :
  consumes (TRexGame.chooseObstacle attempts types currentSpeed history).
Proof.
  induction attempts as [|attempts IH]; cbn [TRexGame.chooseObstacle].
  - apply consumes_ret.
  - apply consumes_bind; [apply consumes_random|]. intros r.
    destruct (JS.toIndex _); [|apply consumes_lift].
    destruct (JSArray.item _ _); [|apply consumes_lift].
    destruct (_ && _); [apply consumes_ret|apply IH].
Qed.

Lemma createNewObstacle_spec (spawnX : number) (g : GameData.t) :
  consumes (TRexGame.createNewObstacle spawnX g)
  /\ forall ds ob g' rest,
       TRexGame.createNewObstacle spawnX g ds = Ok (ob, g') rest ->
       sameCore g g' /\ GameData.obstacles g' = GameData.obstacles g.
Proof.
  unfold TRexGame.createNewObstacle. split.
  - apply consumes_bind; [apply consumes_chooseObstacle|].
    intros [[d chosen]|]; [|apply consumes_ret].
    apply consumes_bind.
    { destruct (ObstacleDefinition.yPos chosen); [apply consumes_ret|].
      apply consumes_bind; [apply consumes_random|]. intros r. apply consumes_ret. }
    intros yPos. apply consumes_bind; [apply consumes_getRandomNum|]. intros size.
    apply consumes_bind; [apply consumes_getRandomNum|]. intros gap.
    apply consumes_bind.
    { destruct (JS.isNumber _); [|apply consumes_ret].
      apply consumes_bind; [apply consumes_random|]. intros r. apply consumes_ret. }
    intros speedOffset.
    destruct (TRexGame.adjustCollisionBoxes _ _ _ _). apply consumes_ret.
  - intros ds ob g' rest H.
    apply bind_Ok in H as ([[d chosen]|] & ds1 & _ & H).
    2:{ apply ret_Ok in H as [E _]. inversion E; subst.
        unfold sameCore. repeat split. }
    apply bind_Ok in H as (yPos & ds2 & _ & H).
    apply bind_Ok in H as (size & ds3 & _ & H).
    apply bind_Ok in H as (gap & ds4 & _ & H).
    apply bind_Ok in H as (speedOffset & ds5 & _ & H).
    destruct (TRexGame.adjustCollisionBoxes _ _ _ _) as [boxes written].
    apply ret_Ok in H as [E _]. inversion E; subst.
    unfold sameCore. cbn. repeat split.
Qed.

Lemma updateObstacles_spec (canvas : option number) (deltaTime : number)
    (g : GameData.t) :
  consumes (TRexGame.updateObstacles canvas deltaTime g)
  /\ forall ds g' rest,
       TRexGame.updateObstacles canvas deltaTime g ds = Ok g' rest ->
       sameCore g g'.
Proof.
  unfold TRexGame.updateObstacles. cbv zeta.
  assert (Hcore : forall g0 obs, sameCore g g0 ->
            sameCore g (GameData.with_obstacles obs g0)).
  { intros g0 obs H. exact H. }
  destruct (JS.gt _ _).
  2:{ split; [apply consumes_ret|]. intros ds g' rest H.
      apply ret_Ok in H as [<- _]. unfold sameCore. cbn. repeat split. }
  destruct canvas as [canvasWidth|].
  2:{ split; [apply consumes_ret|]. intros ds g' rest H.
      apply ret_Ok in H as [<- _]. unfold sameCore. repeat split. }
  destruct (last _ _) as [lastObs|].
  - destruct (_ && _).
    + split.
      * apply consumes_bind; [apply createNewObstacle_spec|].
        intros [[next|] g1]; apply consumes_ret.
      * intros ds g' rest H. apply bind_Ok in H as ([next g1] & mid & Ec & H).
        apply createNewObstacle_spec in Ec as [Hc _].
        destruct next; apply ret_Ok in H as [<- _]; apply Hcore; exact Hc.
    + split; [apply consumes_ret|]. intros ds g' rest H.
      apply ret_Ok in H as [<- _]. unfold sameCore. cbn. repeat split.
  - split.
    + apply consumes_bind; [apply createNewObstacle_spec|].
      intros [[newObs|] g1]; apply consumes_ret.
    + intros ds g' rest H. apply bind_Ok in H as ([newObs g1] & mid & Ec & H).
      apply createNewObstacle_spec in Ec as [Hc _].
      destruct newObs; apply ret_Ok in H as [<- _]; apply Hcore; exact Hc.
Qed.

(* ------------------------------------------------------------------------- *)
(** * Comparison of numbers *)

Lemma lt_Num (x y : Q) : JS.lt (Num x) (Num y) = true <-> (x < y)%Q.
Proof.
  cbn. rewrite negb_true_iff. split.
  - intros H. apply Qnot_le_lt. intros Hle. apply Qle_bool_iff in Hle. congruence.
  - intros H. destruct (Qle_bool y x) eqn:E; [|reflexivity].
    apply Qle_bool_iff in E. exfalso. eapply Qlt_not_le; eassumption.
Qed.

Lemma gt_trans (a b c : number) :
  JS.gt a b = true -> JS.gt b c = true -> JS.gt a c = true.
Proof.
  unfold JS.gt.
  destruct a as [x| | | |], b as [y| | | |], c as [z| | | |]; cbn [JS.lt];
    try discriminate; try reflexivity.
  intros H1 H2. apply lt_Num in H1, H2. apply lt_Num.
  eapply Qlt_trans; eassumption.
Qed.

Lemma gt_irrefl (a : number) : JS.gt a a = false.
Proof.
  unfold JS.gt. destruct a as [x| | | |]; cbn [JS.lt]; try reflexivity.
  apply negb_false_iff, Qle_bool_iff, Qle_refl.
Qed.

(* ------------------------------------------------------------------------- *)
(** * One frame and the rollover *)

Section UpdateProofs.
Context {ML : MathLib}.

Lemma frame_spec (canvas : option number) (stamp deltaTime : number)
    (g g' : GameData.t) (ds rest : list Q) :
  TRexGame.frame canvas stamp deltaTime g ds = Ok g' rest ->
  frameKeeps g g' /\ exists used, ds = used ++ rest.
Proof.
  unfold TRexGame.frame. cbv zeta.
  destruct (TRexGame.closestFrom _ _ _ _) as [closest dist].
  intros H. apply bind_Ok in H as (g1 & ds1 & E1 & H).
  apply lift_Ok in E1 as [E1 ->].
  apply bind_Ok in H as (g2 & ds2 & E2 & H).
  apply ret_Ok in H as [<- ->].
  pose proof (updateObstacles_spec canvas deltaTime
                (TRexGame.updateAllTRexes stamp deltaTime g1)) as [Hc Hs].
  destruct (Hc _ _ _ E2) as [used Hu]. split; [|now exists used].
  apply Hs in E2. apply controlAll_keeps in E1.
  match type of E1 with
  | frameKeeps ?g0 _ =>
      assert (H0 : frameKeeps g g0)
        by (apply frameKeeps_core; destruct (JS.lt _ _); reflexivity)
  end.
  eapply frameKeeps_trans; [exact H0|].
  eapply frameKeeps_trans; [exact E1|].
  eapply frameKeeps_trans; [apply updateAllTRexes_keeps|].
  eapply frameKeeps_trans; [apply sameCore_keeps; exact E2|].
  destruct (JS.gt _ _); [apply checkCollisions_keeps|apply frameKeeps_refl].
Qed.

(** [update] either is a frame that keeps what [frameKeeps] lists, or runs
    the rollover on the state such a frame left. *)
Lemma update_spec (canvas : option number) (time stamp : number)
    (shuffledIndices : list nat) (g g' : GameData.t) (ds rest : list Q) :
  TRexGame.update canvas time stamp shuffledIndices g ds = Ok g' rest ->
  frameKeeps g g'
  \/ exists gf mid used,
       frameKeeps g gf
       /\ ds = used ++ mid
       /\ TRexGame.handleGenerationEnd shuffledIndices
            (GameData.with_crashed true (GameData.with_playing false gf)) mid
          = Ok g' rest.
Proof.
  unfold TRexGame.update. cbv zeta.
  assert (H0 : frameKeeps g (GameData.with_time time g))
    by (now apply frameKeeps_core).
  destruct (GameData.playing _).
  2:{ intros H. apply ret_Ok in H as [<- _]. now left. }
  intros H. apply bind_Ok in H as (gf & mid & Ef & H).
  apply frame_spec in Ef as [Hk [used Hu]].
  destruct (TRexGame.aliveCount gf =? 0).
  - right. exists gf, mid, used. split; [|now split].
    exact (frameKeeps_trans _ _ _ H0 Hk).
  - apply ret_Ok in H as [<- _]. left.
    exact (frameKeeps_trans _ _ _ H0 Hk).
Qed.

(** What the rollover does to the generation number and the best-ever
    record, whenever it returns. *)
Lemma handleGenerationEnd_record (shuffledIndices : list nat) (g g' : GameData.t)
    (ds rest : list Q) :
  TRexGame.handleGenerationEnd shuffledIndices g ds = Ok g' rest ->
  exists bestIdx best w,
    nth_error (TRexGame.rankedIndices (GameData.fitness g)) 0 = Some bestIdx
    /\ nth_error (GameData.networks g) bestIdx = Some best
    /\ Network.getWeights best = Return w
    /\ GameData.generation g' = GameData.generation g + 1
    /\ GameData.bestFitness g'
       = (if JS.gt (JS.get (GameData.fitness g) bestIdx) (GameData.bestFitness g)
          then JS.get (GameData.fitness g) bestIdx
          else GameData.bestFitness g)
    /\ GameData.bestWeights g'
       = (if JS.gt (JS.get (GameData.fitness g) bestIdx) (GameData.bestFitness g)
          then Some w
          else GameData.bestWeights g).
Proof.
  unfold TRexGame.handleGenerationEnd. cbv zeta.
  destruct (nth_error (TRexGame.rankedIndices _) 0) as [bestIdx|] eqn:Eb;
    [|discriminate].
  destruct (nth_error (GameData.networks g) bestIdx) as [best|] eqn:En;
    [|discriminate].
  intros H. apply bind_Ok in H as (w & ds1 & Ew & H).
  apply lift_Ok in Ew as [Ew ->].
  apply bind_Ok in H as (pool & ds2 & _ & H).
  apply bind_Ok in H as (elite & ds3 & _ & H).
  apply bind_Ok in H as (survivors & ds4 & _ & H).
  apply bind_Ok in H as (nextNetworks & ds5 & _ & H).
  apply ret_Ok in H as [<- _].
  exists bestIdx, best, w.
  split; [reflexivity|]. split; [assumption|]. split; [assumption|].
  unfold TRexGame.handleRestart. cbn.
  destruct (JS.gt _ _); repeat split.
Qed.

End UpdateProofs.

(* ------------------------------------------------------------------------- *)
(** * Events *)

Lemma recordKeptOrRaised_trans (g1 g2 g3 : GameData.t) :
  recordKeptOrRaised g1 g2 -> recordKeptOrRaised g2 g3 ->
  recordKeptOrRaised g1 g3.
Proof.
  intros [[F1 W1]|G1] [[F2 W2]|G2].
  - left. split; congruence.
  - right. now rewrite <- F1.
  - right. now rewrite F2.
  - right. eapply gt_trans; eassumption.
Qed.

Section EventProofs.
Context {ML : MathLib}.

Lemma happens_generation (e : event) (g g' : GameData.t) :
  happens e g g' ->
  GameData.generation g <= GameData.generation g'
  /\ (isUpdate e -> GameData.generation g' = GameData.generation g ->
      frameKeeps g g').
Proof.
  intros H. destruct H as [canvas time stamp shuffled ds rest g g' _ _ Hu| |].
  - apply update_spec in Hu as [Hk|(gf & mid & used & Hk & _ & Hr)].
    + pose proof Hk as (_ & _ & G & _). split; [lia|auto].
    + apply handleGenerationEnd_record in Hr as (? & ? & ? & _ & _ & _ & G & _).
      destruct Hk as (_ & _ & Gk & _). cbn in G. split; [lia|].
      intros _ E. lia.
  - split; [reflexivity|]. intros [].
  - split; [reflexivity|]. intros [].
Qed.

Lemma happens_record (e : event) (g g' : GameData.t) :
  happens e g g' -> recordKeptOrRaised g g'.
Proof.
  intros H. destruct H as [canvas time stamp shuffled ds rest g g' _ _ Hu| |].
  - apply update_spec in Hu as [Hk|(gf & mid & used & Hk & _ & Hr)].
    + destruct Hk as (F & W & _). now left.
    + apply handleGenerationEnd_record in Hr
        as (bestIdx & best & w & _ & _ & _ & _ & F & W).
      destruct Hk as (Fk & Wk & _). cbn in F, W.
      destruct (JS.gt _ _) eqn:E.
      * right. rewrite F, <- Fk. exact E.
      * left. split; congruence.
  - now left.
  - now left.
Qed.

Lemma happens_population (e : event) (g g' : GameData.t) :
  happens e g g' ->
  popOk g = true ->
  popOk g' = true
  /\ length (GameData.networks g') = length (GameData.networks g).
Proof.
  intros H Hpop.
  destruct H as [canvas time stamp shuffled ds rest g g' Hperm Hds Hu| |].
  - apply update_spec in Hu as [Hk|(gf & mid & used & Hk & Hused & Hr)].
    + destruct Hk as (_ & _ & _ & L & P & _). auto.
    + destruct Hk as (_ & _ & _ & L & P & _).
      set (gr := GameData.with_crashed true (GameData.with_playing false gf)) in *.
      assert (Hpr : popOk gr = true) by (apply P; exact Hpop).
      assert (Hperm' : Permutation shuffled
                         (seq 0 (length (GameData.networks gr))))
        by (cbn; now rewrite L).
      subst ds. apply Forall_suffix in Hds.
      destruct (runs_handleGenerationEnd shuffled gr Hpr Hperm' mid Hds)
        as (_ & Hok & _).
      destruct (Hok g' rest Hr) as [(Ln & _ & _ & Pn & _) _].
      split; [assumption|]. cbn in Ln. congruence.
  - split; [exact Hpop|reflexivity].
  - split; [exact Hpop|reflexivity].
Qed.

Lemma plays_record (es : list event) (g g' : GameData.t) :
  plays es g g' -> recordKeptOrRaised g g'.
Proof.
  induction 1 as [g|e es g g1 g' He _ IH].
  - now left.
  - eapply recordKeptOrRaised_trans; [eapply happens_record; eassumption|exact IH].
Qed.

Lemma plays_population (es : list event) (g g' : GameData.t) :
  plays es g g' ->
  popOk g = true ->
  popOk g' = true
  /\ length (GameData.networks g') = length (GameData.networks g).
Proof.
  induction 1 as [g|e es g g1 g' He _ IH]; intros Hpop.
  - now split.
  - destruct (happens_population e g g1 He Hpop) as [P1 L1].
    destruct (IH P1) as [P2 L2]. split; [assumption|congruence].
Qed.

Lemma plays_frames (es : list event) (g g' : GameData.t) :
  plays es g g' ->
  Forall isUpdate es ->
  GameData.generation g <= GameData.generation g'
  /\ (GameData.generation g' = GameData.generation g -> frameKeeps g g').
Proof.
  induction 1 as [g|e es g g1 g' He _ IH]; intros Hall.
  - split; [reflexivity|]. intros _. apply frameKeeps_refl.
  - inversion Hall as [|? ? Hu Hrest]; subst.
    destruct (happens_generation e g g1 He) as [G1 K1].
    destruct (IH Hrest) as [G2 K2].
    split; [lia|]. intros E.
    eapply frameKeeps_trans; [apply K1; [assumption|lia]|apply K2; lia].
Qed.

(** C5.  From a population of [n >= 1] networks with one fitness each, the
    rollover throws nothing, returns a state with exactly [n] networks
    whenever it returns, and does return when it is given [rolloverCost n]
    draws none of which is zero; and after any sequence of frames, starts
    and restarts, whatever rollovers they contain, the population still
    has [n] networks. *)
Theorem population_size_constant (g : GameData.t) :
  popOk g = true ->
  (forall shuffledIndices,
      Permutation shuffledIndices (seq 0 (length (GameData.networks g))) ->
      runs (rolloverCost (length (GameData.networks g)))
        (fun g' => length (GameData.networks g') = length (GameData.networks g)
                   /\ popOk g' = true)
        (TRexGame.handleGenerationEnd shuffledIndices g))
  /\ (forall es g',
        plays es g g' ->
        length (GameData.networks g') = length (GameData.networks g)
        /\ popOk g' = true).
Proof.
  intros Hpop. split.
  - intros shuffled Hperm.
    eapply runs_weaken; [apply runs_handleGenerationEnd; eassumption|lia|].
    intros g' (L & _ & _ & P & _). now split.
  - intros es g' Hplays.
    destruct (plays_population es g g' Hplays Hpop). now split.
Qed.

(** C6 (amended).  After a rollover from a population as above, slot 0 of
    the new population holds a network of the same architecture whose
    weights are those of the network ranked first by fitness in the old
    one; when the fitness scores are finite, no score exceeds the score of
    that network. *)
Theorem elite_in_slot_0 (shuffledIndices : list nat) (g g' : GameData.t)
    (ds rest : list Q) :
  popOk g = true ->
  Permutation shuffledIndices (seq 0 (length (GameData.networks g))) ->
  Forall unitDraw ds ->
  TRexGame.handleGenerationEnd shuffledIndices g ds = Ok g' rest ->
  exists bestIdx best elite,
    nth_error (TRexGame.rankedIndices (GameData.fitness g)) 0 = Some bestIdx
    /\ nth_error (GameData.networks g) bestIdx = Some best
    /\ nth_error (GameData.networks g') 0 = Some elite
    /\ Network.getWeights elite = Network.getWeights best
    /\ wellShaped elite = true
    /\ architecture elite = architecture best
    /\ (Forall (fun f => JS.isFinite f = true) (GameData.fitness g) ->
        forall i, i < length (GameData.fitness g) ->
                  JS.ge (JS.get (GameData.fitness g) bestIdx)
                        (JS.get (GameData.fitness g) i) = true).
Proof.
  intros Hpop Hperm Hds Hr.
  destruct (runs_handleGenerationEnd shuffledIndices g Hpop Hperm ds Hds)
    as (_ & Hok & _).
  destruct (Hok g' rest Hr) as [(_ & _ & _ & P & R) _].
  destruct R as (bestIdx & best & w & elite & others & Eb & En & Gw & Nn & Ge & _).
  exists bestIdx, best, elite.
  split; [assumption|]. split; [assumption|].
  rewrite Nn. split; [reflexivity|]. split; [congruence|].
  apply popOk_spec in P as (_ & _ & Hall), Hpop as (_ & _ & Hall0).
  rewrite Nn in Hall. inversion Hall as [|? ? He _]; subst.
  apply okNet_spec in He as [We Ae].
  rewrite Forall_forall in Hall0.
  pose proof (Hall0 best (nth_error_In _ _ En)) as Hb.
  apply okNet_spec in Hb as [_ Ab]. split; [assumption|].
  split; [congruence|]. intros Hfin. now apply rankedIndices_max.
Qed.

(** C7.  Along any sequence of events the best-ever record is as it was or
    its fitness is strictly greater; and a rollover replaces it exactly
    when the fitness of the network it ranks first strictly exceeds the
    stored one, by that fitness and that network's weights. *)
Theorem bestFitness_never_decreases (es : list event) (g g' : GameData.t) :
  plays es g g' ->
  ((GameData.bestFitness g' = GameData.bestFitness g
    /\ GameData.bestWeights g' = GameData.bestWeights g)
   \/ JS.gt (GameData.bestFitness g') (GameData.bestFitness g) = true)
  /\ (forall shuffledIndices ds g'' rest,
        TRexGame.handleGenerationEnd shuffledIndices g' ds = Ok g'' rest ->
        exists bestIdx best w,
          nth_error (TRexGame.rankedIndices (GameData.fitness g')) 0 = Some bestIdx
          /\ nth_error (GameData.networks g') bestIdx = Some best
          /\ Network.getWeights best = Return w
          /\ (JS.gt (JS.get (GameData.fitness g') bestIdx) (GameData.bestFitness g')
              = true ->
              GameData.bestFitness g'' = JS.get (GameData.fitness g') bestIdx
              /\ GameData.bestWeights g'' = Some w)
          /\ (JS.gt (JS.get (GameData.fitness g') bestIdx) (GameData.bestFitness g')
              = false ->
              GameData.bestFitness g'' = GameData.bestFitness g'
              /\ GameData.bestWeights g'' = GameData.bestWeights g')).
Proof.
  intros Hplays. split; [exact (plays_record es g g' Hplays)|].
  intros shuffled ds g'' rest Hr.
  apply handleGenerationEnd_record in Hr
    as (bestIdx & best & w & Eb & En & Gw & _ & F & W).
  exists bestIdx, best, w.
  split; [assumption|]. split; [assumption|]. split; [assumption|].
  split; intros E; rewrite E in F, W; now split.
Qed.

(** C8.  Over any sequence of frames within one generation, an agent that
    is dead stays dead and its fitness is not written. *)
Theorem dead_agent_fitness_frozen (es : list event) (g g' : GameData.t) (i : nat) :
  plays es g g' ->
  Forall isUpdate es ->
  GameData.generation g' = GameData.generation g ->
  deadAt g i ->
  deadAt g' i
  /\ JS.get (GameData.fitness g') i = JS.get (GameData.fitness g) i.
Proof.
  intros Hplays Hall Hgen Hdead.
  destruct (plays_frames es g g' Hplays Hall) as [_ Hk].
  destruct (Hk Hgen) as (_ & _ & _ & _ & _ & Hd). now apply Hd.
Qed.

End EventProofs.

Lemma halves_unit (n : nat) : Forall unitDraw (halves n).
Proof.
  apply Forall_forall. intros d Hd. apply repeat_spec in Hd. subst d.
  split; [discriminate|reflexivity].
Qed.

Lemma plays_exampleFrame :
  @plays exampleMath [exampleFrame 4] (exampleGame true false) afterFrame.
Proof.
  eapply plays_cons; [|apply plays_nil].
  apply happens_update with (rest := halves 4).
  - apply Permutation_refl.
  - apply halves_unit.
  - vm_compute. reflexivity.
Qed.

Lemma plays_exampleRollover :
  @plays exampleMath [exampleFrame 600] (exampleGame false false) afterRollover.
Proof.
  eapply plays_cons; [|apply plays_nil].
  apply happens_update with (rest := halves 56).
  - apply Permutation_refl.
  - apply halves_unit.
  - vm_compute. reflexivity.
Qed.

Lemma population_size_constant_witness :
  popOk (exampleGame false false) = true
  /\ length (GameData.networks afterRollover) = 2
  /\ popOk afterRollover = true.
Proof.
  split; [reflexivity|].
  destruct (@population_size_constant exampleMath (exampleGame false false)
              eq_refl) as [_ H].
  exact (H [exampleFrame 600] afterRollover plays_exampleRollover).
Defined.

Lemma elite_in_slot_0_witness :
  exists g' rest bestIdx best elite,
    @TRexGame.handleGenerationEnd exampleMath [0; 1] (exampleGame false false)
      (halves 600) = Ok g' rest
    /\ nth_error (TRexGame.rankedIndices (GameData.fitness (exampleGame false false))) 0
       = Some bestIdx
    /\ nth_error (GameData.networks (exampleGame false false)) bestIdx = Some best
    /\ nth_error (GameData.networks g') 0 = Some elite
    /\ Network.getWeights elite = Network.getWeights best
    /\ wellShaped elite = true
    /\ architecture elite = architecture best
    /\ JS.ge (JS.get (GameData.fitness (exampleGame false false)) bestIdx)
             (JS.get (GameData.fitness (exampleGame false false)) 0) = true.
Proof.
  set (g' := resultOr (exampleGame false false)
               (@TRexGame.handleGenerationEnd exampleMath [0; 1]
                  (exampleGame false false) (halves 600))).
  assert (Hr : @TRexGame.handleGenerationEnd exampleMath [0; 1]
                 (exampleGame false false) (halves 600) = Ok g' (halves 56))
    by (vm_compute; reflexivity).
  destruct (@elite_in_slot_0 exampleMath [0; 1] (exampleGame false false) g'
              (halves 600) (halves 56) eq_refl (Permutation_refl _)
              (halves_unit 600) Hr)
    as (bestIdx & best & elite & H1 & H2 & H3 & H4 & H5 & H6 & H7).
  exists g', (halves 56), bestIdx, best, elite.
  repeat (split; [assumption|]).
  apply H7; [repeat constructor|cbn; lia].
Defined.

(** C6, as the spec has it, fails.  Of two networks the second has the
    greater fitness.  With every draw one half, both tournaments pick it,
    both parents of the one child are its clones, and no weight of the
    child is mutated: slot 1 of the next population holds the same weights
    as the elite in slot 0. *)
Lemma elite_copy_not_unique_counterexample :
  popOk (exampleGame false false) = true
  /\ Forall unitDraw (halves 600)
  /\ forall ML : MathLib,
     exists g' rest elite other,
       @TRexGame.handleGenerationEnd ML [0; 1] (exampleGame false false)
         (halves 600) = Ok g' rest
       /\ nth_error (TRexGame.rankedIndices (GameData.fitness (exampleGame false false))) 0
          = Some 1
       /\ GameData.networks g' = [elite; other]
       /\ Network.getWeights elite = Network.getWeights (constantNetwork (Num (1 # 2)))
       /\ Network.getWeights other = Network.getWeights elite.
Proof.
  split; [reflexivity|]. split; [apply halves_unit|]. intros ML.
  pose (r := @TRexGame.handleGenerationEnd ML [0; 1] (exampleGame false false)
               (halves 600)).
  assert (Hr : @TRexGame.handleGenerationEnd ML [0; 1] (exampleGame false false)
                 (halves 600) = r) by reflexivity.
  vm_compute in r.
  match eval cbv delta [r] in r with
  | Ok ?g ?rest =>
      match eval cbv in (GameData.networks g) with
      | [?elite; ?other] => exists g, rest, elite, other
      end
  end.
  split; [exact Hr|]. split; [reflexivity|]. split; [reflexivity|].
  split; vm_compute; reflexivity.
Qed.

Lemma bestFitness_never_decreases_witness :
  @plays exampleMath [exampleFrame 600] (exampleGame false false) afterRollover
  /\ JS.gt (GameData.bestFitness afterRollover)
           (GameData.bestFitness (exampleGame false false)) = true.
Proof.
  split; [exact plays_exampleRollover|].
  destruct (@bestFitness_never_decreases exampleMath [exampleFrame 600]
              (exampleGame false false) afterRollover plays_exampleRollover)
    as [[[H _]|H] _].
  - vm_compute in H. discriminate H.
  - exact H.
Defined.

Lemma dead_agent_fitness_frozen_witness :
  deadAt (exampleGame true false) 1
  /\ deadAt afterFrame 1
  /\ JS.get (GameData.fitness afterFrame) 1
     = JS.get (GameData.fitness (exampleGame true false)) 1.
Proof.
  assert (Hd : deadAt (exampleGame true false) 1)
    by (eexists; split; reflexivity).
  split; [exact Hd|].
  apply (@dead_agent_fitness_frozen exampleMath [exampleFrame 4]
           (exampleGame true false) afterFrame 1).
  - exact plays_exampleFrame.
  - repeat constructor.
  - vm_compute. reflexivity.
  - exact Hd.
Defined.

(* ------------------------------------------------------------------------- *)
(** * Collisions *)

Lemma finePhase_spec (tRex : TRex.t) (obstacle : Obstacle.t)
    (pairs tested : list (Box.t * Box.t)) :
  (snd (TRexGame.finePhase tRex obstacle pairs tested) = true ->
   exists before p after,
     pairs = before ++ p :: after
     /\ fst (TRexGame.finePhase tRex obstacle pairs tested)
        = tested ++ before ++ [p]
     /\ overlapsAt tRex obstacle p = true
     /\ forallb (fun q => negb (overlapsAt tRex obstacle q)) before = true)
  /\ (snd (TRexGame.finePhase tRex obstacle pairs tested) = false ->
      fst (TRexGame.finePhase tRex obstacle pairs tested) = tested ++ pairs
      /\ forallb (fun q => negb (overlapsAt tRex obstacle q)) pairs = true).
Proof.
  revert tested. induction pairs as [|[tRexBox obstBox] pairs IH]; intros tested.
  - cbn. split; [discriminate|]. intros _. now rewrite app_nil_r.
  - cbn [TRexGame.finePhase].
    destruct (TRexGame.overlap _ _) eqn:E.
    + cbn. split; [|discriminate]. intros _.
      exists [], (tRexBox, obstBox), pairs. cbn. repeat split. exact E.
    + destruct (IH (tested ++ [(tRexBox, obstBox)])) as [Hhit Hmiss]. split.
      * intros Hs. destruct (Hhit Hs) as (before & p & after & -> & Hf & Hp & Hb).
        exists ((tRexBox, obstBox) :: before), p, after.
        split; [reflexivity|]. split; [rewrite Hf, <- app_assoc; reflexivity|].
        split; [exact Hp|]. cbn. unfold overlapsAt at 1. cbn. rewrite E. exact Hb.
      * intros Hs. destruct (Hmiss Hs) as [Hf Hb].
        split; [rewrite Hf, <- app_assoc; reflexivity|].
        cbn. unfold overlapsAt at 1. cbn. rewrite E. exact Hb.
Qed.

Lemma forallb_not_In (tRex : TRex.t) (obstacle : Obstacle.t)
    (p : Box.t * Box.t) (l : list (Box.t * Box.t)) :
  forallb (fun q => negb (overlapsAt tRex obstacle q)) l = true ->
  overlapsAt tRex obstacle p = true ->
  ~ In p l.
Proof.
  intros Hall Hp Hin. rewrite forallb_forall in Hall.
  specialize (Hall p Hin). rewrite Hp in Hall. discriminate.
Qed.

(** The agents keep their status through the collision check. *)
Lemma checkOneTRex_status (obstacle : Obstacle.t) (obstBoxes : list Box.t)
    (tRex : TRex.t) :
  TRex.status (fst (TRexGame.checkOneTRex obstacle obstBoxes tRex))
  = TRex.status tRex.
Proof.
  unfold TRexGame.checkOneTRex.
  destruct (negb (TRex.alive tRex)); [reflexivity|].
  destruct Config.ENABLE_NOCLIP; [reflexivity|].
  destruct (TRexGame.overlap _ _); [|reflexivity].
  destruct (TRexGame.finePhase _ _ _ _) as [tested []]; reflexivity.
Qed.

Lemma checkCollisions_status (g : GameData.t) :
  map TRex.status (GameData.tRexes (TRexGame.checkCollisions g))
  = map TRex.status (GameData.tRexes g).
Proof.
  unfold TRexGame.checkCollisions.
  destruct (GameData.obstacles g) as [|obstacle others]; [reflexivity|].
  destruct (negb (Obstacle.remove obstacle)); [|reflexivity].
  cbn. rewrite map_map. apply map_ext. intros tRex. apply checkOneTRex_status.
Qed.

(** C3 (amended).  When the collision check of a frame finds, for an agent,
    a pair of sub-boxes that overlap, the agent is left with its [alive]
    flag false and every other field as it was, its status among them; the
    pair is the last one tested for it, and none tested before overlapped. *)
Theorem collision_kills_agent (g : GameData.t) (obstacle : Obstacle.t)
    (others : list Obstacle.t) (i : nat) (tRex : TRex.t) (p : Box.t * Box.t) :
  GameData.obstacles g = obstacle :: others ->
  Obstacle.remove obstacle = false ->
  nth_error (GameData.tRexes g) i = Some tRex ->
  In p (snd (TRexGame.checkOneTRex obstacle
               (TRexGame.collisionBoxesOf (GameData.obstacleTypes g) obstacle)
               tRex)) ->
  overlapsAt tRex obstacle p = true ->
  nth_error (GameData.tRexes (TRexGame.checkCollisions g)) i
  = Some (TRex.with_alive false tRex)
  /\ TRex.status (TRex.with_alive false tRex) = TRex.status tRex
  /\ exists before after,
       snd (TRexGame.checkOneTRex obstacle
              (TRexGame.collisionBoxesOf (GameData.obstacleTypes g) obstacle)
              tRex)
       = before ++ [p]
       /\ TRexGame.boxPairs
            (if TRex.ducking tRex then Config.TREX_COLLISION_BOXES.DUCKING
             else Config.TREX_COLLISION_BOXES.RUNNING)
            (TRexGame.collisionBoxesOf (GameData.obstacleTypes g) obstacle)
          = before ++ [p] ++ after
       /\ forallb (fun q => negb (overlapsAt tRex obstacle q)) before = true.
Proof.
  intros Hobs Hrem Hnth Hin Hp.
  unfold TRexGame.checkCollisions. rewrite Hobs, Hrem. cbn [negb].
  cbn [GameData.tRexes GameData.with_tRexes].
  rewrite nth_error_map, Hnth. cbn [option_map].
  set (obstBoxes := TRexGame.collisionBoxesOf (GameData.obstacleTypes g) obstacle) in *.
  revert Hin. unfold TRexGame.checkOneTRex.
  destruct (negb (TRex.alive tRex)); [intros []|].
  change Config.ENABLE_NOCLIP with false. cbv iota.
  destruct (TRexGame.overlap _ _); [|intros []].
  pose proof (finePhase_spec tRex obstacle
                (TRexGame.boxPairs
                   (if TRex.ducking tRex then Config.TREX_COLLISION_BOXES.DUCKING
                    else Config.TREX_COLLISION_BOXES.RUNNING) obstBoxes) [])
    as [Hhit Hmiss].
  destruct (TRexGame.finePhase _ _ _ _) as [tested hit]. cbn [fst snd] in *.
  destruct hit; cbn [fst snd]; intros Hin.
  - destruct (Hhit eq_refl) as (before & p' & after & Hpairs & Ht & Hp' & Hb).
    cbn [app] in Ht. subst tested.
    apply in_app_or in Hin as [Hin|[<-|[]]].
    + exfalso. exact (forallb_not_In _ _ _ _ Hb Hp Hin).
    + split; [reflexivity|]. split; [reflexivity|].
      exists before, after. split; [reflexivity|]. split; [exact Hpairs|exact Hb].
  - destruct (Hmiss eq_refl) as [Ht Hb]. cbn [app] in Ht. subst tested.
    exfalso. exact (forallb_not_In _ _ _ _ Hb Hp Hin).
Qed.

Lemma collision_kills_agent_witness :
  exists p before,
    In p (snd (TRexGame.checkOneTRex (exampleCactus 10)
                 (TRexGame.collisionBoxesOf Config.OBSTACLE_TYPES (exampleCactus 10))
                 (exampleTRex 0 true)))
    /\ overlapsAt (exampleTRex 0 true) (exampleCactus 10) p = true
    /\ nth_error (GameData.tRexes (TRexGame.checkCollisions (cactusGame 10))) 0
       = Some (TRex.with_alive false (exampleTRex 0 true))
    /\ snd (TRexGame.checkOneTRex (exampleCactus 10)
              (TRexGame.collisionBoxesOf Config.OBSTACLE_TYPES (exampleCactus 10))
              (exampleTRex 0 true))
       = before ++ [p]
    /\ forallb (fun q => negb (overlapsAt (exampleTRex 0 true) (exampleCactus 10) q))
         before = true.
Proof.
  pose (p := (Config.box 1 18 30 9, Config.box 0 7 5 27)).
  assert (Hin : In p (snd (TRexGame.checkOneTRex (exampleCactus 10)
                 (TRexGame.collisionBoxesOf Config.OBSTACLE_TYPES (exampleCactus 10))
                 (exampleTRex 0 true)))).
  { vm_compute. auto. }
  assert (Hp : overlapsAt (exampleTRex 0 true) (exampleCactus 10) p = true)
    by (vm_compute; reflexivity).
  destruct (collision_kills_agent (cactusGame 10) (exampleCactus 10) [] 0
              (exampleTRex 0 true) p eq_refl eq_refl eq_refl Hin Hp)
    as (Hk & _ & before & after & Ht & _ & Hb).
  exists p, before.
  split; [exact Hin|]. split; [exact Hp|]. split; [exact Hk|].
  split; [exact Ht|exact Hb].
Defined.

(** C3, as the spec has it, fails.  An agent running at the start position
    meets a small cactus ten pixels ahead: the check finds overlapping
    sub-boxes and clears [alive], and the status of the agent is still
    [RUNNING], not [CRASHED]. *)
Lemma collision_status_counterexample :
  exists tRex' p,
    TRex.alive (exampleTRex 0 true) = true
    /\ TRex.status (exampleTRex 0 true) = RUNNING
    /\ In p (snd (TRexGame.checkOneTRex (exampleCactus 10)
                    (TRexGame.collisionBoxesOf Config.OBSTACLE_TYPES (exampleCactus 10))
                    (exampleTRex 0 true)))
    /\ overlapsAt (exampleTRex 0 true) (exampleCactus 10) p = true
    /\ nth_error (GameData.tRexes (TRexGame.checkCollisions (cactusGame 10))) 0
       = Some tRex'
    /\ TRex.alive tRex' = false
    /\ TRex.status tRex' = RUNNING
    /\ TRex.status tRex' <> CRASHED.
Proof.
  exists (TRex.with_alive false (exampleTRex 0 true)),
         (Config.box 1 18 30 9, Config.box 0 7 5 27).
  split; [reflexivity|]. split; [reflexivity|].
  split; [vm_compute; auto|]. split; [vm_compute; reflexivity|].
  split; [vm_compute; reflexivity|]. split; [reflexivity|].
  split; [reflexivity|discriminate].
Qed.

(* ------------------------------------------------------------------------- *)
(** * Feature 11 and the shared previous distance *)

Lemma getGameInputsForNN_dDistance (g : GameData.t) (tRex : TRex.t)
    (ob : Obstacle.t) (d : Q) :
  TRexGame.GameInputs.dDistance
    (fst (TRexGame.getGameInputsForNN g tRex (Some ob, Num d)))
  = deltaFeature
      (if JS.isNumber (GameData.prevDist g) then GameData.prevDist g else Num d)
      (Num d)
  /\ snd (TRexGame.getGameInputsForNN g tRex (Some ob, Num d))
     = GameData.with_prevDist (Num d) g.
Proof.
  unfold TRexGame.getGameInputsForNN. cbn. split; reflexivity.
Qed.

Section DeltaProofs.
Context {ML : MathLib}.

(** What the control step of a live agent leaves in its network's cache
    and in [_prevDist]: what [getGameInputsForNN] computed and wrote. *)
Lemma controlTRex_inputs (deltaTime : number) (closest : option Obstacle.t)
    (dist : number) (g g' : GameData.t) (i : nat) (tRex : TRex.t) :
  nth_error (GameData.tRexes g) i = Some tRex ->
  TRex.alive tRex = true ->
  TRexGame.controlTRex deltaTime closest dist g i = Return g' ->
  lastDDistance g' i
  = TRexGame.GameInputs.dDistance
      (fst (TRexGame.getGameInputsForNN g tRex (closest, dist)))
  /\ GameData.prevDist g'
     = GameData.prevDist (snd (TRexGame.getGameInputsForNN g tRex (closest, dist))).
Proof.
  intros Hn Ha. unfold TRexGame.controlTRex. rewrite Hn, Ha. cbn [negb].
  destruct (getGameInputsForNN_state g tRex (closest, dist)) as [prev Eg].
  destruct (TRexGame.getGameInputsForNN g tRex (closest, dist))
    as [gameInputs g1].
  cbn [fst snd] in *. subst g1.
  cbn [GameData.networks GameData.with_prevDist].
  destruct (nth_error (GameData.networks g) i) as [net|] eqn:EN; [|discriminate].
  destruct (Network.predict net _) as [[outputs net']|] eqn:EP; [|discriminate].
  cbn [Res.bind]. intros H.
  apply predict_fields in EP as (_ & _ & _ & _ & _ & _ & _ & Hl).
  assert (Hi : i < length (GameData.networks g))
    by (apply nth_error_Some; congruence).
  assert (Hg : forall r, Return r = Return g' -> r = g')
    by (intros r Hr; congruence).
  apply Hg in H. subst g'. clear Hg.
  unfold lastDDistance.
  match goal with
  | |- context [match ?r with Some v => _ | None => _ end] =>
      match r with
      | TRexGame.actionReward _ _ _ _ _ => destruct r as [reward|]
      end
  end;
    cbn [TRexGame.addFitness TRexGame.passReward TRexGame.putTRex
         GameData.networks GameData.prevDist GameData.with_fitness
         GameData.with_obstacles GameData.with_tRexes GameData.with_networks
         GameData.with_prevDist];
    rewrite (set_nth_error_same net' (GameData.networks g) i net'), Hl;
    split; reflexivity.
Qed.

(** With an obstacle ahead, that is the difference between the distance in
    [_prevDist], whoever wrote it, and the present one; and the present one
    is left in [_prevDist]. *)
Lemma controlTRex_dDistance (deltaTime : number) (ob : Obstacle.t) (d : Q)
    (g g' : GameData.t) (i : nat) (tRex : TRex.t) :
  nth_error (GameData.tRexes g) i = Some tRex ->
  TRex.alive tRex = true ->
  TRexGame.controlTRex deltaTime (Some ob) (Num d) g i = Return g' ->
  lastDDistance g' i
  = deltaFeature
      (if JS.isNumber (GameData.prevDist g) then GameData.prevDist g else Num d)
      (Num d)
  /\ GameData.prevDist g' = Num d.
Proof.
  intros Hn Ha H.
  destruct (controlTRex_inputs _ _ _ _ _ _ _ Hn Ha H) as [D P].
  destruct (getGameInputsForNN_dDistance g tRex ob d) as [Hd Hs].
  rewrite D, P, Hd, Hs. split; reflexivity.
Qed.

Lemma deltaFeature_same (d : Q) :
  exists q, deltaFeature (Num d) (Num d) = Num q /\ (q == 0)%Q.
Proof.
  exists ((d + - d) * 60 / 600)%Q.
  assert (E : ((d + - d) * 60 / 600 == 0)%Q) by field.
  split; [|exact E].
  unfold deltaFeature, JS.sub, JS.neg, JS.add, JS.mul, Config.FPS, JS.div.
  change (Qeq_bool 600 0) with false. cbv iota.
  unfold JS.min, JS.max, JS.isNaN, JS.lt. cbn [orb].
  assert (L1 : Qle_bool 1 ((d + - d) * 60 / 600) = false).
  { destruct (Qle_bool 1 _) eqn:B; [|reflexivity].
    apply Qle_bool_iff in B. rewrite E in B. exfalso. apply B. reflexivity. }
  rewrite L1. cbn [negb].
  assert (L2 : Qle_bool ((d + - d) * 60 / 600) (-1) = false).
  { destruct (Qle_bool _ (-1)) eqn:B; [|reflexivity].
    apply Qle_bool_iff in B. rewrite E in B. exfalso. apply B. reflexivity. }
  rewrite L2. reflexivity.
Qed.

(** Of two live agents handled one after the other in a frame with an
    obstacle ahead, the second is given a feature 11 of zero, whatever the
    distance was a frame before. *)
Lemma later_agent_dDistance_zero (deltaTime : number) (ob : Obstacle.t)
    (d : Q) (g g1 g2 : GameData.t) (i j : nat) (a b : TRex.t) :
  nth_error (GameData.tRexes g) i = Some a -> TRex.alive a = true ->
  nth_error (GameData.tRexes g1) j = Some b -> TRex.alive b = true ->
  TRexGame.controlTRex deltaTime (Some ob) (Num d) g i = Return g1 ->
  TRexGame.controlTRex deltaTime (Some ob) (Num d) g1 j = Return g2 ->
  exists q, lastDDistance g2 j = Num q /\ (q == 0)%Q.
Proof.
  intros Hi Ha Hj Hb H1 H2.
  destruct (controlTRex_dDistance _ _ _ _ _ _ _ Hi Ha H1) as [_ P1].
  destruct (controlTRex_dDistance _ _ _ _ _ _ _ Hj Hb H2) as [D2 _].
  rewrite P1 in D2. cbn [JS.isNumber] in D2. rewrite D2.
  apply deltaFeature_same.
Qed.

End DeltaProofs.

(** C4, evaluated.  Two live agents stand at the same place, 200 pixels
    before a cactus.  Over two frames the cactus comes 5 pixels nearer
    each, for both alike.  In the second frame the network of agent 0 is
    given feature 11 = (200 - 195) * 60 / 600 = 1/2, and the network of
    agent 1 is given 0: the previous distance it is compared with is the
    one agent 0 wrote in the same frame. *)
Theorem dDistance_depends_on_agent_order :
  map TRex.alive (GameData.tRexes (cactusGame 200)) = [true; true]
  /\ map TRex.xPos (GameData.tRexes (cactusGame 200)) = [Num 50; Num 50]
  /\ map TRex.alive (GameData.tRexes (afterTwoFrames (cactusGame 200)))
     = [true; true]
  /\ map TRex.xPos (GameData.tRexes (afterTwoFrames (cactusGame 200)))
     = [Num 50; Num 50]
  /\ map Obstacle.xPos (GameData.obstacles (afterTwoFrames (cactusGame 200)))
     = [Num 240]
  /\ lastDDistance (afterTwoFrames (cactusGame 200)) 0 = Num (300 # 600)
  /\ deltaFeature (Num 200) (Num 195) = Num (300 # 600)
  /\ lastDDistance (afterTwoFrames (cactusGame 200)) 1 = Num (0 # 600).
Proof.
  vm_compute. repeat split.
Qed.

(* ------------------------------------------------------------------------- *)
(** * The status [CRASHED] is never assigned *)

Lemma Status_eqb_eq (a b : Status) : Status_eqb a b = true <-> a = b.
Proof. destruct a, b; cbn; split; congruence. Qed.

Lemma updateTRexStatus_status (tRex : TRex.t) (status : Status) :
  TRex.status (TRexGame.updateTRexStatus tRex status) = status.
Proof.
  unfold TRexGame.updateTRexStatus.
  destruct (Status_eqb (TRex.status tRex) status) eqn:E; cbn; [|reflexivity].
  now apply Status_eqb_eq.
Qed.

Lemma startTRexJump_notCrashed (currentSpeed : number) (tRex : TRex.t) :
  notCrashed tRex -> notCrashed (TRexGame.startTRexJump currentSpeed tRex).
Proof.
  unfold notCrashed, TRexGame.startTRexJump. intros H.
  destruct (_ && _); [|exact H]. cbn. rewrite updateTRexStatus_status.
  discriminate.
Qed.

Lemma updateTRexJump_notCrashed (stamp deltaTime : number) (tRex : TRex.t) :
  notCrashed tRex -> notCrashed (TRexGame.updateTRexJump stamp deltaTime tRex).
Proof.
  unfold notCrashed, TRexGame.updateTRexJump. cbv zeta. intros H.
  destruct (JS.ge _ _).
  - rewrite updateTRexStatus_status. discriminate.
  - unfold TRexGame.endTRexJump.
    repeat match goal with
           | |- context [if ?b then _ else _] => destruct b
           end; exact H.
Qed.

Lemma updateOneTRex_notCrashed (stamp deltaTime : number) (tRex : TRex.t) :
  notCrashed tRex -> notCrashed (TRexGame.updateOneTRex stamp deltaTime tRex).
Proof.
  unfold TRexGame.updateOneTRex. cbv zeta. intros H.
  destruct (negb _); [exact H|].
  destruct (TRex.jumping _).
  - apply updateTRexJump_notCrashed. destruct (JS.ge _ _); exact H.
  - destruct (JS.ge _ _); exact H.
Qed.

Lemma applyAction_notCrashed (currentSpeed : number)
    (closest : option Obstacle.t) (dist : number) (actionIdx : nat)
    (tRex : TRex.t) :
  notCrashed tRex ->
  notCrashed (TRexGame.applyAction currentSpeed closest dist actionIdx tRex).
Proof.
  unfold TRexGame.applyAction. cbv zeta. intros H.
  destruct (_ && _ && _); [now apply startTRexJump_notCrashed|].
  destruct (_ && _).
  { destruct closest; [|exact H]. unfold notCrashed.
    rewrite updateTRexStatus_status. discriminate. }
  destruct (_ && _).
  { destruct closest; [|exact H]. destruct (_ && _); exact H. }
  destruct (_ && _); [|exact H].
  destruct (TRex.ducking tRex); [|exact H].
  assert (R : forall t, notCrashed (TRexGame.updateTRexStatus t RUNNING)).
  { intros t. unfold notCrashed. rewrite updateTRexStatus_status. discriminate. }
  destruct (match TRex.duckUntilX tRex with Some _ => _ | None => _ end);
    [apply R|].
  destruct (_ || _); [apply R|exact H].
Qed.

Lemma Forall_set {A : Type} (P : A -> Prop) (hole : A) (l : list A) (i : nat)
    (v : A) :
  Forall P l -> P v -> i < length l -> Forall P (JS.set hole l i v).
Proof.
  revert i; induction l as [|x l IH]; intros [|i] Hl Hv Hi; cbn in *; try lia.
  - inversion Hl; subst. now constructor.
  - inversion Hl; subst. constructor; [assumption|]. apply IH; auto. lia.
Qed.

Section StatusProofs.
Context {ML : MathLib}.

Lemma controlTRex_noneCrashed (deltaTime : number) (closest : option Obstacle.t)
    (dist : number) (g g' : GameData.t) (i : nat) :
  TRexGame.controlTRex deltaTime closest dist g i = Return g' ->
  noneCrashed g -> noneCrashed g'.
Proof.
  unfold TRexGame.controlTRex, noneCrashed.
  destruct (nth_error (GameData.tRexes g) i) as [tRex|] eqn:ET; [|discriminate].
  destruct (negb (TRex.alive tRex)).
  { intros H. assert (E : g = g') by congruence. now subst. }
  destruct (getGameInputsForNN_state g tRex (closest, dist)) as [prev Eg].
  destruct (TRexGame.getGameInputsForNN g tRex (closest, dist))
    as [gameInputs g1].
  cbn [fst snd] in *. subst g1.
  cbn [GameData.networks GameData.with_prevDist].
  destruct (nth_error (GameData.networks g) i) as [net|]; [|discriminate].
  destruct (Network.predict net _) as [[outputs net']|]; [|discriminate].
  cbn [Res.bind]. intros H Hall.
  assert (Hg : forall r, Return r = Return g' -> r = g')
    by (intros r Hr; congruence).
  apply Hg in H. subst g'. clear Hg.
  assert (Hi : i < length (GameData.tRexes g))
    by (apply nth_error_Some; congruence).
  assert (Ht : notCrashed tRex).
  { rewrite Forall_forall in Hall. apply Hall. eapply nth_error_In; eassumption. }
  match goal with
  | |- context [match ?r with Some v => _ | None => _ end] =>
      match r with
      | TRexGame.actionReward _ _ _ _ _ => destruct r as [reward|]
      end
  end;
    cbn [TRexGame.addFitness TRexGame.passReward TRexGame.putTRex
         GameData.networks GameData.prevDist GameData.with_fitness
         GameData.with_obstacles GameData.with_tRexes GameData.with_networks
         GameData.with_prevDist GameData.tRexes];
    (apply Forall_set; [exact Hall|now apply applyAction_notCrashed|exact Hi]).
Qed.

Lemma controlAll_noneCrashed (deltaTime : number) (closest : option Obstacle.t)
    (dist : number) (g g' : GameData.t) :
  TRexGame.controlAll deltaTime closest dist g = Return g' ->
  noneCrashed g -> noneCrashed g'.
Proof.
  unfold TRexGame.controlAll.
  destruct (_ && _).
  2:{ intros H. assert (E : g = g') by congruence. now subst. }
  generalize (seq 0 (length (GameData.tRexes g))) as js. intros js.
  revert g; induction js as [|j js IH]; intros g; cbn [Res.foldM].
  - intros H. assert (E : g = g') by congruence. now subst.
  - destruct (TRexGame.controlTRex deltaTime closest dist g j) as [g1|] eqn:E;
      [|discriminate].
    cbn [Res.bind]. intros H Hall. apply (IH g1 H).
    eapply controlTRex_noneCrashed; eassumption.
Qed.

Lemma checkCollisions_noneCrashed (g : GameData.t) :
  noneCrashed g -> noneCrashed (TRexGame.checkCollisions g).
Proof.
  unfold noneCrashed, notCrashed. intros H.
  apply Forall_forall. intros tRex Hin.
  apply (In_nth_error _ _) in Hin as [i Hi].
  pose proof (checkCollisions_status g) as Hs.
  assert (E : nth_error (map TRex.status
                           (GameData.tRexes (TRexGame.checkCollisions g))) i
              = Some (TRex.status tRex))
    by (rewrite nth_error_map, Hi; reflexivity).
  rewrite Hs, nth_error_map in E.
  destruct (nth_error (GameData.tRexes g) i) as [before|] eqn:Eb;
    [|discriminate].
  cbn in E. assert (Es : TRex.status before = TRex.status tRex) by congruence.
  rewrite <- Es. rewrite Forall_forall in H. apply H.
  eapply nth_error_In; eassumption.
Qed.

Lemma frame_noneCrashed (canvas : option number) (stamp deltaTime : number)
    (g g' : GameData.t) (ds rest : list Q) :
  TRexGame.frame canvas stamp deltaTime g ds = Ok g' rest ->
  noneCrashed g -> noneCrashed g'.
Proof.
  unfold TRexGame.frame. cbv zeta.
  destruct (TRexGame.closestFrom _ _ _ _) as [closest dist].
  intros H Hall. apply bind_Ok in H as (g1 & ds1 & E1 & H).
  apply lift_Ok in E1 as [E1 ->].
  apply bind_Ok in H as (g2 & ds2 & E2 & H).
  apply ret_Ok in H as [<- ->].
  apply controlAll_noneCrashed in E1.
  2:{ unfold noneCrashed. destruct (JS.lt _ _); exact Hall. }
  apply updateObstacles_spec in E2 as (T & _).
  assert (H2 : noneCrashed g2).
  { unfold noneCrashed. rewrite T. cbn. apply Forall_map.
    eapply Forall_impl; [|exact E1].
    intros tRex. apply updateOneTRex_notCrashed. }
  destruct (JS.gt _ _); [now apply checkCollisions_noneCrashed|exact H2].
Qed.

Lemma handleRestart_status (g : GameData.t) :
  Forall (fun tRex => TRex.status tRex = WAITING)
    (GameData.tRexes (TRexGame.handleRestart g)).
Proof.
  unfold TRexGame.handleRestart. cbn. apply Forall_map.
  apply Forall_forall. intros tRex _. apply updateTRexStatus_status.
Qed.

Lemma handleStart_status (stamp : number) (g : GameData.t) :
  Forall (fun tRex => TRex.status tRex = RUNNING)
    (GameData.tRexes (TRexGame.handleStart stamp g)).
Proof.
  unfold TRexGame.handleStart. cbn. apply Forall_map.
  apply Forall_forall. intros tRex _. apply updateTRexStatus_status.
Qed.

Lemma handleGenerationEnd_status (shuffledIndices : list nat) (g g' : GameData.t)
    (ds rest : list Q) :
  TRexGame.handleGenerationEnd shuffledIndices g ds = Ok g' rest ->
  Forall (fun tRex => TRex.status tRex = WAITING) (GameData.tRexes g').
Proof.
  unfold TRexGame.handleGenerationEnd. cbv zeta.
  destruct (nth_error (TRexGame.rankedIndices _) 0) as [bestIdx|];
    [|discriminate].
  destruct (nth_error (GameData.networks g) bestIdx) as [best|];
    [|discriminate].
  intros H. apply bind_Ok in H as (w & ds1 & _ & H).
  apply bind_Ok in H as (pool & ds2 & _ & H).
  apply bind_Ok in H as (elite & ds3 & _ & H).
  apply bind_Ok in H as (survivors & ds4 & _ & H).
  apply bind_Ok in H as (nextNetworks & ds5 & _ & H).
  apply ret_Ok in H as [<- _]. apply handleRestart_status.
Qed.

Lemma update_noneCrashed (canvas : option number) (time stamp : number)
    (shuffledIndices : list nat) (g g' : GameData.t) (ds rest : list Q) :
  TRexGame.update canvas time stamp shuffledIndices g ds = Ok g' rest ->
  noneCrashed g -> noneCrashed g'.
Proof.
  unfold TRexGame.update. cbv zeta.
  destruct (GameData.playing _).
  2:{ intros H. apply ret_Ok in H as [<- _]. auto. }
  intros H Hall. apply bind_Ok in H as (gf & mid & Ef & H).
  apply frame_noneCrashed in Ef; [|exact Hall].
  destruct (TRexGame.aliveCount gf =? 0).
  - apply handleGenerationEnd_status in H.
    eapply Forall_impl; [|exact H]. intros tRex E. unfold notCrashed.
    rewrite E. discriminate.
  - apply ret_Ok in H as [<- _]. exact Ef.
Qed.

(** No frame, start or restart gives an agent the status [CRASHED]: an
    agent has it afterwards only if one had it before. *)
Lemma plays_noneCrashed (es : list event) (g g' : GameData.t) :
  plays es g g' -> noneCrashed g -> noneCrashed g'.
Proof.
  induction 1 as [g|e es g g1 g' He _ IH]; intros Hall; [exact Hall|].
  apply IH. destruct He as [canvas time stamp shuffled ds rest g g1 _ _ Hu| |].
  - eapply update_noneCrashed; eassumption.
  - eapply Forall_impl; [|apply handleStart_status]. intros tRex E.
    unfold notCrashed. rewrite E. discriminate.
  - eapply Forall_impl; [|apply handleRestart_status]. intros tRex E.
    unfold notCrashed. rewrite E. discriminate.
Qed.

End StatusProofs.
